(** * ProfessorAI: the model-response decoder of [services/geminiService.ts]

    A shallow embedding of the text sanitizer [cleanJson] in its three
    revisions, the rounding reviver [jsonReviver], the service operations
    built on them with the address rewriting of [fetchGithubContent], and
    the grading loop [runEvaluation] of [App.tsx] that calls them, together
    with the platform functions they call ([String.prototype.replace] with a
    regular expression or a string, [includes], [indexOf], [lastIndexOf],
    [substring], [trim], [JSON.parse], [Math.round]).

    A JavaScript string is a sequence of UTF-16 code units; a code unit is
    modelled as a number of type [N] and a string as a list of them.

    The file has three parts: the model of the program, the vocabulary in
    which its properties are stated, and the properties with their proofs. *)

From Stdlib Require Import ZArith NArith QArith Qabs Lia Bool String Ascii Floats.
From stdpp Require Import base list.

Set Warnings "-register-all,-inexact-float".

Local Open Scope N_scope.

(** ** Strings *)

Abbreviation char := N (only parsing).
Abbreviation jsstring := (list N) (only parsing).

(** Source literals are written as Rocq strings and read as code units. *)
Definition str (s : string) : jsstring :=
  map N_of_ascii (list_ascii_of_string s).

(** The double quote, which a Rocq string literal cannot hold undoubled. *)
Definition dq : char := 34.
Definition quoted (s : string) : jsstring := dq :: str s ++ [dq].

Definition isDigit (c : char) : bool := (48 <=? c) && (c <=? 57).
Definition isDot (c : char) : bool := c =? 46.
Definition isExpMark (c : char) : bool := (c =? 101) || (c =? 69).
Definition isSign (c : char) : bool := (c =? 43) || (c =? 45).
Definition lbrace : char := 123.
Definition rbrace : char := 125.

(** [WhiteSpace] and [LineTerminator] of ECMAScript, the code points that
    [String.prototype.trim] strips. *)
Definition isTrimSpace (c : char) : bool :=
  (c =? 9) || (c =? 10) || (c =? 11) || (c =? 12) || (c =? 13) || (c =? 32)
  || (c =? 160) || (c =? 5760) || ((8192 <=? c) && (c <=? 8202))
  || (c =? 8232) || (c =? 8233) || (c =? 8239) || (c =? 8287)
  || (c =? 12288) || (c =? 65279).

Fixpoint trimStart (s : jsstring) : jsstring :=
  match s with
  | c :: t => if isTrimSpace c then trimStart t else s
  | [] => []
  end.

Definition trimEnd (s : jsstring) : jsstring := rev (trimStart (rev s)).

Definition trim (s : jsstring) : jsstring := trimEnd (trimStart s).

(** [s.indexOf(c)] for a one-character search string: the least index
    holding [c], or -1. *)
Fixpoint indexOf (c : char) (s : jsstring) : Z :=
  match s with
  | [] => (-1)%Z
  | x :: t =>
      if x =? c then 0%Z
      else match indexOf c t with
           | Zneg _ => (-1)%Z
           | i => Z.succ i
           end
  end.

(** [s.lastIndexOf(c)]: the greatest index holding [c], or -1. *)
Fixpoint lastIndexOf (c : char) (s : jsstring) : Z :=
  match s with
  | [] => (-1)%Z
  | x :: t =>
      match lastIndexOf c t with
      | Zneg _ => if x =? c then 0%Z else (-1)%Z
      | i => Z.succ i
      end
  end.

(** [s.substring(a, b)]: both indices are clamped to [0, length] and
    swapped when the first is the greater. *)
Definition clampIndex (s : jsstring) (i : Z) : nat :=
  Nat.min (Z.to_nat i) (length s).

Definition substring (a b : Z) (s : jsstring) : jsstring :=
  let a' := clampIndex s a in
  let b' := clampIndex s b in
  take (Nat.max a' b' - Nat.min a' b') (drop (Nat.min a' b') s).

(** The longest prefix of characters of a class, and what follows it. *)
Fixpoint takeWhile (p : char -> bool) (s : jsstring) : jsstring :=
  match s with
  | c :: t => if p c then c :: takeWhile p t else []
  | [] => []
  end.

Fixpoint dropWhile (p : char -> bool) (s : jsstring) : jsstring :=
  match s with
  | c :: t => if p c then dropWhile p t else s
  | [] => []
  end.

Definition startsWith (p : char -> bool) (s : jsstring) : bool :=
  match s with
  | c :: _ => p c
  | [] => false
  end.

(** ** Regular expressions

    The patterns of [cleanJson] are embedded as backtracking matchers in
    continuation-passing style, the way ECMAScript specifies matching: a
    matcher consumes a prefix of the input and hands the rest to its
    continuation; when the continuation fails the matcher tries its next
    alternative. Quantifiers are greedy. *)

Section Matchers.
Context {R : Type}.

Definition matcher := jsstring -> (jsstring -> option R) -> option R.

(** One character of a class. *)
Definition rclass (p : char -> bool) : matcher := fun s k =>
  match s with
  | c :: t => if p c then k t else None
  | [] => None
  end.

(** [m1 m2] *)
Definition rseq (m1 m2 : matcher) : matcher := fun s k =>
  m1 s (fun t => m2 t k).

(** [[p]+], greedy: the longer match is tried before the shorter. *)
Fixpoint rplus (p : char -> bool) (s : jsstring)
    (k : jsstring -> option R) : option R :=
  match s with
  | c :: t =>
      if p c then
        match rplus p t k with
        | Some r => Some r
        | None => k t
        end
      else None
  | [] => None
  end.

(** [m?], greedy. *)
Definition ropt (m : matcher) : matcher := fun s k =>
  match m s k with
  | Some r => Some r
  | None => k s
  end.

(** [m{n}] *)
Fixpoint rrepeat (n : nat) (m : matcher) : matcher :=
  match n with
  | O => fun s k => k s
  | S n' => rseq m (rrepeat n' m)
  end.

(** A literal word. *)
Fixpoint rlit (w : jsstring) : matcher :=
  match w with
  | [] => fun s k => k s
  | c :: w' => rseq (rclass (N.eqb c)) (rlit w')
  end.
End Matchers.

(** The outcome of one match attempt at the head of [s]: the replacement
    text and the input left after the match. *)
Definition rule := jsstring -> option (jsstring * jsstring).

(** [s.replace(/re/g, ...)]: scan left to right; at a position where the
    pattern matches emit the replacement and resume after the match (one
    character further when the match is empty), elsewhere copy the
    character. [skip] counts the characters of the current match still to
    be passed over. *)
Fixpoint replaceFrom (re : rule) (skip : nat) (s : jsstring) : jsstring :=
  match s with
  | [] =>
      match skip with
      | O => match re [] with Some (repl, _) => repl | None => [] end
      | S _ => []
      end
  | c :: t =>
      match skip with
      | S n => replaceFrom re n t
      | O =>
          match re (c :: t) with
          | Some (repl, rest) =>
              repl ++
              match (length (c :: t) - length rest)%nat with
              | S n => replaceFrom re n t
              | O => c :: replaceFrom re 0 t
              end
          | None => c :: replaceFrom re 0 t
          end
      end
  end.

Definition replaceAll (re : rule) (s : jsstring) : jsstring :=
  replaceFrom re 0 s.

(** The text matched between the start [s] of a match and the input [rest]
    left after it. *)
Definition matched (s rest : jsstring) : jsstring :=
  take (length s - length rest) s.

(** ** cleanJson *)

Definition fenceJson : jsstring := str "```json".
Definition fence : jsstring := str "```".

(** [/```json/g] and [/```/g], both replaced by the empty string. *)
Definition reFenceJson : rule := fun s =>
  rlit fenceJson s (fun rest => Some ([], rest)).
Definition reFence : rule := fun s =>
  rlit fence s (fun rest => Some ([], rest)).

Definition stripFences (text : jsstring) : jsstring :=
  replaceAll reFence (replaceAll reFenceJson text).

(** Lines 226-231: the span from the first opening brace to the last
    closing brace, when both exist in that order. *)
Definition braceSpan (cleaned : jsstring) : jsstring :=
  let firstBrace := indexOf lbrace cleaned in
  let lastBrace := lastIndexOf rbrace cleaned in
  if negb (firstBrace =? -1)%Z && negb (lastBrace =? -1)%Z
     && (lastBrace >? firstBrace)%Z
  then substring firstBrace (lastBrace + 1) cleaned
  else cleaned.

(** [/(\d+\.\d{6})\d+/g] replaced by ['$1']. *)
Definition reLongDecimal : rule := fun s =>
  rseq (rplus isDigit) (rseq (rclass isDot) (rrepeat 6 (rclass isDigit))) s
    (fun g1 => rplus isDigit g1 (fun rest => Some (matched s g1, rest))).

Definition truncDecimals (s : jsstring) : jsstring :=
  replaceAll reLongDecimal s.

(** The callback of the second rewrite. *)
Definition keepTwoDecimals (numberPart : jsstring) : jsstring :=
  let dotIndex := indexOf 46 numberPart in
  if negb (dotIndex =? -1)%Z
  then substring 0 (dotIndex + 3) numberPart
  else numberPart.

(** [/(\d+\.\d+)[eE][+-]?\d+/g] replaced through [keepTwoDecimals]. *)
Definition reScientific : rule := fun s =>
  rseq (rplus isDigit) (rseq (rclass isDot) (rplus isDigit)) s
    (fun g1 =>
       rseq (rclass isExpMark) (rseq (ropt (rclass isSign)) (rplus isDigit)) g1
         (fun rest => Some (keepTwoDecimals (matched s g1), rest))).

Definition reduceScientific (s : jsstring) : jsstring :=
  replaceAll reScientific s.

(** Lines 233-246: the two numeric rewrites in their order. *)
Definition normalizeNumbers (s : jsstring) : jsstring :=
  reduceScientific (truncDecimals s).

(** [cleanJson] of lines 221-249. *)
Definition cleanJson (text : jsstring) : jsstring :=
  trim (normalizeNumbers (braceSpan (stripFences text))).

(** [cleanJson] of lines 15-28, the revision without numeric rewrites. *)
Definition cleanJson_v1 (text : jsstring) : jsstring :=
  trim (braceSpan (stripFences text)).

(** ** Numbers

    A JavaScript number is an IEEE 754 binary64 value, modelled by the
    kernel's primitive floats. *)

Abbreviation number := PrimFloat.float (only parsing).

(** The integer [n] as a number; exact for [|n| < 2^53]. *)
Definition numberOfZ (n : Z) : number :=
  SF2Prim (binary_normalize prec emax n 0 false).

(** [Math.round(x)]: the integral number closest to [x], the one closer to
    plus infinity when two are equally close; [x] itself when it is
    integral, infinite or NaN; the zero of the sign of [x] when the result
    is zero. *)
Definition Math_round (x : number) : number :=
  match Prim2SF x with
  | S754_finite sign m e =>
      if (0 <=? e)%Z then x
      else
        let sm := if sign then Z.neg m else Z.pos m in
        (* floor (sm * 2^e + 1/2) *)
        let n := ((2 * sm + 2 ^ (- e)) / 2 ^ (1 - e))%Z in
        if (n =? 0)%Z then (if sign then neg_zero else zero)
        else numberOfZ n
  | _ => x
  end.

(** ** JSON values *)

Inductive value :=
  | VNull
  | VBool (b : bool)
  | VNumber (x : number)
  | VString (s : jsstring)
  | VArray (elems : list value)
  | VObject (props : list (jsstring * value)).

(** Lines 252-257. *)
Definition jsonReviver (key : jsstring) (v : value) : value :=
  match v with
  | VNumber x => VNumber (Math_round (x * 100) / 100)%float
  | _ => v
  end.

(** ** JSON.parse

    The grammar of ECMA-404 as [JSON.parse] reads it. A numeric literal
    denotes the binary64 value nearest to its decimal value (ties to even).
    Objects keep their properties in the order of first occurrence, a
    repeated key keeping the value given last. *)

Definition isJsonSpace (c : char) : bool :=
  (c =? 9) || (c =? 10) || (c =? 13) || (c =? 32).

Definition skipSpace (s : jsstring) : jsstring := dropWhile isJsonSpace s.

Definition hexDigit (c : char) : option N :=
  if isDigit c then Some (c - 48)
  else if (97 <=? c) && (c <=? 102) then Some (c - 87)
  else if (65 <=? c) && (c <=? 70) then Some (c - 55)
  else None.

Definition hex4 (a b c d : char) : option char :=
  match hexDigit a, hexDigit b, hexDigit c, hexDigit d with
  | Some x, Some y, Some z, Some w => Some (x * 4096 + y * 256 + z * 16 + w)
  | _, _, _, _ => None
  end.

(** The character an escape letter stands for. *)
Definition simpleEscape (c : char) : option char :=
  if c =? 34 then Some 34          (* quotation mark *)
  else if c =? 92 then Some 92     (* reverse solidus *)
  else if c =? 47 then Some 47     (* solidus *)
  else if c =? 98 then Some 8      (* b: backspace *)
  else if c =? 102 then Some 12    (* f: form feed *)
  else if c =? 110 then Some 10    (* n: line feed *)
  else if c =? 114 then Some 13    (* r: carriage return *)
  else if c =? 116 then Some 9     (* t: tab *)
  else None.

Definition consChar (c : char) (r : option (jsstring * jsstring)) :
    option (jsstring * jsstring) :=
  match r with
  | Some (w, rest) => Some (c :: w, rest)
  | None => None
  end.

(** The characters of a string up to its closing quote. *)
Fixpoint parseChars (s : jsstring) : option (jsstring * jsstring) :=
  match s with
  | [] => None
  | c :: t =>
      if c =? 34 then Some ([], t)
      else if c =? 92 then
        match t with
        | e :: t' =>
            if e =? 117 then
              match t' with
              | h1 :: h2 :: h3 :: h4 :: t'' =>
                  match hex4 h1 h2 h3 h4 with
                  | Some u => consChar u (parseChars t'')
                  | None => None
                  end
              | _ => None
              end
            else
              match simpleEscape e with
              | Some x => consChar x (parseChars t')
              | None => None
              end
        | [] => None
        end
      else if c <? 32 then None
      else consChar c (parseChars t)
  end.

(** The natural number a run of decimal digits denotes. *)
Definition numeral (ds : jsstring) : Z :=
  fold_left (fun acc c => (10 * acc + Z.of_N (c - 48))%Z) ds 0%Z.

(** The number nearest to [m * 10^e], of the given sign. *)
Definition numberOfDecimal (negative : bool) (m e : Z) : number :=
  if (m =? 0)%Z then (if negative then neg_zero else zero)
  else if (0 <=? e)%Z then
    SF2Prim (binary_normalize prec emax
               (if negative then - (m * 10 ^ e) else m * 10 ^ e)%Z 0 false)
  else
    let d := (10 ^ (- e))%Z in
    let shift := Z.max 0 (Z.log2 d + 56 - Z.log2 m) in
    let '(q, r) := Z.div_eucl (m * 2 ^ shift) d in
    SF2Prim (binary_round_aux prec emax negative q (- shift)
               (new_location d r)).

(** The integer part of a literal: a zero, or digits that do not begin
    with a zero. *)
Definition integerPart (s : jsstring) : jsstring :=
  if startsWith (N.eqb 48) s then [48] else takeWhile isDigit s.

(** An optional fraction: a dot and at least one digit. *)
Definition fractionPart (s : jsstring) : option (jsstring * jsstring) :=
  match s with
  | c :: t =>
      if c =? 46 then
        match takeWhile isDigit t with
        | [] => None
        | frac => Some (frac, dropWhile isDigit t)
        end
      else Some ([], s)
  | [] => Some ([], s)
  end.

(** An optional exponent: a marker, an optional sign, at least one digit. *)
Definition exponentPart (s : jsstring) : option (Z * jsstring) :=
  match s with
  | e :: t =>
      if isExpMark e then
        let t' := if startsWith isSign t then drop 1 t else t in
        match takeWhile isDigit t' with
        | [] => None
        | ds =>
            Some ((if startsWith (N.eqb 45) t then - numeral ds
                   else numeral ds)%Z,
                  dropWhile isDigit t')
        end
      else Some (0%Z, s)
  | [] => Some (0%Z, s)
  end.

(** A numeric literal: an optional minus sign, an integer part, an optional
    fraction, an optional exponent. *)
Definition parseNumber (s : jsstring) : option (number * jsstring) :=
  let negative := startsWith (N.eqb 45) s in
  let s1 := if negative then drop 1 s else s in
  match integerPart s1 with
  | [] => None
  | int =>
      match fractionPart (drop (length int) s1) with
      | None => None
      | Some (frac, s3) =>
          match exponentPart s3 with
          | None => None
          | Some (ex, rest) =>
              Some (numberOfDecimal negative (numeral (int ++ frac))
                      (ex - Z.of_nat (length frac)), rest)
          end
      end
  end.

(** [CreateDataProperty] on an object under construction. *)
Fixpoint setProp (key : jsstring) (v : value)
    (props : list (jsstring * value)) : list (jsstring * value) :=
  match props with
  | [] => [(key, v)]
  | (k, w) :: ps =>
      if bool_decide (k = key) then (k, v) :: ps
      else (k, w) :: setProp key v ps
  end.

Fixpoint getProp (key : jsstring) (props : list (jsstring * value)) :
    option value :=
  match props with
  | [] => None
  | (k, w) :: ps => if bool_decide (k = key) then Some w else getProp key ps
  end.

Inductive parsed :=
  | Parsed (v : value) (rest : jsstring)
  | Unexpected
  | OutOfFuel.

Definition isPrefix (w s : jsstring) : bool :=
  bool_decide (take (length w) s = w).

Fixpoint parseValue (fuel : nat) (s : jsstring) : parsed :=
  match fuel with
  | O => OutOfFuel
  | S f =>
      match skipSpace s with
      | [] => Unexpected
      | c :: t =>
          if c =? 123 then
            if startsWith (N.eqb 125) (skipSpace t)
            then Parsed (VObject []) (drop 1 (skipSpace t))
            else parseMembers f [] (skipSpace t)
          else if c =? 91 then
            if startsWith (N.eqb 93) (skipSpace t)
            then Parsed (VArray []) (drop 1 (skipSpace t))
            else parseElements f [] (skipSpace t)
          else if c =? 34 then
            match parseChars t with
            | Some (w, r) => Parsed (VString w) r
            | None => Unexpected
            end
          else if isDigit c || (c =? 45) then
            match parseNumber (c :: t) with
            | Some (x, r) => Parsed (VNumber x) r
            | None => Unexpected
            end
          else if isPrefix (str "true") (c :: t) then
            Parsed (VBool true) (drop 4 (c :: t))
          else if isPrefix (str "false") (c :: t) then
            Parsed (VBool false) (drop 5 (c :: t))
          else if isPrefix (str "null") (c :: t) then
            Parsed VNull (drop 4 (c :: t))
          else Unexpected
      end
  end
with parseElements (fuel : nat) (acc : list value) (s : jsstring) : parsed :=
  match fuel with
  | O => OutOfFuel
  | S f =>
      match parseValue f s with
      | Parsed v r =>
          match skipSpace r with
          | c :: r' =>
              if c =? 44 then parseElements f (v :: acc) r'
              else if c =? 93 then Parsed (VArray (rev (v :: acc))) r'
              else Unexpected
          | [] => Unexpected
          end
      | e => e
      end
  end
with parseMembers (fuel : nat) (acc : list (jsstring * value))
    (s : jsstring) : parsed :=
  match fuel with
  | O => OutOfFuel
  | S f =>
      match skipSpace s with
      | q :: t =>
          if q =? 34 then
            match parseChars t with
            | Some (key, r) =>
                match skipSpace r with
                | colon :: r' =>
                    if colon =? 58 then
                      match parseValue f r' with
                      | Parsed v r'' =>
                          match skipSpace r'' with
                          | c :: r3 =>
                              if c =? 44
                              then parseMembers f (setProp key v acc) r3
                              else if c =? 125
                              then Parsed (VObject (setProp key v acc)) r3
                              else Unexpected
                          | [] => Unexpected
                          end
                      | e => e
                      end
                    else Unexpected
                | [] => Unexpected
                end
            | None => Unexpected
            end
          else Unexpected
      | [] => Unexpected
      end
  end.

(** [ToString] of an array index. *)
Fixpoint uintChars (u : Decimal.uint) : jsstring :=
  match u with
  | Decimal.Nil => []
  | Decimal.D0 r => 48 :: uintChars r
  | Decimal.D1 r => 49 :: uintChars r
  | Decimal.D2 r => 50 :: uintChars r
  | Decimal.D3 r => 51 :: uintChars r
  | Decimal.D4 r => 52 :: uintChars r
  | Decimal.D5 r => 53 :: uintChars r
  | Decimal.D6 r => 54 :: uintChars r
  | Decimal.D7 r => 55 :: uintChars r
  | Decimal.D8 r => 56 :: uintChars r
  | Decimal.D9 r => 57 :: uintChars r
  end.

Definition indexKey (i : nat) : jsstring := uintChars (Nat.to_uint i).

(** [InternalizeJSONProperty]: the reviver is applied to every element and
    property value, the innermost first, and last to the whole value under
    the empty key. A reviver here returns a value; one that returns
    [undefined], deleting the property, is not expressible. *)
Fixpoint internalize (reviver : jsstring -> value -> value)
    (key : jsstring) (v : value) : value :=
  reviver key
    match v with
    | VArray elems =>
        VArray
          ((fix elements (i : nat) (l : list value) : list value :=
              match l with
              | [] => []
              | e :: l' =>
                  internalize reviver (indexKey i) e :: elements (S i) l'
              end) O elems)
    | VObject props =>
        VObject
          ((fix properties (l : list (jsstring * value)) :=
              match l with
              | [] => []
              | (k, e) :: l' => (k, internalize reviver k e) :: properties l'
              end) props)
    | _ => v
    end.

(** [JSON.parse(text, reviver)]; [None] stands for the [SyntaxError]. *)
Definition JSON_parse (text : jsstring)
    (reviver : jsstring -> value -> value) : option value :=
  match parseValue (2 * length text + 2) text with
  | Parsed v rest =>
      match skipSpace rest with
      | [] => Some (internalize reviver [] v)
      | _ :: _ => None
      end
  | _ => None
  end.

(** ** The world of the service operations

    Every operation awaits one call of [ai.models.generateContent]. The
    request only determines what the service answers, so the answer is an
    input of the model: the call is rejected with a thrown value, or it
    resolves to a response. *)

(** A thrown value: an instance of [Error] (or of a subclass, named for
    the record) with its message, or a value that is no [Error]. *)
Inductive thrown :=
  | ErrorObject (name : string) (message : jsstring)
  | OtherThrown.

Record webSource := { web_uri : option jsstring; web_title : option jsstring }.
Record groundingChunk := { chunk_web : option webSource }.
Record groundingMetadata :=
  { groundingChunks : option (list groundingChunk) }.
Record candidate := { candidate_grounding : option groundingMetadata }.

Record response := {
  response_text : option jsstring;
  response_candidates : option (list candidate)
}.

Inductive upstream :=
  | Rejected (e : thrown)
  | Responded (r : response).

(** The outcome of [fetch] and of reading the body of what it returned. *)
Inductive fetched :=
  | FetchRejected (e : thrown)
  | FetchStatus (ok : bool) (body : thrown + jsstring).

Inductive logLevel := LogError | LogDebug | LogWarn.
Inductive logged := LoggedThrown (e : thrown) | LoggedText (s : jsstring).
Record logEntry := { log_level : logLevel; log_label : string; log_arg : logged }.

Inductive outcome (A : Type) :=
  | Returned (a : A)
  | Threw (e : thrown).
Arguments Returned {A} a.
Arguments Threw {A} e.

(** A run of an operation: what it wrote to the console, and how it ended. *)
Definition run (A : Type) : Type := list logEntry * outcome A.

(** [!text] is false exactly for a non-empty string. *)
Definition hasText (text : option jsstring) : bool :=
  match text with
  | Some (_ :: _) => true
  | _ => false
  end.

(** [a || b] on an optional string. *)
Definition orElse (a : option jsstring) (b : jsstring) : jsstring :=
  match a with
  | Some (c :: s) => c :: s
  | _ => b
  end.

Record GroundingSource := { uri : jsstring; title : jsstring }.
Record GroundingResult := {
  query : jsstring;
  sources : list GroundingSource;
  text : jsstring
}.

Section Services.
(** The message an engine gives the [SyntaxError] of [JSON.parse]; the
    standard leaves it to the implementation. *)
Variable syntaxErrorMessage : jsstring -> jsstring.

Definition parseReviving (cleaned : jsstring) : outcome value :=
  match JSON_parse cleaned jsonReviver with
  | Some v => Returned v
  | None => Threw (ErrorObject "SyntaxError" (syntaxErrorMessage cleaned))
  end.

(** Lines 262-318. *)
Definition generateRubricFromText (up : upstream) : run value :=
  match up with
  | Rejected e => ([], Threw e)
  | Responded r =>
      if negb (hasText (response_text r))
      then ([], Threw (ErrorObject "Error" (str "No response from Gemini")))
      else
        let text := orElse (response_text r) [] in
        match parseReviving (cleanJson text) with
        | Returned v => ([], Returned v)
        | Threw e =>
            ([ {| log_level := LogError;
                  log_label := "Failed to parse Rubric JSON";
                  log_arg := LoggedThrown e |};
               {| log_level := LogDebug;
                  log_label := "Raw Rubric Response:";
                  log_arg := LoggedText text |} ],
             Threw (ErrorObject "Error"
                (str "Failed to parse rubric structure. Please try again.")))
        end
  end.

(** Lines 323-401. *)
Definition evaluateSubmission (up : upstream) : run value :=
  match up with
  | Rejected e => ([], Threw e)
  | Responded r =>
      if negb (hasText (response_text r))
      then ([], Threw (ErrorObject "Error" (str "No evaluation generated")))
      else
        let text := orElse (response_text r) [] in
        match parseReviving (cleanJson text) with
        | Returned v => ([], Returned v)
        | Threw e =>
            ([ {| log_level := LogError;
                  log_label := "Failed to parse Evaluation JSON";
                  log_arg := LoggedThrown e |};
               {| log_level := LogDebug;
                  log_label := "Raw Evaluation Response:";
                  log_arg := LoggedText text |} ],
             Threw (ErrorObject "Error"
                (str "Failed to parse evaluation result. The model may have been interrupted or produced invalid JSON.")))
        end
  end.

(** Lines 406-429; the address fetched is computed from [url] and only
    determines what [fetch] returns. *)
Definition fetchGithubContent (f : fetched) : run jsstring :=
  match f with
  | FetchStatus false _ => ([], Returned [])
  | FetchStatus true (inr body) => ([], Returned body)
  | FetchStatus true (inl e) | FetchRejected e =>
      ([ {| log_level := LogWarn;
            log_label := "Could not fetch raw GitHub content (CORS or Private):";
            log_arg := LoggedThrown e |} ],
       Returned [])
  end.

(** [e instanceof Error ? e.message : "Unknown error"] *)
Definition errorMessageOf (e : thrown) : jsstring :=
  match e with
  | ErrorObject _ message => message
  | OtherThrown => str "Unknown error"
  end.

(** The object literal of lines 498-506. *)
Definition failedAnalysis (repoUrl : jsstring) (e : thrown) : value :=
  VObject
    [ (str "repo_url", VString repoUrl);
      (str "summary",
       VString (str "Failed to analyze repository due to access restrictions or model error."));
      (str "implementation_score", VNumber 0%float);
      (str "max_score", VNumber 10%float);
      (str "evidence", VArray []);
      (str "status", VString (str "failed"));
      (str "error_message", VString (errorMessageOf e)) ].

(** The body of the [try] block, lines 461-494. *)
Definition analyzeAttempt (up : upstream) : outcome value :=
  match up with
  | Rejected e => Threw e
  | Responded r =>
      if negb (hasText (response_text r))
      then Threw (ErrorObject "Error" (str "No code analysis response"))
      else parseReviving (cleanJson (orElse (response_text r) []))
  end.

(** Lines 434-508. *)
Definition analyzeCodeRepository (repoUrl : jsstring) (f : fetched)
    (up : upstream) : run value :=
  let '(fetchLog, _) := fetchGithubContent f in
  match analyzeAttempt up with
  | Returned v => (fetchLog, Returned v)
  | Threw e =>
      (fetchLog ++
         [ {| log_level := LogError;
              log_label := "Code Analysis Failed";
              log_arg := LoggedThrown e |} ],
       Returned (failedAnalysis repoUrl e))
  end.

(** Lines 513-524. *)
Definition transcribeAudioNote (up : upstream) : run jsstring :=
  match up with
  | Rejected e => ([], Threw e)
  | Responded r => ([], Returned (orElse (response_text r) []))
  end.

(** [response.candidates?.[0]?.groundingMetadata?.groundingChunks || []] *)
Definition chunksOf (r : response) : list groundingChunk :=
  match response_candidates r with
  | Some (c :: _) =>
      match candidate_grounding c with
      | Some g =>
          match groundingChunks g with
          | Some chunks => chunks
          | None => []
          end
      | None => []
      end
  | _ => []
  end.

Definition sourceOf (c : groundingChunk) : GroundingSource :=
  {| uri := orElse (chunk_web c ≫= web_uri) [];
     title := orElse (chunk_web c ≫= web_title) (str "Source") |}.

Definition hasUri (s : GroundingSource) : bool :=
  match uri s with
  | _ :: _ => true
  | [] => false
  end.

(** Lines 529-552. *)
Definition checkFacts (q : jsstring) (up : upstream) : run GroundingResult :=
  match up with
  | Rejected e => ([], Threw e)
  | Responded r =>
      ([], Returned
        {| query := q;
           sources := List.filter hasUri (map sourceOf (chunksOf r));
           text := orElse (response_text r) (str "No information found.") |})
  end.
End Services.

(** ** Substrings

    [s.includes(w)]: [w] occurs in [s] at some position. *)
Fixpoint includes (w s : jsstring) : bool :=
  isPrefix w s
  || match s with
     | [] => false
     | _ :: t => includes w t
     end.

(** ** [cleanJson] of lines 567-569

    The third revision in the file strips a fence at the two ends of the
    text only: [/^```json\s*/], [/^```\s*/] and [/\s*```$/], none of them
    global, each replaced by the empty string, then [trim]. *)

Section Anchors.
Context {R : Type}.

(** [[p]*], greedy. *)
Fixpoint rstar (p : char -> bool) (s : jsstring)
    (k : jsstring -> option R) : option R :=
  match s with
  | c :: t =>
      if p c then
        match rstar p t k with
        | Some r => Some r
        | None => k s
        end
      else k s
  | [] => k []
  end.

(** [$] without the multiline flag: the end of the input. *)
Definition rend : @matcher R := fun s k =>
  match s with
  | [] => k []
  | _ :: _ => None
  end.
End Anchors.

(** [s.replace(/^re/, ...)]: without the multiline flag [^] holds at index
    0 only, so the pattern is tried there and nowhere else. *)
Definition replaceAtStart (re : rule) (s : jsstring) : jsstring :=
  match re s with
  | Some (repl, rest) => repl ++ rest
  | None => s
  end.

(** [s.replace(/re/, ...)] without the global flag: the leftmost match is
    replaced and the rest of the text is kept. *)
Fixpoint replaceFirstMatch (re : rule) (s : jsstring) : jsstring :=
  match re s with
  | Some (repl, rest) => repl ++ rest
  | None =>
      match s with
      | [] => []
      | c :: t => c :: replaceFirstMatch re t
      end
  end.

(** [/^```json\s*/], [/^```\s*/] and [/\s*```$/]; [\s] is the class that
    [trim] strips. *)
Definition reFenceJsonStart : rule := fun s =>
  rlit fenceJson s (fun t => rstar isTrimSpace t (fun rest => Some ([], rest))).
Definition reFenceStart : rule := fun s =>
  rlit fence s (fun t => rstar isTrimSpace t (fun rest => Some ([], rest))).
Definition reFenceEnd : rule := fun s =>
  rstar isTrimSpace s
    (fun t => rlit fence t (fun u => rend u (fun rest => Some ([], rest)))).

Definition cleanJson_v3 (text : jsstring) : jsstring :=
  trim (replaceFirstMatch reFenceEnd
          (replaceAtStart reFenceStart
             (replaceAtStart reFenceJsonStart text))).

(** ** The address [fetchGithubContent] fetches (lines 410-420)

    [s.replace(w, r)] with a string pattern replaces the first occurrence
    of [w]; the replacement texts of the source hold no [$]. *)
Fixpoint replaceFirst (w r s : jsstring) : jsstring :=
  if isPrefix w s then r ++ drop (length w) s
  else match s with
       | [] => []
       | c :: t => c :: replaceFirst w r t
       end.

Definition rawUrl (url : jsstring) : jsstring :=
  let isGithub := includes (str "github.com") url in
  if isGithub && includes (str "/blob/") url
  then replaceFirst (str "/blob/") (str "/")
         (replaceFirst (str "github.com") (str "raw.githubusercontent.com") url)
  else if isGithub && negb (includes (str "/blob/") url)
          && negb (includes (str "/tree/") url)
  then replaceFirst (str "github.com") (str "raw.githubusercontent.com") url
       ++ str "/main/README.md"
  else url.

(** ** The operations of lines 33-166

    The revision without numeric rewrites calls [JSON.parse] without a
    reviver, which is [JSON_parse] with the reviver that returns every
    value as it is. *)

Section ServicesV1.
Variable syntaxErrorMessage : jsstring -> jsstring.

Definition parsePlain (cleaned : jsstring) : outcome value :=
  match JSON_parse cleaned (fun _ v => v) with
  | Some v => Returned v
  | None => Threw (ErrorObject "SyntaxError" (syntaxErrorMessage cleaned))
  end.

(** Lines 33-88. *)
Definition generateRubricFromText_v1 (up : upstream) : run value :=
  match up with
  | Rejected e => ([], Threw e)
  | Responded r =>
      if negb (hasText (response_text r))
      then ([], Threw (ErrorObject "Error" (str "No response from Gemini")))
      else
        let text := orElse (response_text r) [] in
        match parsePlain (cleanJson_v1 text) with
        | Returned v => ([], Returned v)
        | Threw e =>
            ([ {| log_level := LogError;
                  log_label := "Failed to parse Rubric JSON";
                  log_arg := LoggedThrown e |};
               {| log_level := LogDebug;
                  log_label := "Raw Rubric Response:";
                  log_arg := LoggedText text |} ],
             Threw (ErrorObject "Error"
                (str "Failed to parse rubric structure. Please try again.")))
        end
  end.

(** Lines 93-166. *)
Definition evaluateSubmission_v1 (up : upstream) : run value :=
  match up with
  | Rejected e => ([], Threw e)
  | Responded r =>
      if negb (hasText (response_text r))
      then ([], Threw (ErrorObject "Error" (str "No evaluation generated")))
      else
        let text := orElse (response_text r) [] in
        match parsePlain (cleanJson_v1 text) with
        | Returned v => ([], Returned v)
        | Threw e =>
            ([ {| log_level := LogError;
                  log_label := "Failed to parse Evaluation JSON";
                  log_arg := LoggedThrown e |};
               {| log_level := LogDebug;
                  log_label := "Raw Evaluation Response:";
                  log_arg := LoggedText text |} ],
             Threw (ErrorObject "Error"
                (str "Failed to parse evaluation result. The model may have been interrupted or produced invalid JSON.")))
        end
  end.
End ServicesV1.

(** ** The grading loop of [App.tsx] (lines 111-161)

    The value [evaluateSubmission] returns is whatever [JSON.parse] built;
    the cast to [EvaluationResult] checks nothing, so the loop is modelled
    on values, with the [TypeError] that reading a property of [null] or
    calling what is no function throws. *)

Inductive submissionStatus :=
  | Pending
  | Evaluating
  | AnalyzingCode
  | Graded
  | Errored.

Record StudentSubmission := {
  sub_id : jsstring;
  sub_filename : jsstring;
  sub_fileData : jsstring;
  sub_mimeType : jsstring;
  sub_status : submissionStatus;
  sub_evaluation : option value
}.

(** [!v] is false exactly when [truthy v]. *)
Definition truthy (v : value) : bool :=
  match v with
  | VNull => false
  | VBool b => b
  | VNumber x => negb (PrimFloat.eqb x 0 || PrimFloat.is_nan x)
  | VString [] => false
  | VString (_ :: _) => true
  | VArray _ | VObject _ => true
  end.

(** What an updater writes into the submission it is aimed at: its status,
    and its evaluation when the object literal names one. *)
Record update := {
  set_status : submissionStatus;
  set_evaluation : option value
}.

(** [prev => prev.map(s => s.id === target ? { ...s, ... } : s)] *)
Definition applyUpdate (target : jsstring) (u : update)
    (prev : list StudentSubmission) : list StudentSubmission :=
  map (fun sub =>
         if bool_decide (sub_id sub = target)
         then {| sub_id := sub_id sub;
                 sub_filename := sub_filename sub;
                 sub_fileData := sub_fileData sub;
                 sub_mimeType := sub_mimeType sub;
                 sub_status := set_status u;
                 sub_evaluation :=
                   match set_evaluation u with
                   | Some v => Some v
                   | None => sub_evaluation sub
                   end |}
         else sub) prev.

(** [a.includes(w)] on an array: some element is the string [w]. *)
Definition arrayIncludes (w : jsstring) (a : list value) : bool :=
  existsb (fun e => match e with
                    | VString s => bool_decide (s = w)
                    | _ => false
                    end) a.

Section App.
Variable syntaxErrorMessage : jsstring -> jsstring.
(** The message an engine gives the [TypeError] of a failing operation. *)
Variable typeErrorMessage : string -> jsstring.
(** What [fetch] answers for the address it is given. *)
Variable fetch : value -> fetched.

Definition typeError (operation : string) : thrown :=
  ErrorObject "TypeError" (typeErrorMessage operation).

(** The callback of line 131 on one element: strings and arrays have a
    method [includes]. *)
Definition isCodeLink (l : value) : outcome bool :=
  match l with
  | VString s =>
      Returned (includes (str "github.com") s
                || includes (str "gitlab.com") s
                || includes (str "colab.research.google.com") s)
  | VArray a =>
      Returned (arrayIncludes (str "github.com") a
                || arrayIncludes (str "gitlab.com") a
                || arrayIncludes (str "colab.research.google.com") a)
  | VNull => Threw (typeError "read includes of null")
  | _ => Threw (typeError "l.includes is not a function")
  end.

(** [links.filter(isCodeLink)] *)
Fixpoint filterLinks (links : list value) : outcome (list value) :=
  match links with
  | [] => Returned []
  | l :: rest =>
      match isCodeLink l with
      | Threw e => Threw e
      | Returned keep =>
          match filterLinks rest with
          | Threw e => Threw e
          | Returned kept => Returned (if keep then l :: kept else kept)
          end
      end
  end.

(** [fetchGithubContent] on the argument it is given: an array has
    [includes] but no [replace]. *)
Definition fetchGithubContentOf (url : value) : run jsstring :=
  let caught e :=
    ([ {| log_level := LogWarn;
          log_label := "Could not fetch raw GitHub content (CORS or Private):";
          log_arg := LoggedThrown e |} ],
     Returned []) in
  match url with
  | VString u => fetchGithubContent (fetch (VString (rawUrl u)))
  | VArray a =>
      let isGithub := arrayIncludes (str "github.com") a in
      if isGithub && arrayIncludes (str "/blob/") a
      then caught (typeError "url.replace is not a function")
      else if isGithub && negb (arrayIncludes (str "/blob/") a)
              && negb (arrayIncludes (str "/tree/") a)
      then caught (typeError "url.replace is not a function")
      else fetchGithubContent (fetch url)
  | VNull => caught (typeError "read includes of null")
  | _ => caught (typeError "url.includes is not a function")
  end.

(** The object literal of lines 498-506 for any [repoUrl]. *)
Definition failedAnalysisOf (repoUrl : value) (e : thrown) : value :=
  VObject
    [ (str "repo_url", repoUrl);
      (str "summary",
       VString (str "Failed to analyze repository due to access restrictions or model error."));
      (str "implementation_score", VNumber 0%float);
      (str "max_score", VNumber 10%float);
      (str "evidence", VArray []);
      (str "status", VString (str "failed"));
      (str "error_message", VString (errorMessageOf e)) ].

(** [analyzeCodeRepository] on the argument it is given. *)
Definition analyzeCodeRepositoryOf (repoUrl : value) (up : upstream) :
    run value :=
  let '(fetchLog, _) := fetchGithubContentOf repoUrl in
  match analyzeAttempt syntaxErrorMessage up with
  | Returned v => (fetchLog, Returned v)
  | Threw e =>
      (fetchLog ++
         [ {| log_level := LogError;
              log_label := "Code Analysis Failed";
              log_arg := LoggedThrown e |} ],
       Returned (failedAnalysisOf repoUrl e))
  end.

(** [runEvaluation]: the updates it hands to [setSubmissions], in their
    order, all aimed at the submission it was called with, and what it
    writes to the console. [rubric] is [assignment.structuredRubric],
    [evalUp] and [codeUp] are the answers of the service to the evaluation
    and to the code analysis. Only an object has the property
    [external_links]; [null] has no properties at all. Line 145 extends in
    place the object that the second update stored; each update is listed
    with the value the object has when the update is issued. *)
Definition runEvaluation (rubric : option value) (evalUp codeUp : upstream) :
    list update * list logEntry :=
  match rubric with
  | None => ([], [])
  | Some rb =>
      if negb (truthy rb) then ([], [])
      else
        let evaluating :=
          {| set_status := Evaluating; set_evaluation := None |} in
        let '(evalLog, evaluated) :=
          evaluateSubmission syntaxErrorMessage evalUp in
        let failed e :=
          ([ evaluating;
             {| set_status := Errored; set_evaluation := None |} ],
           evalLog ++ [ {| log_level := LogError;
                           log_label := EmptyString;
                           log_arg := LoggedThrown e |} ]) in
        match evaluated with
        | Threw e => failed e
        | Returned result =>
            let graded :=
              ([ evaluating;
                 {| set_status := Graded; set_evaluation := Some result |} ],
               evalLog) in
            match result with
            | VNull => failed (typeError "read external_links of null")
            | VObject props =>
                match getProp (str "external_links") props with
                | None | Some VNull => graded
                | Some (VArray links) =>
                    match filterLinks links with
                    | Threw e => failed e
                    | Returned [] => graded
                    | Returned (link :: _) =>
                        let analyzing :=
                          {| set_status := AnalyzingCode;
                             set_evaluation := Some result |} in
                        let '(codeLog, analyzed) :=
                          analyzeCodeRepositoryOf link codeUp in
                        match analyzed with
                        | Returned codeAnalysis =>
                            ([ evaluating; analyzing;
                               {| set_status := Graded;
                                  set_evaluation :=
                                    Some (VObject
                                            (setProp (str "code_analysis")
                                               codeAnalysis props)) |} ],
                             evalLog ++ codeLog)
                        | Threw e =>
                            ([ evaluating; analyzing;
                               {| set_status := Graded;
                                  set_evaluation := Some result |} ],
                             evalLog ++ codeLog
                             ++ [ {| log_level := LogError;
                                     log_label := "Code analysis failed but main grading succeeded";
                                     log_arg := LoggedThrown e |} ])
                        end
                    end
                | Some _ =>
                    failed (typeError "external_links.filter is not a function")
                end
            | _ => graded
            end
        end
  end.
End App.

(** The state after the updates of a run have been applied in their
    order. *)
Definition applyUpdates (target : jsstring) (us : list update)
    (prev : list StudentSubmission) : list StudentSubmission :=
  foldl (fun state u => applyUpdate target u state) prev us.

(** * Vocabulary of the properties *)

(** ** Runs, delimiters and literals *)

Definition allOf (p : char -> bool) (s : jsstring) : Prop :=
  Forall (fun c => p c = true) s.

(** Characters that can occur inside a match of either numeric pattern. *)
Definition isNumChar (c : char) : bool :=
  isDigit c || isDot c || isExpMark c || isSign c.

Definition optSign (sg : jsstring) : Prop :=
  sg = [] \/ exists c, sg = [c] /\ isSign c = true.

(** An exponent part: a marker, an optional sign, digits. *)
Definition isExponent (x : jsstring) : Prop :=
  exists e sg ds, x = e :: sg ++ ds /\ isExpMark e = true /\ optSign sg
    /\ allOf isDigit ds /\ ds <> [].

(** The text before a literal is empty, or ends in a character that no
    numeric pattern can contain, optionally followed by a minus sign. *)
Definition literalStart (pre : jsstring) : bool :=
  match rev pre with
  | [] => true
  | c :: r =>
      if c =? 45 then negb (startsWith isNumChar r) else negb (isNumChar c)
  end.

(** The text after a literal is empty or begins with a character that no
    numeric pattern can contain. *)
Definition literalEnd (post : jsstring) : bool :=
  negb (startsWith isNumChar post).

(** The shapes of a numeric literal: digits, an optional fraction, an
    optional exponent part. *)
Inductive numericLiteral : jsstring -> Prop :=
  | lit_integer int :
      allOf isDigit int -> int <> [] -> numericLiteral int
  | lit_decimal int frac :
      allOf isDigit int -> int <> [] -> allOf isDigit frac -> frac <> [] ->
      numericLiteral (int ++ 46 :: frac)
  | lit_exponent int x :
      allOf isDigit int -> int <> [] -> isExponent x ->
      numericLiteral (int ++ x)
  | lit_scientific int frac x :
      allOf isDigit int -> int <> [] -> allOf isDigit frac -> frac <> [] ->
      isExponent x -> numericLiteral (int ++ 46 :: frac ++ x).

(** A text in which every run of digits begins a numeric literal that ends
    where the text ends or before a character that no numeric pattern can
    contain. *)
Inductive literalsDelimited : jsstring -> Prop :=
  | delimited_nil : literalsDelimited []
  | delimited_char c s :
      isDigit c = false -> literalsDelimited s -> literalsDelimited (c :: s)
  | delimited_literal l post :
      numericLiteral l -> literalEnd post = true -> literalsDelimited post ->
      literalsDelimited (l ++ post).

(** The characters the numeric rewrites never delete. *)
Definition isKept (c : char) : bool :=
  negb (isDigit c || isExpMark c || isSign c).

(** [span] is the part of [s] from its first opening brace to its last
    closing brace, the closing one coming after the opening one. *)
Definition braceBounded (s span : jsstring) : Prop :=
  exists pre body post,
    s = pre ++ lbrace :: body ++ rbrace :: post
    /\ (lbrace ∉ pre) /\ (rbrace ∉ post)
    /\ span = lbrace :: body ++ [rbrace].

(** ** The numeric patterns, read deterministically *)

(** A maximal run of digits, a dot, and a maximal run of at least seven
    digits; the first six are kept. *)
Definition longDecimalAt : rule := fun s =>
  match takeWhile isDigit s, dropWhile isDigit s with
  | _ :: _, c :: r =>
      if isDot c && (7 <=? length (takeWhile isDigit r))%nat
      then Some (takeWhile isDigit s ++ c :: take 6 (takeWhile isDigit r),
                 dropWhile isDigit r)
      else None
  | _, _ => None
  end.

(** The exponent part that may follow a mantissa: a marker, an optional
    sign, and a maximal non-empty run of digits. Returns what is left. *)
Definition exponentAt (s : jsstring) : option jsstring :=
  match s with
  | e :: r =>
      if isExpMark e then
        let r' := match r with
                  | sg :: u => if isSign sg then u else r
                  | [] => r
                  end in
        match takeWhile isDigit r' with
        | _ :: _ => Some (dropWhile isDigit r')
        | [] => None
        end
      else None
  | [] => None
  end.

(** A maximal run of digits, a dot, a maximal non-empty run of digits and
    an exponent part; the integer part, the dot and two digits are kept. *)
Definition scientificAt : rule := fun s =>
  match takeWhile isDigit s, dropWhile isDigit s with
  | _ :: _, c :: r =>
      if isDot c then
        match takeWhile isDigit r, exponentAt (dropWhile isDigit r) with
        | _ :: _, Some rest =>
            Some (takeWhile isDigit s ++ c :: take 2 (takeWhile isDigit r),
                  rest)
        | _, _ => None
        end
      else None
  | _, _ => None
  end.

(** ** Values *)

(** [f] applied to every numeric leaf, everything else left as it is. *)
Fixpoint mapNumbers (f : number -> number) (v : value) : value :=
  match v with
  | VNumber x => VNumber (f x)
  | VArray elems => VArray (map (mapNumbers f) elems)
  | VObject props =>
      VObject (map (fun kv => (fst kv, mapNumbers f (snd kv))) props)
  | _ => v
  end.

(** What the reviver computes on a number. *)
Definition roundTwoPlaces (x : number) : number :=
  (Math_round (x * 100) / 100)%float.

(** Rounding to the nearest integer with ties away from zero, after the
    words of the specification; to be compared with [Math_round]. *)
Definition roundHalfAwayFromZero (x : number) : number :=
  match Prim2SF x with
  | S754_finite sign m e =>
      if (0 <=? e)%Z then x
      else
        (* floor (m * 2^e + 1/2), the magnitude rounded half up *)
        let n := ((2 * Z.pos m + 2 ^ (- e)) / 2 ^ (1 - e))%Z in
        if (n =? 0)%Z then (if sign then neg_zero else zero)
        else numberOfZ (if sign then - n else n)
  | _ => x
  end.

Definition roundTwoPlacesHalfAway (x : number) : number :=
  (roundHalfAwayFromZero (x * 100) / 100)%float.

(** The signed integer mantissa of a finite number. *)
Definition signedMantissa (sign : bool) (m : positive) : Z :=
  if sign then Z.neg m else Z.pos m.



(** ** Sample responses *)

(** The scenario texts of the specification. *)
Definition weightSample : jsstring :=
  str "{" ++ quoted "weight" ++ str ": 5.0000000000000018e+00}".

Definition scoreSample : jsstring :=
  str "Sure! ```json" ++ [10] ++ str "{" ++ quoted "final_score"
    ++ str ": 8.500000000000002, " ++ quoted "overall_feedback" ++ str ": "
    ++ quoted "Good" ++ str "}" ++ [10] ++ str "```".

Definition twoObjectsSample : jsstring :=
  str "note: {a:1} ignore ... {" ++ quoted "final_score" ++ str ":9}".

(** A response whose string value holds a long decimal. *)
Definition versionSample : jsstring :=
  str "{" ++ quoted "id" ++ str ":" ++ quoted "v1.23456789" ++ str "}".

(** A response whose string value holds a fence marker. *)
Definition fenceInStringSample : jsstring :=
  str "{" ++ quoted "code" ++ str ":" ++ quoted "```js" ++ str "}".

(** A response whose number, times 100, is a negative tie. *)
Definition negativeTieSample : jsstring :=
  str "{" ++ quoted "x" ++ str ": -0.125}".



(** ** Backticks *)

Definition backtick : char := 96.

(** The number of backticks a text begins with. *)
Definition ticks (s : jsstring) : nat := length (takeWhile (N.eqb backtick) s).

(** ** Short literals *)

(** A numeric literal that neither rewrite matches: digits, digits with a
    fraction of at most six digits, or digits with an exponent part and no
    fraction. *)
Inductive shortLiteral : jsstring -> Prop :=
  | short_integer int :
      allOf isDigit int -> int <> [] -> shortLiteral int
  | short_decimal int frac :
      allOf isDigit int -> int <> [] -> allOf isDigit frac ->
      (length frac <= 6)%nat -> shortLiteral (int ++ 46 :: frac)
  | short_exponent int x :
      allOf isDigit int -> int <> [] -> isExponent x ->
      shortLiteral (int ++ x).

(** A text in which every run of digits begins a short literal that ends
    where the text ends or before a character that no numeric pattern can
    contain. *)
Inductive literalsShort : jsstring -> Prop :=
  | literalsShort_nil : literalsShort []
  | literalsShort_char c s :
      isDigit c = false -> literalsShort s -> literalsShort (c :: s)
  | literalsShort_literal l post :
      shortLiteral l -> literalEnd post = true -> literalsShort post ->
      literalsShort (l ++ post).

(** ** Fenced text *)

(** A payload between an opening and a closing fence, with white space
    around it: the form in which a model wraps its answer. *)
Definition fenced (ws1 payload ws2 : jsstring) : jsstring :=
  fenceJson ++ ws1 ++ payload ++ ws2 ++ fence.

(** ** First occurrences *)

(** The occurrence of [w] that follows [pre] is the first one of the text
    [pre ++ w ++ ...]: no occurrence begins inside [pre]. *)
Definition firstAfter (w pre : jsstring) : Prop :=
  includes w (pre ++ removelast w) = false.

(** ** Outcomes *)

(** A response decodes to [v]: it has a text, and the sanitized text
    parses, with the reviver applied, to [v]. *)
Definition decodesTo (up : upstream) (v : value) : Prop :=
  exists r text,
    up = Responded r /\ response_text r = Some text /\ text <> []
    /\ JSON_parse (cleanJson text) jsonReviver = Some v.

(** [f] applied to the value a run returns. *)
Definition mapReturned {A B} (f : A -> B) (r : run A) : run B :=
  (fst r,
   match snd r with
   | Returned a => Returned (f a)
   | Threw e => Threw e
   end).

(** The text of a response when it has one. *)
Definition textOf (up : upstream) : option jsstring :=
  match up with
  | Responded r => if hasText (response_text r) then response_text r else None
  | Rejected _ => None
  end.

(** ** The grading loop *)

(** The statuses a run gives its submission, in their order. *)
Definition statusesOf (r : list update * list logEntry) :
    list submissionStatus :=
  map set_status (fst r).

(** The test of line 131 on an address. *)
Definition isCodeUrl (u : jsstring) : bool :=
  includes (str "github.com") u
  || includes (str "gitlab.com") u
  || includes (str "colab.research.google.com") u.

(** The values that have a method [includes]. *)
Definition hasIncludes (l : value) : bool :=
  match l with
  | VString _ | VArray _ => true
  | _ => false
  end.

(** What the inner [catch] of [runEvaluation] writes. *)
Definition analysisFailureLabel : string :=
  "Code analysis failed but main grading succeeded".

(** ** Scores with two decimals *)

(** [p] holds of the [count] integers from [m] on. *)
Fixpoint allFrom (count : nat) (m : Z) (p : Z -> bool) : bool :=
  match count with
  | O => true
  | S n => p m && allFrom n (m + 1)%Z p
  end.

(** The reviver returns the number read from the digits [m] with the
    exponent [e] as it is. *)
Definition unchangedByReviver (negative : bool) (e m : Z) : bool :=
  PrimFloat.Leibniz.eqb (roundTwoPlaces (numberOfDecimal negative m e))
    (numberOfDecimal negative m e).

(** The number a literal with at most two fraction digits and a magnitude
    of at most 100 is read as: the digits [m], the exponent [e]. *)
Definition twoDecimalScore (x : number) : Prop :=
  exists (negative : bool) (m e : Z),
    (-2 <= e <= 0)%Z /\ (0 <= m)%Z /\ (m * 10 ^ (e + 2) <= 10000)%Z
    /\ x = numberOfDecimal negative m e.

(** [P] holds of every numeric leaf. *)
Fixpoint everyNumber (P : number -> Prop) (v : value) : Prop :=
  match v with
  | VNumber x => P x
  | VArray elems =>
      (fix all (l : list value) : Prop :=
         match l with
         | [] => True
         | e :: l' => everyNumber P e /\ all l'
         end) elems
  | VObject props =>
      (fix all (l : list (jsstring * value)) : Prop :=
         match l with
         | [] => True
         | (_, e) :: l' => everyNumber P e /\ all l'
         end) props
  | _ => True
  end.

(** * Properties *)

(** ** Runs of a character class *)

Lemma takeWhile_dropWhile p s : takeWhile p s ++ dropWhile p s = s.
Proof.
  induction s as [|c t IH]; simpl; [done|].
  destruct (p c); simpl; [by rewrite IH | done].
Qed.

Lemma takeWhile_allOf p s : allOf p (takeWhile p s).
Proof.
  induction s as [|c t IH]; simpl; [constructor|].
  destruct (p c) eqn:E; [by constructor | constructor].
Qed.

Lemma dropWhile_startsWith p s : startsWith p (dropWhile p s) = false.
Proof.
  induction s as [|c t IH]; simpl; [done|].
  destruct (p c) eqn:E; simpl; [done | by rewrite E].
Qed.

Lemma takeWhile_app p ds r :
  allOf p ds -> startsWith p r = false -> takeWhile p (ds ++ r) = ds.
Proof.
  intros Hds Hr. induction Hds as [|c ds Hc _ IH]; simpl.
  - destruct r as [|x r]; simpl in *; [done | by rewrite Hr].
  - by rewrite Hc, IH.
Qed.

Lemma dropWhile_app p ds r :
  allOf p ds -> startsWith p r = false -> dropWhile p (ds ++ r) = r.
Proof.
  intros Hds Hr. induction Hds as [|c ds Hc _ IH]; simpl.
  - destruct r as [|x r]; simpl in *; [done | by rewrite Hr].
  - by rewrite Hc, IH.
Qed.

Lemma takeWhile_nil p s : startsWith p s = false -> takeWhile p s = [].
Proof. destruct s as [|c t]; simpl; [done|]. by intros ->. Qed.

Lemma dropWhile_id p s : startsWith p s = false -> dropWhile p s = s.
Proof. destruct s as [|c t]; simpl; [done|]. by intros ->. Qed.

(** ** Greedy matching is deterministic on these patterns *)

Section Greedy.
Context {R : Type}.
Implicit Types k : jsstring -> option R.

Lemma rclass_cons p c t k :
  rclass p (c :: t) k = if p c then k t else None.
Proof. done. Qed.

Lemma rplus_nomatch p s k : startsWith p s = false -> rplus p s k = None.
Proof. destruct s as [|c t]; simpl; [done|]. by intros ->. Qed.

(** When the continuation cannot start on a character of the class, the
    only split that can succeed is the longest one. *)
Lemma rplus_strict p s k :
  (forall t, startsWith p t = true -> k t = None) ->
  rplus p s k =
    match takeWhile p s with
    | [] => None
    | _ :: _ => k (dropWhile p s)
    end.
Proof.
  intros Hk. induction s as [|c t IH]; simpl; [done|].
  destruct (p c) eqn:Hc; [|done].
  rewrite IH. destruct t as [|d u]; simpl; [done|].
  destruct (p d) eqn:Hd; simpl; [|done].
  destruct (k (dropWhile p u)); [done|].
  apply Hk. simpl. done.
Qed.

(** When the continuation accepts whatever is left, the longest split is
    taken. *)
Lemma rplus_total p s (f : jsstring -> R) :
  rplus p s (fun r => Some (f r)) =
    match takeWhile p s with
    | [] => None
    | _ :: _ => Some (f (dropWhile p s))
    end.
Proof.
  induction s as [|c t IH]; simpl; [done|].
  destruct (p c) eqn:Hc; [|done].
  rewrite IH. destruct t as [|d u]; simpl; [done|].
  destruct (p d) eqn:Hd; simpl; done.
Qed.

Lemma rrepeat_class p n s k :
  rrepeat n (rclass p) s k =
    if (n <=? length (takeWhile p s))%nat then k (drop n s) else None.
Proof.
  revert s. induction n as [|n IH]; intros s.
  - simpl. by rewrite drop_0.
  - change (rrepeat (S n) (rclass p) s k)
      with (rclass p s (fun t => rrepeat n (rclass p) t k)).
    destruct s as [|c t]; [done|]. simpl.
    destruct (p c) eqn:Hc; [|done]. by rewrite IH.
Qed.
End Greedy.

(** ** Character classes *)

Ltac char_facts :=
  unfold isDigit, isDot, isExpMark, isSign in *;
  repeat match goal with
    | H : context [N.eqb ?a ?b] |- _ => destruct (N.eqb_spec a b)
    | H : context [N.leb ?a ?b] |- _ => destruct (N.leb_spec a b)
    | |- context [N.eqb ?a ?b] => destruct (N.eqb_spec a b)
    | |- context [N.leb ?a ?b] => destruct (N.leb_spec a b)
    end;
  simpl in *; try congruence; try lia.

Lemma digit_not_dot c : isDigit c = true -> isDot c = false.
Proof. intros H. char_facts. Qed.

Lemma digit_not_expMark c : isDigit c = true -> isExpMark c = false.
Proof. intros H. char_facts. Qed.

Lemma sign_not_digit c : isSign c = true -> isDigit c = false.
Proof. intros H. char_facts. Qed.

Lemma isDot_eq c : isDot c = true -> c = 46.
Proof. intros H. char_facts. Qed.

(** ** Runs and [drop] *)

Lemma takeWhile_drop p n s :
  (n <= length (takeWhile p s))%nat ->
  takeWhile p (drop n s) = drop n (takeWhile p s).
Proof.
  intros Hn. rewrite <- (takeWhile_dropWhile p s) at 1.
  rewrite drop_app_le by done.
  apply takeWhile_app; [|apply dropWhile_startsWith].
  apply Forall_drop, takeWhile_allOf.
Qed.

Lemma dropWhile_drop p n s :
  (n <= length (takeWhile p s))%nat ->
  dropWhile p (drop n s) = dropWhile p s.
Proof.
  intros Hn. rewrite <- (takeWhile_dropWhile p s) at 1.
  rewrite drop_app_le by done.
  apply dropWhile_app; [|apply dropWhile_startsWith].
  apply Forall_drop, takeWhile_allOf.
Qed.

Lemma matched_app m rest : matched (m ++ rest) rest = m.
Proof.
  unfold matched. rewrite length_app.
  replace (length m + length rest - length rest)%nat with (length m) by lia.
  by rewrite take_app_length.
Qed.

Lemma matched_group (a f w : jsstring) c0 n :
  (n <= length f)%nat ->
  matched (a ++ c0 :: f ++ w) (drop n (f ++ w)) = a ++ c0 :: take n f.
Proof.
  intros Hn. rewrite drop_app_le by done.
  rewrite <- (take_drop n f) at 1.
  replace (a ++ c0 :: (take n f ++ drop n f) ++ w)
    with ((a ++ c0 :: take n f) ++ drop n f ++ w).
  - apply matched_app.
  - rewrite <- !app_assoc. simpl. by rewrite <- ?app_assoc.
Qed.

(** ** [indexOf] and [lastIndexOf] *)

Implicit Types (c : char) (s t pre post rest : jsstring).

Lemma indexOf_range c s : (-1 <= indexOf c s < Z.of_nat (length s))%Z.
Proof.
  induction s as [|x t IH]; simpl; [lia|].
  destruct (x =? c); [lia|]. destruct (indexOf c t); lia.
Qed.

Lemma indexOf_app c pre post :
  c ∉ pre -> indexOf c (pre ++ c :: post) = Z.of_nat (length pre).
Proof.
  induction pre as [|x pre IH]; intros Hnot; simpl.
  - by rewrite N.eqb_refl.
  - apply not_elem_of_cons in Hnot as [Hx Hpre].
    destruct (N.eqb_spec x c); [done|].
    rewrite (IH Hpre). destruct (length pre); simpl; lia.
Qed.

Lemma indexOf_none c s : c ∉ s -> indexOf c s = (-1)%Z.
Proof.
  induction s as [|x t IH]; intros Hnot; simpl; [done|].
  apply not_elem_of_cons in Hnot as [Hx Ht].
  destruct (N.eqb_spec x c); [done|]. by rewrite (IH Ht).
Qed.

Lemma indexOf_split c s :
  c ∈ s -> exists pre post, s = pre ++ c :: post /\ c ∉ pre.
Proof.
  induction s as [|x t IH]; intros Hin; [by apply elem_of_nil in Hin|].
  destruct (decide (x = c)) as [->|Hx].
  - exists [], t. split; [done | apply not_elem_of_nil].
  - apply elem_of_cons in Hin as [->|Hin]; [done|].
    destruct (IH Hin) as (pre & post & -> & Hpre).
    exists (x :: pre), post. split; [done|].
    apply not_elem_of_cons. split; [congruence | done].
Qed.

Lemma lastIndexOf_range c s :
  (-1 <= lastIndexOf c s < Z.of_nat (length s))%Z.
Proof.
  induction s as [|x t IH]; simpl; [lia|].
  destruct (lastIndexOf c t); [lia | lia |]. destruct (x =? c); lia.
Qed.

Lemma lastIndexOf_none c s : c ∉ s -> lastIndexOf c s = (-1)%Z.
Proof.
  induction s as [|x t IH]; intros Hnot; simpl; [done|].
  apply not_elem_of_cons in Hnot as [Hx Ht].
  rewrite (IH Ht). by destruct (N.eqb_spec x c).
Qed.

Lemma lastIndexOf_app c pre post :
  c ∉ post -> lastIndexOf c (pre ++ c :: post) = Z.of_nat (length pre).
Proof.
  intros Hpost. induction pre as [|x pre IH]; simpl.
  - rewrite (lastIndexOf_none _ _ Hpost). by rewrite N.eqb_refl.
  - rewrite IH. destruct (length pre); simpl; lia.
Qed.

Lemma lastIndexOf_split c s :
  c ∈ s -> exists pre post, s = pre ++ c :: post /\ c ∉ post.
Proof.
  induction s as [|x t IH]; intros Hin; [by apply elem_of_nil in Hin|].
  destruct (decide (c ∈ t)) as [Ht|Ht].
  - destruct (IH Ht) as (pre & post & -> & Hpost).
    by exists (x :: pre), post.
  - apply elem_of_cons in Hin as [->|Hin]; [|done].
    by exists [], t.
Qed.

(** ** What the two numeric patterns match

    Each pattern is a sequence of character runs, and no run can give a
    character back to what follows it, so backtracking never finds a second
    way to match: the outcome is a function of the maximal runs. *)

Lemma reLongDecimal_spec s : reLongDecimal s = longDecimalAt s.
Proof.
  unfold reLongDecimal, longDecimalAt, rseq.
  rewrite rplus_strict; last first.
  { intros [|c t]; simpl; [done|]. intros Hc.
    by rewrite (digit_not_dot _ Hc). }
  pose proof (takeWhile_dropWhile isDigit s) as Hs.
  destruct (takeWhile isDigit s) as [|d int] eqn:Hint; [done|].
  destruct (dropWhile isDigit s) as [|c r] eqn:Hr; [done|].
  rewrite rclass_cons. destruct (isDot c) eqn:Hc; [|done]. rewrite andb_true_l.
  rewrite rrepeat_class, rplus_total.
  pose proof (takeWhile_dropWhile isDigit r) as Hfrac.
  destruct (Nat.leb_spec 6 (length (takeWhile isDigit r))) as [H6|H6].
  - rewrite takeWhile_drop, dropWhile_drop by done.
    destruct (Nat.leb_spec 7 (length (takeWhile isDigit r))) as [H7|H7].
    + destruct (drop 6 (takeWhile isDigit r)) as [|y ys] eqn:Hd.
      { apply (f_equal length) in Hd. rewrite length_drop in Hd.
        simpl in Hd. lia. }
      do 2 f_equal.
      rewrite <- Hs at 1. rewrite <- Hfrac at 1 2.
      by apply matched_group.
    + destruct (drop 6 (takeWhile isDigit r)) as [|y ys] eqn:Hd; [done|].
      apply (f_equal length) in Hd. rewrite length_drop in Hd.
      simpl in Hd. lia.
  - destruct (Nat.leb_spec 7 (length (takeWhile isDigit r))); [lia | done].
Qed.

Lemma substring_prefix (n : Z) (s : list N) :
  (0 <= n)%Z -> substring 0 n s = take (Z.to_nat n) s.
Proof.
  intros Hn. unfold substring, clampIndex. simpl Z.to_nat.
  rewrite Nat.min_0_l, Nat.max_0_l, Nat.min_0_l, Nat.sub_0_r, drop_0.
  destruct (Nat.min_spec (Z.to_nat n) (length s)) as [[_ ->]|[Hle ->]]; [done|].
  by rewrite !take_ge by lia.
Qed.

Lemma digits_no_dot (ds : list N) : allOf isDigit ds -> 46 ∉ ds.
Proof.
  intros Hds Hin. unfold allOf in Hds. rewrite Forall_forall in Hds.
  by specialize (Hds _ Hin).
Qed.

Lemma keepTwoDecimals_literal (int frac : list N) c :
  allOf isDigit int -> isDot c = true ->
  keepTwoDecimals (int ++ c :: frac) = int ++ c :: take 2 frac.
Proof.
  intros Hint Hc. apply isDot_eq in Hc as ->.
  unfold keepTwoDecimals.
  rewrite (indexOf_app _ _ _ (digits_no_dot _ Hint)).
  destruct (Z.eqb_spec (Z.of_nat (length int)) (-1)) as [?|_]; [lia|].
  simpl negb. cbv iota. rewrite substring_prefix by lia.
  replace (Z.to_nat (Z.of_nat (length int) + 3)) with (length int + 3)%nat by lia.
  by rewrite take_app_add.
Qed.

Lemma exponent_spec {R} (f : list N -> R) (g : list N) :
  rclass isExpMark g
    (fun t => ropt (rclass isSign) t
       (fun u => rplus isDigit u (fun rest => Some (f rest))))
  = f <$> exponentAt g.
Proof.
  unfold exponentAt. destruct g as [|e r]; [done|].
  rewrite rclass_cons. destruct (isExpMark e); [|done].
  unfold ropt. destruct r as [|sg u].
  - done.
  - rewrite rclass_cons. destruct (isSign sg) eqn:Hsg.
    + rewrite rplus_total.
      destruct (takeWhile isDigit u) as [|y ys] eqn:Hu; [|done].
      rewrite rplus_nomatch; [done|]. simpl. by apply sign_not_digit.
    + by rewrite rplus_total; destruct (takeWhile isDigit (sg :: u)).
Qed.

Lemma reScientific_spec s : reScientific s = scientificAt s.
Proof.
  unfold reScientific, scientificAt, rseq.
  rewrite rplus_strict; last first.
  { intros [|c t]; simpl; [done|]. intros Hc.
    by rewrite (digit_not_dot _ Hc). }
  pose proof (takeWhile_dropWhile isDigit s) as Hs.
  pose proof (takeWhile_allOf isDigit s) as Hall.
  destruct (takeWhile isDigit s) as [|d int] eqn:Hint; [done|].
  destruct (dropWhile isDigit s) as [|c r] eqn:Hr; [done|].
  rewrite rclass_cons. destruct (isDot c) eqn:Hc; [|done].
  rewrite rplus_strict; last first.
  { intros [|x t]; simpl; [done|]. intros Hx.
    by rewrite (digit_not_expMark _ Hx). }
  pose proof (takeWhile_dropWhile isDigit r) as Hfrac.
  destruct (takeWhile isDigit r) as [|y frac] eqn:Hf; [done|].
  rewrite exponent_spec.
  destruct (exponentAt (dropWhile isDigit r)) as [rest|]; [|done].
  cbv [fmap option_fmap option_map]. do 2 f_equal.
  remember (dropWhile isDigit r) as w eqn:Hw.
  rewrite <- Hs, <- Hfrac.
  replace ((d :: int) ++ c :: (y :: frac) ++ w)
    with (((d :: int) ++ c :: y :: frac) ++ w)
    by (by rewrite <- app_assoc).
  rewrite matched_app. by apply keepTwoDecimals_literal.
Qed.

(** ** Global replacement *)

Section Scan.
Variable re : rule.

(** Every match consumes at least one character of the input. *)
Hypothesis re_consumes : forall s repl rest,
  re s = Some (repl, rest) -> exists m, s = m ++ rest /\ m <> [].

Lemma re_nil : re [] = None.
Proof.
  destruct (re []) as [[repl rest]|] eqn:E; [|done].
  destruct (re_consumes _ _ _ E) as (m & Hm & Hne).
  symmetry in Hm. apply app_eq_nil in Hm as [-> _]. done.
Qed.

Lemma replaceFrom_skip m rest :
  replaceFrom re (length m) (m ++ rest) = replaceFrom re 0 rest.
Proof. induction m as [|a m IH]; [done | exact IH]. Qed.

Lemma replaceAll_nil : replaceAll re [] = [].
Proof. unfold replaceAll. simpl. by rewrite re_nil. Qed.

Lemma replaceAll_copy c t :
  re (c :: t) = None -> replaceAll re (c :: t) = c :: replaceAll re t.
Proof. unfold replaceAll. simpl. by intros ->. Qed.

Lemma replaceAll_match s repl rest :
  re s = Some (repl, rest) -> replaceAll re s = repl ++ replaceAll re rest.
Proof.
  intros E. destruct (re_consumes _ _ _ E) as (m & -> & Hne).
  destruct m as [|a m]; [done|].
  unfold replaceAll. simpl. simpl in E. rewrite E. f_equal.
  rewrite length_app.
  replace (S (length m + length rest) - length rest)%nat
    with (S (length m)) by lia.
  apply replaceFrom_skip.
Qed.

(** Induction along the scan. *)
Lemma replaceAll_ind (P : jsstring -> jsstring -> Prop) :
  P [] [] ->
  (forall c t, re (c :: t) = None ->
     P t (replaceAll re t) -> P (c :: t) (c :: replaceAll re t)) ->
  (forall m repl rest, re (m ++ rest) = Some (repl, rest) -> m <> [] ->
     P rest (replaceAll re rest) ->
     P (m ++ rest) (repl ++ replaceAll re rest)) ->
  forall s, P s (replaceAll re s).
Proof.
  intros Hnil Hcopy Hmatch s.
  remember (length s) as n eqn:Hn. revert s Hn.
  induction n as [n IH] using lt_wf_ind. intros s ->.
  destruct s as [|c t]; [by rewrite replaceAll_nil|].
  destruct (re (c :: t)) as [[repl rest]|] eqn:E.
  - rewrite (replaceAll_match _ _ _ E).
    destruct (re_consumes _ _ _ E) as (m & Hs & Hne). rewrite Hs.
    apply Hmatch; [by rewrite <- Hs | done |].
    apply (IH (length rest)); [|done].
    rewrite Hs, length_app. destruct m; [done | simpl; lia].
  - rewrite replaceAll_copy by done. apply Hcopy; [done|].
    apply (IH (length t)); simpl; [lia | done].
Qed.

(** A replacement that only drops characters of the match yields a
    subsequence of the input. *)
Lemma replaceAll_sublist :
  (forall m repl rest, re (m ++ rest) = Some (repl, rest) ->
     repl `sublist_of` m) ->
  forall s, replaceAll re s `sublist_of` s.
Proof.
  intros Hsub s. apply (replaceAll_ind (fun s out => out `sublist_of` s)).
  - done.
  - intros c t _ IH. by apply sublist_skip.
  - intros m repl rest E _ IH. apply sublist_app; [by eapply Hsub | done].
Qed.

(** Characters outside the class [del] survive, in their order, when
    every replacement keeps them. *)
Lemma replaceAll_filter (keep : char -> bool) :
  (forall m repl rest, re (m ++ rest) = Some (repl, rest) ->
     filter (fun c => keep c = true) repl
     = filter (fun c => keep c = true) m) ->
  forall s, filter (fun c => keep c = true) (replaceAll re s)
            = filter (fun c => keep c = true) s.
Proof.
  intros Hkeep s.
  apply (replaceAll_ind (fun s out =>
    filter (fun c => keep c = true) out = filter (fun c => keep c = true) s)).
  - done.
  - intros c t _ IH. rewrite !filter_cons. by rewrite IH.
  - intros m repl rest E _ IH. rewrite !filter_app, IH. f_equal.
    by eapply Hkeep.
Qed.

(** A character [c] that no match can contain separates the scan: what
    precedes it is rewritten without regard to what follows. *)
Variable sep : char -> bool.
Hypothesis re_sep : forall u c s, sep c = true ->
  re (u ++ c :: s) = (fun '(repl, rest) => (repl, rest ++ c :: s)) <$> re u.

Lemma replaceAll_sep u c s :
  sep c = true ->
  replaceAll re (u ++ c :: s) = replaceAll re u ++ c :: replaceAll re s.
Proof.
  intros Hc. revert u.
  apply (replaceAll_ind (fun u out =>
    replaceAll re (u ++ c :: s) = out ++ c :: replaceAll re s)).
  - simpl. apply replaceAll_copy.
    pose proof (re_sep [] c s Hc) as H. by rewrite re_nil in H.
  - intros a t E IH.
    pose proof (re_sep (a :: t) c s Hc) as H. rewrite E in H.
    simpl in *. by rewrite (replaceAll_copy _ _ H), IH.
  - intros m repl rest E _ IH.
    rewrite (replaceAll_match ((m ++ rest) ++ c :: s) repl (rest ++ c :: s)).
    + by rewrite IH, app_assoc.
    + rewrite (re_sep (m ++ rest) c s Hc). by rewrite E.
Qed.
End Scan.

(** ** The shape of a match *)

Lemma takeWhile_sep p u c s :
  p c = false -> takeWhile p (u ++ c :: s) = takeWhile p u.
Proof.
  intros Hc. induction u as [|a u IH]; simpl; [by rewrite Hc|].
  destruct (p a); [by rewrite IH | done].
Qed.

Lemma dropWhile_sep p u c s :
  p c = false -> dropWhile p (u ++ c :: s) = dropWhile p u ++ c :: s.
Proof.
  intros Hc. induction u as [|a u IH]; simpl; [by rewrite Hc|].
  destruct (p a); [by rewrite IH | done].
Qed.

Lemma longDecimalAt_inv s repl rest :
  longDecimalAt s = Some (repl, rest) ->
  exists int frac,
    s = int ++ 46 :: frac ++ rest /\ allOf isDigit int /\ int <> []
    /\ allOf isDigit frac /\ (7 <= length frac)%nat
    /\ startsWith isDigit rest = false /\ repl = int ++ 46 :: take 6 frac.
Proof.
  unfold longDecimalAt. intros H.
  pose proof (takeWhile_dropWhile isDigit s) as Hs.
  pose proof (takeWhile_allOf isDigit s) as Hint.
  destruct (takeWhile isDigit s) as [|d int]; [done|].
  destruct (dropWhile isDigit s) as [|c r]; [done|].
  destruct (isDot c) eqn:Hc; [|done]. apply isDot_eq in Hc as ->.
  destruct (Nat.leb_spec 7 (length (takeWhile isDigit r))) as [H7|]; [|done].
  simpl in H. injection H as <- <-.
  exists (d :: int), (takeWhile isDigit r).
  rewrite takeWhile_dropWhile. split_and!; try done.
  - apply takeWhile_allOf.
  - apply dropWhile_startsWith.
Qed.

Lemma longDecimalAt_literal (int frac rest : jsstring) :
  allOf isDigit int -> int <> [] -> allOf isDigit frac ->
  startsWith isDigit rest = false ->
  longDecimalAt (int ++ 46 :: frac ++ rest) =
    if (7 <=? length frac)%nat then Some (int ++ 46 :: take 6 frac, rest)
    else None.
Proof.
  intros Hint Hne Hfrac Hrest. unfold longDecimalAt.
  rewrite takeWhile_app, dropWhile_app by done.
  destruct int as [|d int]; [done|].
  change (isDot 46) with true. rewrite andb_true_l.
  by rewrite takeWhile_app, dropWhile_app.
Qed.

Lemma longDecimalAt_sep u c s :
  isDigit c || isDot c = false ->
  longDecimalAt (u ++ c :: s)
  = (fun '(repl, rest) => (repl, rest ++ c :: s)) <$> longDecimalAt u.
Proof.
  intros Hc. apply orb_false_iff in Hc as [Hdig Hdot].
  unfold longDecimalAt.
  rewrite takeWhile_sep, dropWhile_sep by done.
  destruct (takeWhile isDigit u) as [|d int]; [done|].
  destruct (dropWhile isDigit u) as [|x r]; simpl.
  - by rewrite Hdot.
  - rewrite takeWhile_sep, dropWhile_sep by done.
    by destruct (isDot x && _).
Qed.

Lemma exponentAt_inv g rest :
  exponentAt g = Some rest ->
  exists x, g = x ++ rest /\ isExponent x /\ startsWith isDigit rest = false.
Proof.
  unfold exponentAt. destruct g as [|e r]; [done|].
  destruct (isExpMark e) eqn:He; [|done].
  remember (match r with
            | sg :: u => if isSign sg then u else r
            | [] => r
            end) as r' eqn:Er.
  assert (exists sg, r = sg ++ r' /\ optSign sg) as (sg & Hr & Hsg).
  { subst r'. destruct r as [|sg u]; [exists []; split; [done | by left]|].
    destruct (isSign sg) eqn:Hs.
    - exists [sg]. split; [done|]. right. by exists sg.
    - exists []. split; [done | by left]. }
  pose proof (takeWhile_dropWhile isDigit r') as Hr'.
  pose proof (takeWhile_allOf isDigit r') as Hds.
  destruct (takeWhile isDigit r') as [|d ds] eqn:Htw; [done|].
  intros [= <-].
  exists (e :: sg ++ d :: ds). split_and!.
  - simpl. f_equal. rewrite <- app_assoc.
    rewrite Hr at 1. f_equal. symmetry. exact Hr'.
  - by exists e, sg, (d :: ds).
  - apply dropWhile_startsWith.
Qed.

Lemma exponentAt_literal x rest :
  isExponent x -> startsWith isDigit rest = false ->
  exponentAt (x ++ rest) = Some rest.
Proof.
  intros (e & sg & ds & -> & He & Hsg & Hds & Hne) Hrest.
  unfold exponentAt. simpl. rewrite He.
  destruct ds as [|d ds]; [done|].
  apply Forall_cons in Hds as Hd. destruct Hd as [Hd Hds'].
  assert (isSign d = false) as Hsd.
  { destruct (isSign d) eqn:E; [|done]. apply sign_not_digit in E. congruence. }
  destruct Hsg as [->|(c & -> & Hc)]; simpl.
  - rewrite Hsd.
    change (d :: ds ++ rest) with ((d :: ds) ++ rest).
    by rewrite takeWhile_app, dropWhile_app.
  - rewrite Hc.
    change (d :: ds ++ rest) with ((d :: ds) ++ rest).
    by rewrite takeWhile_app, dropWhile_app.
Qed.

Lemma exponentAt_sep g c s :
  isNumChar c = false ->
  exponentAt (g ++ c :: s) = (fun rest => rest ++ c :: s) <$> exponentAt g.
Proof.
  unfold isNumChar. intros Hc.
  apply orb_false_iff in Hc as [Hc Hsg].
  apply orb_false_iff in Hc as [Hc Hexp].
  apply orb_false_iff in Hc as [Hdig Hdot].
  unfold exponentAt. destruct g as [|e r]; simpl; [by rewrite Hexp|].
  destruct (isExpMark e); [|done].
  destruct r as [|sg u]; simpl.
  - rewrite Hsg. simpl. by rewrite Hdig.
  - destruct (isSign sg).
    + rewrite takeWhile_sep, dropWhile_sep by done.
      by destruct (takeWhile isDigit u).
    + change (sg :: u ++ c :: s) with ((sg :: u) ++ c :: s).
      rewrite takeWhile_sep, dropWhile_sep by done.
      by destruct (takeWhile isDigit (sg :: u)).
Qed.

Lemma scientificAt_inv s repl rest :
  scientificAt s = Some (repl, rest) ->
  exists int frac x,
    s = int ++ 46 :: frac ++ x ++ rest /\ allOf isDigit int /\ int <> []
    /\ allOf isDigit frac /\ frac <> [] /\ isExponent x
    /\ startsWith isDigit rest = false /\ repl = int ++ 46 :: take 2 frac.
Proof.
  unfold scientificAt. intros H.
  pose proof (takeWhile_dropWhile isDigit s) as Hs.
  pose proof (takeWhile_allOf isDigit s) as Hint.
  destruct (takeWhile isDigit s) as [|d int]; [done|].
  destruct (dropWhile isDigit s) as [|c r]; [done|].
  destruct (isDot c) eqn:Hc; [|done]. apply isDot_eq in Hc as ->.
  pose proof (takeWhile_dropWhile isDigit r) as Hr.
  pose proof (takeWhile_allOf isDigit r) as Hfrac.
  destruct (takeWhile isDigit r) as [|y frac]; [done|].
  destruct (exponentAt (dropWhile isDigit r)) as [rest'|] eqn:Hx; [|done].
  injection H as <- <-.
  destruct (exponentAt_inv _ _ Hx) as (x & Hg & Hexp & Hrest).
  exists (d :: int), (y :: frac), x. split_and!; try done.
  by rewrite <- Hs, <- Hr, Hg.
Qed.

Lemma scientificAt_literal (int frac x rest : jsstring) :
  allOf isDigit int -> int <> [] -> allOf isDigit frac -> frac <> [] ->
  isExponent x -> startsWith isDigit rest = false ->
  scientificAt (int ++ 46 :: frac ++ x ++ rest)
  = Some (int ++ 46 :: take 2 frac, rest).
Proof.
  intros Hint Hne Hfrac Hnf Hx Hrest. unfold scientificAt.
  assert (startsWith isDigit (x ++ rest) = false) as Hxs.
  { destruct Hx as (e & sg & ds & -> & He & _). simpl.
    destruct (isDigit e) eqn:E; [|done].
    apply digit_not_expMark in E. congruence. }
  rewrite takeWhile_app, dropWhile_app by done.
  destruct int as [|d int]; [done|].
  change (isDot 46) with true. cbv iota.
  rewrite takeWhile_app, dropWhile_app by done.
  destruct frac as [|y frac]; [done|].
  by rewrite exponentAt_literal.
Qed.

Lemma scientificAt_sep u c s :
  isNumChar c = false ->
  scientificAt (u ++ c :: s)
  = (fun '(repl, rest) => (repl, rest ++ c :: s)) <$> scientificAt u.
Proof.
  intros Hc. pose proof Hc as Hc'. unfold isNumChar in Hc'.
  apply orb_false_iff in Hc' as [Hc' _].
  apply orb_false_iff in Hc' as [Hc' _].
  apply orb_false_iff in Hc' as [Hdig Hdot].
  unfold scientificAt.
  rewrite takeWhile_sep, dropWhile_sep by done.
  destruct (takeWhile isDigit u) as [|d int]; [done|].
  destruct (dropWhile isDigit u) as [|x r]; simpl.
  - by rewrite Hdot.
  - destruct (isDot x); [|done].
    rewrite takeWhile_sep, dropWhile_sep by done.
    destruct (takeWhile isDigit r); [done|].
    rewrite exponentAt_sep by done.
    by destruct (exponentAt (dropWhile isDigit r)).
Qed.

Lemma replaceAll_copy_prefix (re : rule) (m r : jsstring) :
  (forall u v, m = u ++ v -> v <> [] -> re (v ++ r) = None) ->
  replaceAll re (m ++ r) = m ++ replaceAll re r.
Proof.
  induction m as [|a m IH]; intros H; [done|].
  simpl. rewrite replaceAll_copy.
  - f_equal. apply IH. intros u v -> Hv. by apply (H (a :: u) v).
  - by apply (H [] (a :: m)).
Qed.

(** ** The four rewrites consume what they match *)

Lemma rlit_inv {R} (w s : jsstring) (k : jsstring -> option R) x :
  rlit w s k = Some x -> exists rest, s = w ++ rest /\ k rest = Some x.
Proof.
  revert s. induction w as [|c w IH]; intros s H; simpl in H.
  - by exists s.
  - unfold rseq in H. destruct s as [|a s]; [done|].
    rewrite rclass_cons in H. destruct (N.eqb_spec c a) as [->|]; [|done].
    destruct (IH _ H) as (rest & -> & Hk). by exists rest.
Qed.

Lemma reFenceJson_inv s repl rest :
  reFenceJson s = Some (repl, rest) -> repl = [] /\ s = fenceJson ++ rest.
Proof.
  intros H. apply rlit_inv in H as (r & -> & [= <- <-]). done.
Qed.

Lemma reFence_inv s repl rest :
  reFence s = Some (repl, rest) -> repl = [] /\ s = fence ++ rest.
Proof.
  intros H. apply rlit_inv in H as (r & -> & [= <- <-]). done.
Qed.

Lemma reFenceJson_consumes s repl rest :
  reFenceJson s = Some (repl, rest) -> exists m, s = m ++ rest /\ m <> [].
Proof. intros H. apply reFenceJson_inv in H as [_ ->]. by eexists. Qed.

Lemma reFence_consumes s repl rest :
  reFence s = Some (repl, rest) -> exists m, s = m ++ rest /\ m <> [].
Proof. intros H. apply reFence_inv in H as [_ ->]. by eexists. Qed.

Lemma reLongDecimal_consumes s repl rest :
  reLongDecimal s = Some (repl, rest) -> exists m, s = m ++ rest /\ m <> [].
Proof.
  rewrite reLongDecimal_spec. intros H.
  apply longDecimalAt_inv in H as (int & frac & -> & _ & Hne & _).
  exists (int ++ 46 :: frac). split; [by rewrite <- app_assoc|].
  by destruct int.
Qed.

Lemma reScientific_consumes s repl rest :
  reScientific s = Some (repl, rest) -> exists m, s = m ++ rest /\ m <> [].
Proof.
  rewrite reScientific_spec. intros H.
  apply scientificAt_inv in H as (int & frac & x & -> & _ & Hne & _).
  exists (int ++ 46 :: frac ++ x). split.
  - rewrite <- !app_assoc. simpl. by rewrite <- !app_assoc.
  - by destruct int.
Qed.

(** ** Decimal-tail truncation, position by position *)

Lemma truncDecimals_nil : truncDecimals [] = [].
Proof. apply replaceAll_nil, reLongDecimal_consumes. Qed.

Lemma truncDecimals_nondigit c s :
  isDigit c = false -> truncDecimals (c :: s) = c :: truncDecimals s.
Proof.
  intros Hc. apply replaceAll_copy. rewrite reLongDecimal_spec.
  unfold longDecimalAt. simpl. by rewrite Hc.
Qed.

Lemma truncDecimals_sep u c s :
  isDigit c || isDot c = false ->
  truncDecimals (u ++ c :: s) = truncDecimals u ++ c :: truncDecimals s.
Proof.
  intros Hc.
  apply (replaceAll_sep reLongDecimal reLongDecimal_consumes
           (fun c => negb (isDigit c || isDot c))).
  - intros u' c' s' Hc'. apply negb_true_iff in Hc'.
    rewrite !reLongDecimal_spec. by apply longDecimalAt_sep.
  - by rewrite Hc.
Qed.

Lemma longDecimalAt_digits (ds r : jsstring) :
  allOf isDigit ds -> startsWith isDigit r = false ->
  startsWith isDot r = false -> longDecimalAt (ds ++ r) = None.
Proof.
  intros Hds Hr Hdot. unfold longDecimalAt.
  rewrite takeWhile_app, dropWhile_app by done.
  destruct ds; [done|]. destruct r as [|c r]; [done|].
  simpl in Hdot. by rewrite Hdot.
Qed.

(** A run of digits that no dot follows is copied. *)
Lemma truncDecimals_digits (ds r : jsstring) :
  allOf isDigit ds -> startsWith isDigit r = false ->
  startsWith isDot r = false ->
  truncDecimals (ds ++ r) = ds ++ truncDecimals r.
Proof.
  intros Hds Hr Hdot. apply replaceAll_copy_prefix.
  intros u v -> Hv. rewrite reLongDecimal_spec.
  apply longDecimalAt_digits; [|done..].
  by apply Forall_app in Hds as [_ ?].
Qed.

(** A literal at the head of the text: its fraction is cut to six digits,
    which leaves a fraction of at most six digits as it is. *)
Lemma truncDecimals_head (int frac post : jsstring) :
  allOf isDigit int -> int <> [] -> allOf isDigit frac ->
  startsWith isDigit post = false ->
  ((length frac <= 6)%nat -> startsWith isDot post = false) ->
  truncDecimals (int ++ 46 :: frac ++ post)
  = int ++ 46 :: take 6 frac ++ truncDecimals post.
Proof.
  intros Hint Hne Hfrac Hpost Hdot.
  destruct (Nat.leb_spec 7 (length frac)) as [H7|H7].
  - unfold truncDecimals.
    rewrite (replaceAll_match _ reLongDecimal_consumes _
               (int ++ 46 :: take 6 frac) post).
    + rewrite <- app_assoc. done.
    + rewrite reLongDecimal_spec, longDecimalAt_literal by done.
      by destruct (Nat.leb_spec 7 (length frac)); [|lia].
  - rewrite (take_ge frac) by lia.
    unfold truncDecimals. rewrite replaceAll_copy_prefix.
    + f_equal. fold (truncDecimals (46 :: frac ++ post)).
      rewrite truncDecimals_nondigit by done. f_equal.
      apply truncDecimals_digits; [done..|]. apply Hdot. lia.
    + intros u v -> Hv. apply Forall_app in Hint as [_ Hv'].
      rewrite reLongDecimal_spec, longDecimalAt_literal by done.
      by destruct (Nat.leb_spec 7 (length frac)); [lia|].
Qed.

Lemma truncDecimals_startsWith p post :
  startsWith isDigit post = false ->
  startsWith p (truncDecimals post) = startsWith p post.
Proof.
  destruct post as [|c s]; intros H.
  - by rewrite truncDecimals_nil.
  - by rewrite truncDecimals_nondigit.
Qed.

(** An exponent part that no dot follows is copied. *)
Lemma truncDecimals_exponent (x post : jsstring) :
  isExponent x -> startsWith isDigit post = false ->
  startsWith isDot post = false ->
  truncDecimals (x ++ post) = x ++ truncDecimals post.
Proof.
  intros (e & sg & ds & -> & He & Hsg & Hds & Hne) Hpost Hdot. simpl.
  rewrite truncDecimals_nondigit; last first.
  { destruct (isDigit e) eqn:E; [|done].
    apply digit_not_expMark in E. congruence. }
  f_equal. rewrite <- app_assoc.
  destruct Hsg as [->|(c & -> & Hc)]; simpl.
  - by apply truncDecimals_digits.
  - rewrite truncDecimals_nondigit by by apply sign_not_digit.
    f_equal. by apply truncDecimals_digits.
Qed.

(** ** Scientific-notation reduction, position by position *)

Lemma reduceScientific_nil : reduceScientific [] = [].
Proof. apply replaceAll_nil, reScientific_consumes. Qed.

Lemma reduceScientific_nondigit c s :
  isDigit c = false -> reduceScientific (c :: s) = c :: reduceScientific s.
Proof.
  intros Hc. apply replaceAll_copy. rewrite reScientific_spec.
  unfold scientificAt. simpl. by rewrite Hc.
Qed.

Lemma reduceScientific_sep u c s :
  isNumChar c = false ->
  reduceScientific (u ++ c :: s)
  = reduceScientific u ++ c :: reduceScientific s.
Proof.
  intros Hc.
  apply (replaceAll_sep reScientific reScientific_consumes
           (fun c => negb (isNumChar c))).
  - intros u' c' s' Hc'. apply negb_true_iff in Hc'.
    rewrite !reScientific_spec. by apply scientificAt_sep.
  - by rewrite Hc.
Qed.

Lemma reduceScientific_startsWith p post :
  startsWith isDigit post = false ->
  startsWith p (reduceScientific post) = startsWith p post.
Proof.
  destruct post as [|c s]; intros H.
  - by rewrite reduceScientific_nil.
  - by rewrite reduceScientific_nondigit.
Qed.

Lemma scientificAt_digits (ds r : jsstring) :
  allOf isDigit ds -> startsWith isDigit r = false ->
  startsWith isDot r = false -> scientificAt (ds ++ r) = None.
Proof.
  intros Hds Hr Hdot. unfold scientificAt.
  rewrite takeWhile_app, dropWhile_app by done.
  destruct ds; [done|]. destruct r as [|c r]; [done|].
  simpl in Hdot. by rewrite Hdot.
Qed.

Lemma reduceScientific_digits (ds r : jsstring) :
  allOf isDigit ds -> startsWith isDigit r = false ->
  startsWith isDot r = false ->
  reduceScientific (ds ++ r) = ds ++ reduceScientific r.
Proof.
  intros Hds Hr Hdot. apply replaceAll_copy_prefix.
  intros u v -> Hv. rewrite reScientific_spec.
  apply scientificAt_digits; [|done..].
  by apply Forall_app in Hds as [_ ?].
Qed.

Lemma reduceScientific_exponent (x post : jsstring) :
  isExponent x -> startsWith isDigit post = false ->
  startsWith isDot post = false ->
  reduceScientific (x ++ post) = x ++ reduceScientific post.
Proof.
  intros (e & sg & ds & -> & He & Hsg & Hds & Hne) Hpost Hdot. simpl.
  rewrite reduceScientific_nondigit; last first.
  { destruct (isDigit e) eqn:E; [|done].
    apply digit_not_expMark in E. congruence. }
  f_equal. rewrite <- app_assoc.
  destruct Hsg as [->|(c & -> & Hc)]; simpl.
  - by apply reduceScientific_digits.
  - rewrite reduceScientific_nondigit by by apply sign_not_digit.
    f_equal. by apply reduceScientific_digits.
Qed.

(** A mantissa with its exponent at the head of the text. *)
Lemma reduceScientific_head (int frac x post : jsstring) :
  allOf isDigit int -> int <> [] -> allOf isDigit frac -> frac <> [] ->
  isExponent x -> startsWith isDigit post = false ->
  reduceScientific (int ++ 46 :: frac ++ x ++ post)
  = int ++ 46 :: take 2 frac ++ reduceScientific post.
Proof.
  intros Hint Hne Hfrac Hnf Hx Hpost. unfold reduceScientific.
  rewrite (replaceAll_match _ reScientific_consumes _
             (int ++ 46 :: take 2 frac) post).
  - by rewrite <- app_assoc.
  - rewrite reScientific_spec. by apply scientificAt_literal.
Qed.

Lemma scientificAt_plain (int frac post : jsstring) :
  allOf isDigit int -> allOf isDigit frac ->
  startsWith isDigit post = false -> exponentAt post = None ->
  scientificAt (int ++ 46 :: frac ++ post) = None.
Proof.
  intros Hint Hfrac Hpost Hexp. unfold scientificAt.
  rewrite takeWhile_app, dropWhile_app by done.
  destruct int; [done|]. change (isDot 46) with true. cbv iota.
  rewrite takeWhile_app, dropWhile_app by done.
  rewrite Hexp. by destruct frac.
Qed.

(** A decimal literal that no exponent follows is copied. *)
Lemma reduceScientific_plain (int frac post : jsstring) :
  allOf isDigit int -> allOf isDigit frac ->
  startsWith isDigit post = false -> startsWith isDot post = false ->
  exponentAt post = None ->
  reduceScientific (int ++ 46 :: frac ++ post)
  = int ++ 46 :: frac ++ reduceScientific post.
Proof.
  intros Hint Hfrac Hpost Hdot Hexp.
  unfold reduceScientific. rewrite replaceAll_copy_prefix.
  - f_equal. fold (reduceScientific (46 :: frac ++ post)).
    rewrite reduceScientific_nondigit by done. f_equal.
    by apply reduceScientific_digits.
  - intros u v -> Hv. apply Forall_app in Hint as [_ Hv'].
    rewrite reScientific_spec. by apply scientificAt_plain.
Qed.

Lemma exponentAt_nonmark post :
  startsWith isExpMark post = false -> exponentAt post = None.
Proof.
  destruct post as [|c s]; simpl; [done|]. by intros ->.
Qed.

(** ** Where a literal begins and ends *)

Lemma startsWith_numChar post :
  startsWith isNumChar post = false ->
  startsWith isDigit post = false /\ startsWith isDot post = false
  /\ startsWith isExpMark post = false /\ startsWith isSign post = false.
Proof.
  destruct post as [|c s]; simpl; [done|]. unfold isNumChar.
  intros H. apply orb_false_iff in H as [H ?].
  apply orb_false_iff in H as [H ?]. by apply orb_false_iff in H as [? ?].
Qed.

Lemma literalEnd_inv post :
  literalEnd post = true ->
  startsWith isDigit post = false /\ startsWith isDot post = false
  /\ startsWith isExpMark post = false /\ startsWith isSign post = false.
Proof.
  unfold literalEnd. intros H. apply negb_true_iff in H.
  by apply startsWith_numChar.
Qed.

Section Compositional.
Variable f : jsstring -> jsstring.
Hypothesis f_nil : f [] = [].
Hypothesis f_nondigit : forall c s, isDigit c = false -> f (c :: s) = c :: f s.
Hypothesis f_sep : forall u c s,
  isNumChar c = false -> f (u ++ c :: s) = f u ++ c :: f s.

Lemma split_literalStart (pre x : jsstring) :
  literalStart pre = true -> f (pre ++ x) = f pre ++ f x.
Proof.
  unfold literalStart. rewrite <- (rev_involutive pre) at 2 3.
  destruct (rev pre) as [|c r]; simpl; [by rewrite f_nil|].
  destruct (N.eqb_spec c 45) as [->|Hc]; intros H;
    apply negb_true_iff in H.
  - destruct r as [|d r]; simpl in *.
    + by rewrite !f_nondigit, f_nil.
    + rewrite <- !app_assoc. simpl.
      rewrite !f_sep by done. rewrite !f_nondigit by done.
      rewrite f_nil. by rewrite <- app_assoc.
  - rewrite <- !app_assoc. simpl. rewrite !f_sep by done.
    rewrite f_nil. by rewrite <- app_assoc.
Qed.
End Compositional.

(** ** The two rewrites together *)

Lemma normalizeNumbers_nil : normalizeNumbers [] = [].
Proof.
  unfold normalizeNumbers. by rewrite truncDecimals_nil, reduceScientific_nil.
Qed.

Lemma normalizeNumbers_nondigit c s :
  isDigit c = false -> normalizeNumbers (c :: s) = c :: normalizeNumbers s.
Proof.
  intros Hc. unfold normalizeNumbers.
  by rewrite truncDecimals_nondigit, reduceScientific_nondigit.
Qed.

Lemma numChar_decimal c : isNumChar c = false -> isDigit c || isDot c = false.
Proof.
  unfold isNumChar. intros H. apply orb_false_iff in H as [H _].
  by apply orb_false_iff in H as [H _].
Qed.

Lemma normalizeNumbers_sep u c s :
  isNumChar c = false ->
  normalizeNumbers (u ++ c :: s)
  = normalizeNumbers u ++ c :: normalizeNumbers s.
Proof.
  intros Hc. unfold normalizeNumbers.
  rewrite truncDecimals_sep by by apply numChar_decimal.
  by rewrite reduceScientific_sep.
Qed.

Lemma truncDecimals_literalEnd post :
  literalEnd post = true -> literalEnd (truncDecimals post) = true.
Proof.
  intros H. unfold literalEnd in *.
  rewrite truncDecimals_startsWith; [done|].
  apply negb_true_iff in H. by apply startsWith_numChar in H as [? _].
Qed.

(** The four shapes of a numeric literal at the head of the text. *)

Lemma normalizeNumbers_integer (int post : jsstring) :
  allOf isDigit int -> literalEnd post = true ->
  normalizeNumbers (int ++ post) = int ++ normalizeNumbers post.
Proof.
  intros Hint Hpost.
  destruct (literalEnd_inv _ Hpost) as (Hd & Hdot & _).
  destruct (literalEnd_inv _ (truncDecimals_literalEnd _ Hpost))
    as (Hd' & Hdot' & _).
  unfold normalizeNumbers.
  rewrite truncDecimals_digits by done.
  by rewrite reduceScientific_digits.
Qed.

Lemma normalizeNumbers_decimal (int frac post : jsstring) :
  allOf isDigit int -> int <> [] -> allOf isDigit frac ->
  literalEnd post = true ->
  normalizeNumbers (int ++ 46 :: frac ++ post)
  = int ++ 46 :: take 6 frac ++ normalizeNumbers post.
Proof.
  intros Hint Hne Hfrac Hpost.
  destruct (literalEnd_inv _ Hpost) as (Hd & Hdot & _).
  destruct (literalEnd_inv _ (truncDecimals_literalEnd _ Hpost))
    as (Hd' & Hdot' & He' & _).
  unfold normalizeNumbers.
  rewrite truncDecimals_head by done.
  apply reduceScientific_plain; try done.
  - by apply Forall_take.
  - by apply exponentAt_nonmark.
Qed.

Lemma normalizeNumbers_exponent (int x post : jsstring) :
  allOf isDigit int -> isExponent x -> literalEnd post = true ->
  normalizeNumbers (int ++ x ++ post) = int ++ x ++ normalizeNumbers post.
Proof.
  intros Hint Hx Hpost.
  destruct (literalEnd_inv _ Hpost) as (Hd & Hdot & _).
  destruct (literalEnd_inv _ (truncDecimals_literalEnd _ Hpost))
    as (Hd' & Hdot' & _).
  assert (forall r, startsWith isDigit (x ++ r) = false
                    /\ startsWith isDot (x ++ r) = false) as Hxr.
  { intros r. destruct Hx as (e & sg & ds & -> & He & _). simpl.
    split; char_facts. }
  unfold normalizeNumbers.
  rewrite truncDecimals_digits by (done || apply Hxr).
  rewrite truncDecimals_exponent by done.
  rewrite reduceScientific_digits by (done || apply Hxr).
  by rewrite reduceScientific_exponent.
Qed.

Lemma normalizeNumbers_scientific (int frac x post : jsstring) :
  allOf isDigit int -> int <> [] -> allOf isDigit frac -> frac <> [] ->
  isExponent x -> literalEnd post = true ->
  normalizeNumbers (int ++ 46 :: frac ++ x ++ post)
  = int ++ 46 :: take 2 frac ++ normalizeNumbers post.
Proof.
  intros Hint Hne Hfrac Hnf Hx Hpost.
  destruct (literalEnd_inv _ Hpost) as (Hd & Hdot & _).
  destruct (literalEnd_inv _ (truncDecimals_literalEnd _ Hpost))
    as (Hd' & Hdot' & _).
  assert (forall r, startsWith isDigit (x ++ r) = false
                    /\ startsWith isDot (x ++ r) = false) as Hxr.
  { intros r. destruct Hx as (e & sg & ds & -> & He & _). simpl.
    split; char_facts. }
  unfold normalizeNumbers.
  rewrite truncDecimals_head by (done || apply Hxr || (intros _; apply Hxr)).
  rewrite truncDecimals_exponent by done.
  rewrite reduceScientific_head; try done.
  - by rewrite take_take.
  - by apply Forall_take.
  - destruct frac; [done|]. done.
Qed.

(** ** [trim] and [substring] *)

Lemma trimStart_id c s : isTrimSpace c = false -> trimStart (c :: s) = c :: s.
Proof. simpl. by intros ->. Qed.

Lemma trim_id (s : jsstring) :
  startsWith isTrimSpace s = false ->
  startsWith isTrimSpace (rev s) = false ->
  trim s = s.
Proof.
  intros Hhead Hlast. unfold trim, trimEnd.
  assert (trimStart s = s) as ->.
  { destruct s as [|c t]; [done|]. by apply trimStart_id. }
  assert (trimStart (rev s) = rev s) as ->.
  { destruct (rev s) as [|c t]; [done|]. by apply trimStart_id. }
  apply rev_involutive.
Qed.

Lemma trim_braces (body : jsstring) :
  trim (lbrace :: body ++ [rbrace]) = lbrace :: body ++ [rbrace].
Proof.
  apply trim_id; [done|].
  change (lbrace :: body ++ [rbrace]) with ((lbrace :: body) ++ [rbrace]).
  by rewrite rev_app_distr.
Qed.

Lemma substring_middle (pre mid post : jsstring) :
  substring (Z.of_nat (length pre)) (Z.of_nat (length pre + length mid))
    (pre ++ mid ++ post) = mid.
Proof.
  unfold substring, clampIndex. rewrite !Nat2Z.id, !length_app.
  rewrite !Nat.min_l, Nat.max_r by lia.
  replace (length pre + length mid - length pre)%nat with (length mid) by lia.
  by rewrite drop_app_length, take_app_length.
Qed.

(** ** The brace span *)

Lemma braceSpan_bounded (s span : jsstring) :
  braceBounded s span -> braceSpan s = span.
Proof.
  intros (pre & body & post & -> & Hpre & Hpost & ->).
  unfold braceSpan.
  rewrite (indexOf_app _ _ _ Hpre).
  replace (pre ++ lbrace :: body ++ rbrace :: post)
    with ((pre ++ lbrace :: body) ++ rbrace :: post)
    by (by rewrite <- app_assoc).
  rewrite (lastIndexOf_app _ _ _ Hpost), length_app. simpl.
  destruct (Z.eqb_spec (Z.of_nat (length pre)) (-1)); [lia|].
  destruct (Z.eqb_spec (Z.of_nat (length pre + S (length body))) (-1)); [lia|].
  destruct (Z.gtb_spec (Z.of_nat (length pre + S (length body)))
              (Z.of_nat (length pre))); [|lia].
  simpl.
  replace ((pre ++ lbrace :: body) ++ rbrace :: post)
    with (pre ++ (lbrace :: body ++ [rbrace]) ++ post)
    by (rewrite <- !app_assoc; simpl; by rewrite <- !app_assoc).
  replace (Z.of_nat (length pre + S (length body)) + 1)%Z
    with (Z.of_nat (length pre + length (lbrace :: body ++ [rbrace]))).
  - apply substring_middle.
  - simpl. rewrite length_app. simpl. lia.
Qed.

Lemma indexOf_found c s :
  indexOf c s <> (-1)%Z ->
  exists pre post, s = pre ++ c :: post /\ (c ∉ pre)
                   /\ indexOf c s = Z.of_nat (length pre).
Proof.
  intros H. destruct (decide (c ∈ s)) as [Hin|Hout].
  - destruct (indexOf_split _ _ Hin) as (pre & post & -> & Hpre).
    exists pre, post. split_and!; [done..|]. by apply indexOf_app.
  - by rewrite indexOf_none in H.
Qed.

Lemma lastIndexOf_found c s :
  lastIndexOf c s <> (-1)%Z ->
  exists pre post, s = pre ++ c :: post /\ (c ∉ post)
                   /\ lastIndexOf c s = Z.of_nat (length pre).
Proof.
  intros H. destruct (decide (c ∈ s)) as [Hin|Hout].
  - destruct (lastIndexOf_split _ _ Hin) as (pre & post & -> & Hpost).
    exists pre, post. split_and!; [done..|]. by apply lastIndexOf_app.
  - by rewrite lastIndexOf_none in H.
Qed.

Lemma braceSpan_unbounded (s : jsstring) :
  (forall span, ~ braceBounded s span) -> braceSpan s = s.
Proof.
  intros Hno. unfold braceSpan.
  destruct (Z.eqb_spec (indexOf lbrace s) (-1)) as [|Hfirst]; [done|].
  destruct (Z.eqb_spec (lastIndexOf rbrace s) (-1)) as [|Hlast]; [done|].
  destruct (Z.gtb_spec (lastIndexOf rbrace s) (indexOf lbrace s))
    as [Hgt|]; [|done].
  exfalso.
  destruct (indexOf_found _ _ Hfirst) as (pre & r & Hs1 & Hpre & Hi).
  destruct (lastIndexOf_found _ _ Hlast) as (p2 & post & Hs2 & Hpost & Hj).
  rewrite Hi, Hj in Hgt.
  assert (exists body, p2 = pre ++ lbrace :: body) as [body ->].
  { rewrite Hs1 in Hs2.
    destruct (app_eq_inv _ _ _ _ Hs2) as [(k & -> & _)|(k & -> & Hk)].
    - rewrite length_app in Hgt. lia.
    - destruct k as [|x k]; [rewrite length_app in Hgt; simpl in Hgt; lia|].
      injection Hk as <- _. by exists k. }
  apply (Hno (lbrace :: body ++ [rbrace])).
  exists pre, body, post. split_and!; [|done..].
  by rewrite Hs2, <- app_assoc.
Qed.

(** ** Fence stripping only deletes *)

Lemma stripFences_sublist (text : jsstring) :
  stripFences text `sublist_of` text.
Proof.
  unfold stripFences. etrans.
  - apply (replaceAll_sublist _ reFence_consumes).
    intros m repl rest H. apply reFence_inv in H as [-> _].
    apply sublist_nil_l.
  - apply (replaceAll_sublist _ reFenceJson_consumes).
    intros m repl rest H. apply reFenceJson_inv in H as [-> _].
    apply sublist_nil_l.
Qed.

(** Claim C1. Whenever the fence-stripped text has a first opening brace
    and, after it, a last closing brace, the text [cleanJson] goes on with
    is the span from the one to the other, whatever lies between them; both
    revisions return it, the later one after the numeric rewrites, and the
    result begins and ends with these braces. Otherwise the whole
    fence-stripped text is taken and trimmed. *)
Theorem cleanJson_selects_brace_span (text : jsstring) :
  (forall span, braceBounded (stripFences text) span ->
     braceSpan (stripFences text) = span
     /\ cleanJson_v1 text = span
     /\ cleanJson text = normalizeNumbers span
     /\ startsWith (N.eqb lbrace) (cleanJson text) = true
     /\ startsWith (N.eqb rbrace) (rev (cleanJson text)) = true)
  /\ ((forall span, ~ braceBounded (stripFences text) span) ->
     braceSpan (stripFences text) = stripFences text
     /\ cleanJson_v1 text = trim (stripFences text)
     /\ cleanJson text = trim (normalizeNumbers (stripFences text))).
Proof.
  split.
  - intros span Hb. pose proof (braceSpan_bounded _ _ Hb) as Hspan.
    destruct Hb as (pre & body & post & _ & _ & _ & ->).
    assert (normalizeNumbers (lbrace :: body ++ [rbrace])
            = lbrace :: normalizeNumbers body ++ [rbrace]) as HN.
    { rewrite normalizeNumbers_nondigit by done.
      by rewrite normalizeNumbers_sep, normalizeNumbers_nil. }
    unfold cleanJson, cleanJson_v1. rewrite Hspan, HN, !trim_braces.
    split_and!; try done.
    change (lbrace :: normalizeNumbers body ++ [rbrace])
      with ((lbrace :: normalizeNumbers body) ++ [rbrace]).
    by rewrite rev_app_distr.
  - intros Hno. unfold cleanJson, cleanJson_v1.
    by rewrite (braceSpan_unbounded _ Hno).
Qed.

(** ** Literals between delimiters *)

Lemma truncDecimals_split (pre s : jsstring) :
  literalStart pre = true ->
  truncDecimals (pre ++ s) = truncDecimals pre ++ truncDecimals s.
Proof.
  apply split_literalStart.
  - apply truncDecimals_nil.
  - apply truncDecimals_nondigit.
  - intros u c t Hc. by apply truncDecimals_sep, numChar_decimal.
Qed.

Lemma reduceScientific_split (pre s : jsstring) :
  literalStart pre = true ->
  reduceScientific (pre ++ s) = reduceScientific pre ++ reduceScientific s.
Proof.
  apply split_literalStart.
  - apply reduceScientific_nil.
  - apply reduceScientific_nondigit.
  - apply reduceScientific_sep.
Qed.

Lemma normalizeNumbers_split (pre s : jsstring) :
  literalStart pre = true ->
  normalizeNumbers (pre ++ s) = normalizeNumbers pre ++ normalizeNumbers s.
Proof.
  apply split_literalStart.
  - apply normalizeNumbers_nil.
  - apply normalizeNumbers_nondigit.
  - apply normalizeNumbers_sep.
Qed.

Lemma normalizeNumbers_literalEnd post :
  literalEnd post = true -> literalEnd (normalizeNumbers post) = true.
Proof.
  intros H. pose proof (truncDecimals_literalEnd _ H) as H'.
  unfold normalizeNumbers, literalEnd in *.
  rewrite reduceScientific_startsWith; [done|].
  apply negb_true_iff in H'. by apply startsWith_numChar in H' as [? _].
Qed.

Lemma normalizeNumbers_decimal_between (pre int frac post : jsstring) :
  literalStart pre = true ->
  allOf isDigit int -> int <> [] -> allOf isDigit frac ->
  literalEnd post = true ->
  normalizeNumbers (pre ++ int ++ 46 :: frac ++ post)
  = normalizeNumbers pre ++ int ++ 46 :: take 6 frac ++ normalizeNumbers post.
Proof.
  intros Hpre Hint Hne Hfrac Hpost.
  rewrite normalizeNumbers_split by done. f_equal.
  by apply normalizeNumbers_decimal.
Qed.

Lemma normalizeNumbers_scientific_between (pre int frac x post : jsstring) :
  literalStart pre = true ->
  allOf isDigit int -> int <> [] -> allOf isDigit frac -> frac <> [] ->
  isExponent x -> literalEnd post = true ->
  normalizeNumbers (pre ++ int ++ 46 :: frac ++ x ++ post)
  = normalizeNumbers pre ++ int ++ 46 :: take 2 frac ++ normalizeNumbers post.
Proof.
  intros Hpre Hint Hne Hfrac Hnf Hx Hpost.
  rewrite normalizeNumbers_split by done. f_equal.
  by apply normalizeNumbers_scientific.
Qed.

(** Claim C3. A decimal literal between delimiters has its fraction cut to
    its first six digits, by the first rewrite and by the two together: a
    longer fraction loses the digits after the sixth, none of them rounded,
    and a fraction of six digits or fewer stays as it is. *)
Theorem long_fractions_are_cut_to_six_digits (pre int frac post : jsstring) :
  literalStart pre = true ->
  allOf isDigit int -> int <> [] -> allOf isDigit frac ->
  literalEnd post = true ->
  truncDecimals (pre ++ int ++ 46 :: frac ++ post)
    = truncDecimals pre ++ int ++ 46 :: take 6 frac ++ truncDecimals post
  /\ normalizeNumbers (pre ++ int ++ 46 :: frac ++ post)
    = normalizeNumbers pre ++ int ++ 46 :: take 6 frac
        ++ normalizeNumbers post
  /\ ((6 < length frac)%nat ->
      length (take 6 frac) = 6%nat /\ frac = take 6 frac ++ drop 6 frac)
  /\ ((length frac <= 6)%nat -> take 6 frac = frac).
Proof.
  intros Hpre Hint Hne Hfrac Hpost.
  destruct (literalEnd_inv _ Hpost) as (Hd & Hdot & _).
  split_and!.
  - rewrite truncDecimals_split by done. f_equal.
    by apply truncDecimals_head.
  - by apply normalizeNumbers_decimal_between.
  - intros H6. split; [rewrite length_take; lia | by rewrite take_drop].
  - intros H6. by apply take_ge.
Qed.

Ltac solve_allOf := unfold allOf; repeat constructor.

Ltac solve_notin :=
  apply (bool_decide_unpack _); vm_compute; exact I.

Lemma cleanJson_selects_brace_span_witness :
  cleanJson_v1 twoObjectsSample
  = str "{a:1} ignore ... {" ++ quoted "final_score" ++ str ":9}".
Proof.
  refine (proj1 (proj2 (proj1 (cleanJson_selects_brace_span twoObjectsSample)
            _ _))).
  exists (str "note: "),
    (str "a:1} ignore ... {" ++ quoted "final_score" ++ str ":9"), [].
  split_and!; [vm_compute; reflexivity | solve_notin | solve_notin |
               vm_compute; reflexivity].
Defined.

Lemma long_fractions_are_cut_to_six_digits_witness :
  normalizeNumbers
    ((str "{" ++ quoted "final_score" ++ str ": ") ++ str "8" ++ 46 ::
       str "500000000000002" ++ str ", }")
  = normalizeNumbers (str "{" ++ quoted "final_score" ++ str ": ")
    ++ str "8" ++ 46 :: take 6 (str "500000000000002")
    ++ normalizeNumbers (str ", }").
Proof.
  refine (proj1 (proj2 (long_fractions_are_cut_to_six_digits
    (str "{" ++ quoted "final_score" ++ str ": ") (str "8")
    (str "500000000000002") (str ", }") _ _ _ _ _)));
    [reflexivity | solve_allOf | discriminate | solve_allOf | reflexivity].
Defined.

(** Claim C4. A literal in scientific notation with a fractional mantissa,
    between delimiters, is replaced by its integer part, the dot and the
    first two digits of its fraction, the exponent dropped; a literal whose
    mantissa has no fraction is left as it is. The sample text with
    [5.0000000000000018e+00] is sanitized to [5.00] and decodes to an object
    whose [weight] is 5. *)
Theorem scientific_literals_lose_their_exponent
    (pre int frac x post : jsstring) :
  literalStart pre = true ->
  allOf isDigit int -> int <> [] -> allOf isDigit frac -> frac <> [] ->
  isExponent x -> literalEnd post = true ->
  reduceScientific (pre ++ int ++ 46 :: frac ++ x ++ post)
    = reduceScientific pre ++ int ++ 46 :: take 2 frac
        ++ reduceScientific post
  /\ normalizeNumbers (pre ++ int ++ 46 :: frac ++ x ++ post)
    = normalizeNumbers pre ++ int ++ 46 :: take 2 frac
        ++ normalizeNumbers post
  /\ (length (take 2 frac) <= 2)%nat
  /\ reduceScientific (pre ++ int ++ x ++ post)
    = reduceScientific pre ++ int ++ x ++ reduceScientific post
  /\ normalizeNumbers (pre ++ int ++ x ++ post)
    = normalizeNumbers pre ++ int ++ x ++ normalizeNumbers post
  /\ cleanJson weightSample = str "{" ++ quoted "weight" ++ str ": 5.00}"
  /\ JSON_parse (cleanJson weightSample) jsonReviver
    = Some (VObject [(str "weight", VNumber 5%float)]).
Proof.
  intros Hpre Hint Hne Hfrac Hnf Hx Hpost.
  destruct (literalEnd_inv _ Hpost) as (Hd & Hdot & _).
  assert (forall r, startsWith isDigit (x ++ r) = false
                    /\ startsWith isDot (x ++ r) = false) as Hxr.
  { intros r. destruct Hx as (e & sg & ds & -> & He & _). simpl.
    split; char_facts. }
  split_and!.
  - rewrite reduceScientific_split by done. f_equal.
    by apply reduceScientific_head.
  - by apply normalizeNumbers_scientific_between.
  - rewrite length_take. lia.
  - rewrite reduceScientific_split by done. f_equal.
    rewrite reduceScientific_digits by (done || apply Hxr).
    by rewrite reduceScientific_exponent.
  - rewrite normalizeNumbers_split by done. f_equal.
    by apply normalizeNumbers_exponent.
  - vm_compute. reflexivity.
  - vm_compute. reflexivity.
Qed.

Lemma scientific_literals_lose_their_exponent_witness :
  normalizeNumbers
    ((str "{" ++ quoted "weight" ++ str ": ") ++ str "5" ++ 46 ::
       str "0000000000000018" ++ str "e+00" ++ str "}")
  = normalizeNumbers (str "{" ++ quoted "weight" ++ str ": ")
    ++ str "5" ++ 46 :: take 2 (str "0000000000000018")
    ++ normalizeNumbers (str "}").
Proof.
  refine (proj1 (proj2 (scientific_literals_lose_their_exponent
    (str "{" ++ quoted "weight" ++ str ": ") (str "5")
    (str "0000000000000018") (str "e+00") (str "}") _ _ _ _ _ _ _)));
    [reflexivity | solve_allOf | discriminate | solve_allOf | discriminate
    | | reflexivity].
  exists 101, (str "+"), (str "00"). split_and!;
    [reflexivity | reflexivity | | solve_allOf | discriminate].
  right. by exists 43.
Defined.

(** ** Idempotence on delimited literals *)

(** A literal followed by a delimiter is rewritten to a literal that the
    rewrites leave alone. *)
Lemma normalizeNumbers_literal (l post : jsstring) :
  numericLiteral l -> literalEnd post = true ->
  exists l',
    normalizeNumbers (l ++ post) = l' ++ normalizeNumbers post
    /\ forall post', literalEnd post' = true ->
         normalizeNumbers (l' ++ post') = l' ++ normalizeNumbers post'.
Proof.
  intros Hl Hpost.
  destruct Hl as [int Hint Hne|int frac Hint Hne Hfrac Hnf
                 |int x Hint Hne Hx|int frac x Hint Hne Hfrac Hnf Hx].
  - exists int. split; [by apply normalizeNumbers_integer|].
    intros post' Hp. by apply normalizeNumbers_integer.
  - exists (int ++ 46 :: take 6 frac). split.
    + rewrite <- !app_assoc. simpl. by apply normalizeNumbers_decimal.
    + intros post' Hp. rewrite <- !app_assoc. simpl.
      rewrite normalizeNumbers_decimal; try done.
      * by rewrite take_take.
      * by apply Forall_take.
  - exists (int ++ x). split.
    + rewrite <- !app_assoc. by apply normalizeNumbers_exponent.
    + intros post' Hp. rewrite <- !app_assoc.
      by apply normalizeNumbers_exponent.
  - exists (int ++ 46 :: take 2 frac). split.
    + rewrite <- !app_assoc. simpl. rewrite <- !app_assoc.
      by apply normalizeNumbers_scientific.
    + intros post' Hp. rewrite <- !app_assoc. simpl.
      rewrite normalizeNumbers_decimal; try done.
      * by rewrite take_take.
      * by apply Forall_take.
Qed.

(** Claim C7, as amended. On a text whose numeric literals are delimited,
    the two numeric rewrites applied twice give what they give applied
    once. *)
Theorem normalizeNumbers_idempotent_on_delimited (text : jsstring) :
  literalsDelimited text ->
  normalizeNumbers (normalizeNumbers text) = normalizeNumbers text.
Proof.
  induction 1 as [|c s Hc _ IH|l post Hl Hpost _ IH].
  - by rewrite !normalizeNumbers_nil.
  - rewrite !normalizeNumbers_nondigit by done. by rewrite IH.
  - destruct (normalizeNumbers_literal _ _ Hl Hpost) as (l' & -> & Hl').
    rewrite Hl' by by apply normalizeNumbers_literalEnd.
    by rewrite IH.
Qed.

(** Claim C7, as stated for every text, fails: an exponent part that is
    dropped brings what follows it next to the mantissa, and a second pass
    matches again. *)
Lemma normalizeNumbers_not_idempotent :
  normalizeNumbers (str "1.5e3e4") = str "1.5e4"
  /\ normalizeNumbers (normalizeNumbers (str "1.5e3e4")) = str "1.5"
  /\ ~ (forall text,
          normalizeNumbers (normalizeNumbers text) = normalizeNumbers text).
Proof.
  split_and!; [vm_compute; reflexivity..|].
  intros H. specialize (H (str "1.5e3e4")). vm_compute in H. discriminate.
Qed.

Lemma normalizeNumbers_idempotent_on_delimited_witness :
  normalizeNumbers (normalizeNumbers (str "[1.23456789, 5.0000018e+00,7]"))
  = normalizeNumbers (str "[1.23456789, 5.0000018e+00,7]").
Proof.
  apply normalizeNumbers_idempotent_on_delimited.
  apply delimited_char; [reflexivity|].
  apply (delimited_literal (str "1" ++ 46 :: str "23456789")
           (str ", 5.0000018e+00,7]")).
  { apply lit_decimal; solve_allOf || discriminate. }
  { reflexivity. }
  do 2 (apply delimited_char; [reflexivity|]).
  apply (delimited_literal (str "5" ++ 46 :: str "0000018" ++ str "e+00")
           (str ",7]")).
  { apply lit_scientific; try (solve_allOf || discriminate).
    exists 101, (str "+"), (str "00"). split_and!;
      [reflexivity | reflexivity | | solve_allOf | discriminate].
    right. by exists 43. }
  { reflexivity. }
  apply delimited_char; [reflexivity|].
  apply (delimited_literal (str "7") (str "]")).
  { apply lit_integer; solve_allOf || discriminate. }
  { reflexivity. }
  apply delimited_char; [reflexivity|]. apply delimited_nil.
Defined.

(** ** Sanitization only deletes *)

Lemma trimStart_suffix (s : jsstring) : exists w, s = w ++ trimStart s.
Proof.
  induction s as [|c t [w IH]]; [by exists []|]. simpl.
  destruct (isTrimSpace c).
  - exists (c :: w). simpl. by rewrite <- IH.
  - by exists [].
Qed.

Lemma trim_sublist (s : jsstring) : trim s `sublist_of` s.
Proof.
  unfold trim, trimEnd.
  destruct (trimStart_suffix s) as [w Hw].
  destruct (trimStart_suffix (rev (trimStart s))) as [v Hv].
  apply (f_equal (@rev N)) in Hv.
  rewrite rev_involutive, rev_app_distr in Hv.
  rewrite Hw at 2. apply sublist_inserts_l.
  rewrite Hv at 2. by apply sublist_inserts_r.
Qed.

Lemma substring_sublist a b (s : jsstring) : substring a b s `sublist_of` s.
Proof.
  unfold substring. etrans; [apply sublist_take | apply sublist_drop].
Qed.

Lemma braceSpan_sublist (s : jsstring) : braceSpan s `sublist_of` s.
Proof.
  unfold braceSpan. destruct (_ && _); [apply substring_sublist | done].
Qed.

Lemma longDecimal_replacement m repl rest :
  reLongDecimal (m ++ rest) = Some (repl, rest) ->
  exists int frac, m = int ++ 46 :: frac /\ repl = int ++ 46 :: take 6 frac
                   /\ allOf isDigit frac.
Proof.
  rewrite reLongDecimal_spec. intros H.
  apply longDecimalAt_inv in H as (int & frac & Hs & _ & _ & Hfrac & _ & _ & ->).
  exists int, frac. split_and!; [|done..].
  apply (app_inv_tail rest). rewrite Hs. by rewrite <- app_assoc.
Qed.

Lemma scientific_replacement m repl rest :
  reScientific (m ++ rest) = Some (repl, rest) ->
  exists int frac x, m = int ++ 46 :: frac ++ x
                     /\ repl = int ++ 46 :: take 2 frac
                     /\ allOf isDigit frac /\ isExponent x.
Proof.
  rewrite reScientific_spec. intros H.
  apply scientificAt_inv in H
    as (int & frac & x & Hs & _ & _ & Hfrac & _ & Hx & _ & ->).
  exists int, frac, x. split_and!; [|done..].
  apply (app_inv_tail rest). rewrite Hs.
  rewrite <- !app_assoc. simpl. by rewrite <- !app_assoc.
Qed.

Lemma truncDecimals_sublist (s : jsstring) : truncDecimals s `sublist_of` s.
Proof.
  apply (replaceAll_sublist _ reLongDecimal_consumes).
  intros m repl rest H.
  apply longDecimal_replacement in H as (int & frac & -> & -> & _).
  apply sublist_app; [done|]. apply sublist_skip, sublist_take.
Qed.

Lemma reduceScientific_sublist (s : jsstring) :
  reduceScientific s `sublist_of` s.
Proof.
  apply (replaceAll_sublist _ reScientific_consumes).
  intros m repl rest H.
  apply scientific_replacement in H as (int & frac & x & -> & -> & _).
  apply sublist_app; [done|]. apply sublist_skip.
  apply sublist_inserts_r, sublist_take.
Qed.

Lemma normalizeNumbers_sublist (s : jsstring) :
  normalizeNumbers s `sublist_of` s.
Proof.
  unfold normalizeNumbers.
  etrans; [apply reduceScientific_sublist | apply truncDecimals_sublist].
Qed.

Lemma filter_kept_digits (ds : jsstring) :
  allOf isDigit ds -> filter (fun c => isKept c = true) ds = [].
Proof.
  induction 1 as [|c ds Hc _ IH]; [done|].
  rewrite filter_cons_False; [done|]. unfold isKept. rewrite Hc. simpl.
  discriminate.
Qed.

Lemma filter_kept_exponent (x : jsstring) :
  isExponent x -> filter (fun c => isKept c = true) x = [].
Proof.
  intros (e & sg & ds & -> & He & Hsg & Hds & _).
  rewrite filter_cons_False; last first.
  { unfold isKept. rewrite He, orb_true_r. simpl. discriminate. }
  rewrite filter_app, (filter_kept_digits ds) by done.
  destruct Hsg as [->|(c & -> & Hc)]; [done|].
  rewrite filter_cons_False; [done|].
  unfold isKept. rewrite Hc, orb_true_r. simpl. discriminate.
Qed.

Lemma truncDecimals_kept (s : jsstring) :
  filter (fun c => isKept c = true) (truncDecimals s)
  = filter (fun c => isKept c = true) s.
Proof.
  apply (replaceAll_filter _ reLongDecimal_consumes).
  intros m repl rest H.
  apply longDecimal_replacement in H as (int & frac & -> & -> & Hfrac).
  rewrite !filter_app, !filter_cons, !decide_True by done. do 2 f_equal.
  rewrite !filter_kept_digits; done || by apply Forall_take.
Qed.

Lemma reduceScientific_kept (s : jsstring) :
  filter (fun c => isKept c = true) (reduceScientific s)
  = filter (fun c => isKept c = true) s.
Proof.
  apply (replaceAll_filter _ reScientific_consumes).
  intros m repl rest H.
  apply scientific_replacement in H as (int & frac & x & -> & -> & Hfrac & Hx).
  rewrite !filter_app, !filter_cons, !filter_app, !decide_True by done.
  do 2 f_equal. rewrite (filter_kept_exponent x) by done.
  rewrite !filter_kept_digits; done || by apply Forall_take.
Qed.

(** Claim C8, as amended. What [cleanJson] returns is obtained from its
    input by deleting characters only, and so is the fence-stripped text;
    the numeric rewrites delete nothing but digits, exponent markers and
    signs, so that every other character of the span is kept, in order. *)
Theorem sanitization_only_deletes (text : jsstring) :
  cleanJson text `sublist_of` text
  /\ cleanJson_v1 text `sublist_of` text
  /\ stripFences text `sublist_of` text
  /\ (forall span : jsstring,
        normalizeNumbers span `sublist_of` span
        /\ filter (fun c => isKept c = true) (normalizeNumbers span)
           = filter (fun c => isKept c = true) span).
Proof.
  split_and!.
  - unfold cleanJson.
    etrans; [apply trim_sublist|]. etrans; [apply normalizeNumbers_sublist|].
    etrans; [apply braceSpan_sublist | apply stripFences_sublist].
  - unfold cleanJson_v1. etrans; [apply trim_sublist|].
    etrans; [apply braceSpan_sublist | apply stripFences_sublist].
  - apply stripFences_sublist.
  - intros span. split; [apply normalizeNumbers_sublist|].
    unfold normalizeNumbers.
    by rewrite reduceScientific_kept, truncDecimals_kept.
Qed.

(** Claim C8, as stated, fails: a string value is a token that is no
    number, and the patterns rewrite the decimal and remove the fence marker
    it holds. *)
Lemma cleanJson_alters_string_values :
  JSON_parse versionSample (fun _ v => v)
    = Some (VObject [(str "id", VString (str "v1.23456789"))])
  /\ JSON_parse (cleanJson versionSample) (fun _ v => v)
    = Some (VObject [(str "id", VString (str "v1.234567"))])
  /\ JSON_parse fenceInStringSample (fun _ v => v)
    = Some (VObject [(str "code", VString (str "```js"))])
  /\ JSON_parse (cleanJson fenceInStringSample) (fun _ v => v)
    = Some (VObject [(str "code", VString (str "js"))]).
Proof. split_and!; vm_compute; reflexivity. Qed.

(** ** The reviver *)

Lemma value_induction (P : value -> Prop) :
  P VNull -> (forall b, P (VBool b)) -> (forall x, P (VNumber x)) ->
  (forall s, P (VString s)) ->
  (forall elems, Forall P elems -> P (VArray elems)) ->
  (forall props, Forall (fun kv => P (snd kv)) props -> P (VObject props)) ->
  forall v, P v.
Proof.
  intros HNull HBool HNum HStr HArr HObj.
  fix IH 1. intros [| b | x | s | elems | props].
  - exact HNull.
  - apply HBool.
  - apply HNum.
  - apply HStr.
  - apply HArr. induction elems as [|e l IHl]; constructor; [apply IH | exact IHl].
  - apply HObj. induction props as [|[k e] l IHl]; constructor;
      [apply IH | exact IHl].
Qed.

Lemma internalize_jsonReviver key (v : value) :
  internalize jsonReviver key v = mapNumbers roundTwoPlaces v.
Proof.
  revert key. induction v as [| b | x | s | elems IH | props IH]
    using value_induction; intros key; try reflexivity.
  - simpl. f_equal. generalize 0%nat.
    induction IH as [|e l He _ IHl]; intros i; [done|].
    by rewrite He, IHl.
  - simpl. f_equal.
    induction IH as [|[k e] l He _ IHl]; [done|].
    simpl in *. by rewrite He, IHl.
Qed.

Lemma internalize_identity key (v : value) :
  internalize (fun _ w => w) key v = v.
Proof.
  revert key. induction v as [| b | x | s | elems IH | props IH]
    using value_induction; intros key; try reflexivity.
  - simpl. f_equal. generalize 0%nat.
    induction IH as [|e l He _ IHl]; intros i; [done|].
    by rewrite He, IHl.
  - simpl. f_equal.
    induction IH as [|[k e] l He _ IHl]; [done|].
    simpl in *. by rewrite He, IHl.
Qed.

Lemma JSON_parse_reviving (text : jsstring) :
  JSON_parse text jsonReviver
  = mapNumbers roundTwoPlaces <$> JSON_parse text (fun _ v => v).
Proof.
  unfold JSON_parse.
  destruct (parseValue _ text) as [v rest| |]; [|done..].
  destruct (skipSpace rest); [|done]. simpl.
  by rewrite internalize_jsonReviver, internalize_identity.
Qed.

(** [Math_round] on a number that is finite and not integral: the integer
    [n] with [n - 1/2 <= x < n + 1/2], so that a tie goes up whatever the
    sign. *)
Lemma Math_round_finite (x : number) sign m e :
  Prim2SF x = S754_finite sign m e -> (e < 0)%Z ->
  exists n : Z,
    ((2 * n - 1) * 2 ^ (- e) <= 2 * signedMantissa sign m
       < (2 * n + 1) * 2 ^ (- e))%Z
    /\ Math_round x
       = if (n =? 0)%Z then (if sign then neg_zero else zero)
         else numberOfZ n.
Proof.
  intros Hx He. unfold Math_round. rewrite Hx.
  destruct (Z.leb_spec 0 e) as [|_]; [lia|].
  set (sm := signedMantissa sign m).
  set (k := (- e)%Z).
  exists ((2 * sm + 2 ^ k) / 2 ^ (1 - e))%Z. split; [|done].
  assert (2 ^ (1 - e) = 2 * 2 ^ k)%Z as ->.
  { subst k. replace (1 - e)%Z with (Z.succ (- e)) by lia.
    rewrite Z.pow_succ_r by lia. done. }
  assert (0 < 2 ^ k)%Z as Hpos by (apply Z.pow_pos_nonneg; subst k; lia).
  pose proof (Z.div_mod (2 * sm + 2 ^ k) (2 * 2 ^ k) ltac:(lia)) as Hdm.
  pose proof (Z.mod_pos_bound (2 * sm + 2 ^ k) (2 * 2 ^ k) ltac:(lia)) as Hb.
  nia.
Qed.

(** Claim C2, as amended. Decoding with the reviver is decoding without it
    followed by [roundTwoPlaces] on every numeric leaf, other leaves and the
    shape unchanged; [roundTwoPlaces] multiplies by 100, applies
    [Math_round] and divides by 100, and [Math_round] takes a number that
    is not integral to the integer [n] with [n - 1/2 <= x < n + 1/2]: a tie
    goes up, toward plus infinity, also when [x] is negative. *)
Theorem reviver_rounds_every_number_half_up :
  (forall key v, internalize jsonReviver key v = mapNumbers roundTwoPlaces v)
  /\ (forall text,
        JSON_parse text jsonReviver
        = mapNumbers roundTwoPlaces <$> JSON_parse text (fun _ v => v))
  /\ (forall x sign m e,
        Prim2SF x = S754_finite sign m e -> (e < 0)%Z ->
        exists n : Z,
          ((2 * n - 1) * 2 ^ (- e) <= 2 * signedMantissa sign m
             < (2 * n + 1) * 2 ^ (- e))%Z
          /\ Math_round x
             = if (n =? 0)%Z then (if sign then neg_zero else zero)
               else numberOfZ n)
  /\ (forall x sign m e,
        Prim2SF x = S754_finite sign m e -> (0 <= e)%Z -> Math_round x = x)
  /\ Math_round 2.5 = 3%float
  /\ Math_round (-2.5) = (-2)%float
  /\ roundTwoPlaces 0.125 = 0.13%float
  /\ roundTwoPlaces (-0.125) = (-0.12)%float.
Proof.
  split_and!.
  - apply internalize_jsonReviver.
  - apply JSON_parse_reviving.
  - apply Math_round_finite.
  - intros x sign m e Hx He. unfold Math_round. rewrite Hx.
    by destruct (Z.leb_spec 0 e); [|lia].
  - vm_compute. reflexivity.
  - vm_compute. reflexivity.
  - vm_compute. reflexivity.
  - vm_compute. reflexivity.
Qed.

Lemma reviver_rounds_every_number_half_up_witness :
  exists n : Z,
    ((2 * n - 1) * 2 ^ (- (-49)) <= 2 * signedMantissa true 7036874417766400
       < (2 * n + 1) * 2 ^ (- (-49)))%Z
    /\ Math_round (-12.5)
       = if (n =? 0)%Z then neg_zero else numberOfZ n.
Proof.
  refine (proj1 (proj2 (proj2 reviver_rounds_every_number_half_up))
            (-12.5)%float true 7036874417766400%positive (-49)%Z _ _).
  - vm_compute. reflexivity.
  - reflexivity.
Defined.

(** Claim C2, as stated, fails: the negative tie -12.5 is rounded up to
    -12, not away from zero to -13. *)
Lemma reviver_is_not_half_away_from_zero :
  JSON_parse (cleanJson negativeTieSample) jsonReviver
    = Some (VObject [(str "x", VNumber (-0.12)%float)])
  /\ mapNumbers roundTwoPlacesHalfAway
       <$> JSON_parse (cleanJson negativeTieSample) (fun _ v => v)
     = Some (VObject [(str "x", VNumber (-0.13)%float)])
  /\ JSON_parse (cleanJson negativeTieSample) jsonReviver
     <> mapNumbers roundTwoPlacesHalfAway
          <$> JSON_parse (cleanJson negativeTieSample) (fun _ v => v).
Proof.
  split_and!; [vm_compute; reflexivity..|].
  intros H. vm_compute in H.
  apply (f_equal (fun o => match o with
                           | Some (VObject [(_, VNumber x)]) => Prim2SF x
                           | _ => S754_nan
                           end)) in H.
  vm_compute in H. discriminate.
Qed.

(** ** The value of a decimal literal *)








(** ** The service operations *)

Lemma orElse_text (text default : jsstring) :
  text <> [] -> orElse (Some text) default = text.
Proof. by destruct text. Qed.

Lemma hasText_text (text : jsstring) : text <> [] -> hasText (Some text) = true.
Proof. by destruct text. Qed.

Lemma cleanJson_without_braces (text : jsstring) :
  lbrace ∉ text \/ rbrace ∉ text ->
  cleanJson text = trim (normalizeNumbers (stripFences text)).
Proof.
  intros Hno. unfold cleanJson. rewrite braceSpan_unbounded; [done|].
  intros span (pre & body & post & Hs & _).
  pose proof (stripFences_sublist text) as Hsub. rewrite Hs in Hsub.
  destruct Hno as [Hno|Hno]; apply Hno.
  - eapply elem_of_sublist; [|exact Hsub].
    apply elem_of_app. right. by left.
  - eapply elem_of_sublist; [|exact Hsub].
    apply elem_of_app. right. right. apply elem_of_app. right. by left.
Qed.

(** Claim C5. When the response has text and its sanitized form is not
    JSON, rubric generation and submission evaluation write the parser's
    error and the raw text, as it was received, to the console, and throw
    an [Error] whose message begins with the name of what failed: [Failed
    to parse rubric structure], [Failed to parse evaluation result]. A text
    without an opening or without a closing brace is attempted whole,
    fence-stripped, rewritten and trimmed. *)
Theorem decode_failure_is_logged_and_renamed
    (syntaxErrorMessage : jsstring -> jsstring) (text : jsstring)
    (candidates : option (list candidate)) :
  text <> [] ->
  JSON_parse (cleanJson text) jsonReviver = None ->
  generateRubricFromText syntaxErrorMessage
    (Responded {| response_text := Some text;
                  response_candidates := candidates |})
  = ([ {| log_level := LogError;
          log_label := "Failed to parse Rubric JSON";
          log_arg := LoggedThrown
            (ErrorObject "SyntaxError" (syntaxErrorMessage (cleanJson text))) |};
       {| log_level := LogDebug;
          log_label := "Raw Rubric Response:";
          log_arg := LoggedText text |} ],
     Threw (ErrorObject "Error"
       (str "Failed to parse rubric structure" ++ str ". Please try again.")))
  /\ evaluateSubmission syntaxErrorMessage
       (Responded {| response_text := Some text;
                     response_candidates := candidates |})
     = ([ {| log_level := LogError;
             log_label := "Failed to parse Evaluation JSON";
             log_arg := LoggedThrown
               (ErrorObject "SyntaxError"
                  (syntaxErrorMessage (cleanJson text))) |};
          {| log_level := LogDebug;
             log_label := "Raw Evaluation Response:";
             log_arg := LoggedText text |} ],
        Threw (ErrorObject "Error"
          (str "Failed to parse evaluation result"
             ++ str ". The model may have been interrupted or produced invalid JSON.")))
  /\ (lbrace ∉ text \/ rbrace ∉ text ->
      cleanJson text = trim (normalizeNumbers (stripFences text))).
Proof.
  intros Hne Hfail. split_and!.
  - unfold generateRubricFromText, parseReviving. simpl response_text.
    rewrite hasText_text, orElse_text by done. simpl negb. cbv iota.
    by rewrite Hfail.
  - unfold evaluateSubmission, parseReviving. simpl response_text.
    rewrite hasText_text, orElse_text by done. simpl negb. cbv iota.
    by rewrite Hfail.
  - apply cleanJson_without_braces.
Qed.

Lemma decode_failure_is_logged_and_renamed_witness :
  generateRubricFromText (fun _ => str "Unexpected token")
    (Responded {| response_text := Some (str "no json here");
                  response_candidates := None |})
  = ([ {| log_level := LogError;
          log_label := "Failed to parse Rubric JSON";
          log_arg := LoggedThrown
            (ErrorObject "SyntaxError" (str "Unexpected token")) |};
       {| log_level := LogDebug;
          log_label := "Raw Rubric Response:";
          log_arg := LoggedText (str "no json here") |} ],
     Threw (ErrorObject "Error"
       (str "Failed to parse rubric structure" ++ str ". Please try again."))).
Proof.
  refine (proj1 (decode_failure_is_logged_and_renamed
    (fun _ => str "Unexpected token") (str "no json here") None _ _)).
  - discriminate.
  - vm_compute. reflexivity.
Defined.

(** Claim C6. [analyzeCodeRepository] returns on every answer of the
    service and every outcome of the fetch; when the call is rejected, the
    response has no text or the text does not decode, what it returns is
    the object of the failed analysis: status [failed], score 0 of 10, no
    evidence, the address given, and the message of the error or [Unknown
    error]. *)
Theorem code_analysis_always_returns
    (syntaxErrorMessage : jsstring -> jsstring) (repoUrl : jsstring)
    (f : fetched) :
  (forall up, exists log v,
     analyzeCodeRepository syntaxErrorMessage repoUrl f up
     = (log, Returned v))
  /\ (forall e,
        snd (analyzeCodeRepository syntaxErrorMessage repoUrl f (Rejected e))
        = Returned (failedAnalysis repoUrl e))
  /\ (forall r, hasText (response_text r) = false ->
        snd (analyzeCodeRepository syntaxErrorMessage repoUrl f (Responded r))
        = Returned (failedAnalysis repoUrl
             (ErrorObject "Error" (str "No code analysis response"))))
  /\ (forall text candidates,
        text <> [] -> JSON_parse (cleanJson text) jsonReviver = None ->
        snd (analyzeCodeRepository syntaxErrorMessage repoUrl f
               (Responded {| response_text := Some text;
                             response_candidates := candidates |}))
        = Returned (failedAnalysis repoUrl
             (ErrorObject "SyntaxError"
                (syntaxErrorMessage (cleanJson text)))))
  /\ (forall e,
        let props := match failedAnalysis repoUrl e with
                     | VObject props => props
                     | _ => []
                     end in
        getProp (str "status") props = Some (VString (str "failed"))
        /\ getProp (str "implementation_score") props = Some (VNumber 0%float)
        /\ getProp (str "max_score") props = Some (VNumber 10%float)
        /\ getProp (str "evidence") props = Some (VArray [])
        /\ getProp (str "repo_url") props = Some (VString repoUrl)
        /\ getProp (str "error_message") props
           = Some (VString (errorMessageOf e))
        /\ errorMessageOf OtherThrown = str "Unknown error"
        /\ forall name message,
             errorMessageOf (ErrorObject name message) = message).
Proof.
  split_and!.
  - intros up. unfold analyzeCodeRepository.
    destruct (fetchGithubContent f) as [fetchLog fetchedContext].
    destruct (analyzeAttempt syntaxErrorMessage up); by eexists _, _.
  - intros e. unfold analyzeCodeRepository.
    by destruct (fetchGithubContent f).
  - intros r Hr. unfold analyzeCodeRepository.
    destruct (fetchGithubContent f). simpl. by rewrite Hr.
  - intros text candidates Hne Hfail. unfold analyzeCodeRepository.
    destruct (fetchGithubContent f). unfold analyzeAttempt, parseReviving.
    simpl response_text.
    rewrite hasText_text, orElse_text by done. simpl negb. cbv iota.
    by rewrite Hfail.
  - intros e. split_and!; try reflexivity.
Qed.

Lemma code_analysis_always_returns_witness :
  snd (analyzeCodeRepository (fun _ => str "Unexpected token")
         (str "https://github.com/u/r") (FetchStatus false (inr []))
         (Responded {| response_text := Some (str "no json here");
                       response_candidates := None |}))
  = Returned (failedAnalysis (str "https://github.com/u/r")
       (ErrorObject "SyntaxError" (str "Unexpected token"))).
Proof.
  refine (proj1 (proj2 (proj2 (proj2 (code_analysis_always_returns
    (fun _ => str "Unexpected token") (str "https://github.com/u/r")
    (FetchStatus false (inr []))))))
    (str "no json here") None _ _).
  - discriminate.
  - vm_compute. reflexivity.
Defined.

Lemma sources_have_uri (r : response) :
  Forall (fun g => uri g <> [])
    (List.filter hasUri (map sourceOf (chunksOf r))).
Proof.
  apply Forall_forall. intros g Hg.
  apply list_elem_of_In, filter_In in Hg as [_ Hg].
  unfold hasUri in Hg. by destruct (uri g).
Qed.

Lemma orElse_empty (t : option jsstring) (default : jsstring) :
  hasText t = false -> orElse t default = default.
Proof. by destruct t as [[|c s]|]. Qed.

(** Claim C10. On a response without text, transcription returns the
    empty string and the fact check returns the query, the text [No
    information found.] and sources that all have a non-empty address,
    neither of them throwing, while rubric generation and submission
    evaluation throw. *)
Theorem empty_response_is_tolerated_by_transcription_and_fact_check
    (syntaxErrorMessage : jsstring -> jsstring) (q : jsstring) (r : response) :
  hasText (response_text r) = false ->
  transcribeAudioNote (Responded r) = ([], Returned [])
  /\ (exists found,
        checkFacts q (Responded r)
        = ([], Returned {| query := q; sources := found;
                           text := str "No information found." |})
        /\ Forall (fun g => uri g <> []) found)
  /\ generateRubricFromText syntaxErrorMessage (Responded r)
     = ([], Threw (ErrorObject "Error" (str "No response from Gemini")))
  /\ evaluateSubmission syntaxErrorMessage (Responded r)
     = ([], Threw (ErrorObject "Error" (str "No evaluation generated"))).
Proof.
  intros Hr. split_and!.
  - unfold transcribeAudioNote. by rewrite orElse_empty.
  - eexists. split; [|apply (sources_have_uri r)].
    unfold checkFacts. by rewrite orElse_empty.
  - unfold generateRubricFromText. by rewrite Hr.
  - unfold evaluateSubmission. by rewrite Hr.
Qed.

Lemma empty_response_is_tolerated_witness :
  transcribeAudioNote
    (Responded {| response_text := None; response_candidates := None |})
  = ([], Returned []).
Proof.
  refine (proj1
    (empty_response_is_tolerated_by_transcription_and_fact_check
       (fun _ => []) [] {| response_text := None; response_candidates := None |}
       _)).
  reflexivity.
Defined.

(** ** The parser never runs out of fuel *)

Lemma dropWhile_length p (s : jsstring) :
  (length (dropWhile p s) <= length s)%nat.
Proof.
  induction s as [|c t IH]; simpl; [lia|]. destruct (p c); simpl; lia.
Qed.

Lemma skipSpace_length (s : jsstring) :
  (length (skipSpace s) <= length s)%nat.
Proof. apply dropWhile_length. Qed.

Lemma consChar_shorter c o n (w r : jsstring) :
  (forall w' r', o = Some (w', r') -> (length r' < n)%nat) ->
  consChar c o = Some (w, r) -> (length r < n)%nat.
Proof.
  intros H. destruct o as [[w' r']|]; [|done].
  intros [= <- <-]. by eapply H.
Qed.

Lemma parseChars_shorter (s w r : jsstring) :
  parseChars s = Some (w, r) -> (length r < length s)%nat.
Proof.
  remember (length s) as n eqn:Hn. revert s w r Hn.
  induction n as [n IH] using lt_wf_ind. intros s w r -> H.
  destruct s as [|c t]; [done|]. simpl in H.
  destruct (c =? 34); [injection H as <- <-; simpl; lia|].
  destruct (c =? 92).
  - destruct t as [|e t']; [done|].
    destruct (e =? 117).
    + destruct t' as [|h1 [|h2 [|h3 [|h4 t'']]]]; try done.
      destruct (hex4 h1 h2 h3 h4); [|done].
      eapply consChar_shorter in H; [exact H|].
      intros w' r' Hp. simpl.
      pose proof (IH (length t'') ltac:(simpl; lia) t'' w' r' eq_refl Hp).
      lia.
    + destruct (simpleEscape e); [|done].
      eapply consChar_shorter in H; [exact H|].
      intros w' r' Hp. simpl.
      pose proof (IH (length t') ltac:(simpl; lia) t' w' r' eq_refl Hp).
      lia.
  - destruct (c <? 32); [done|].
    eapply consChar_shorter in H; [exact H|].
    intros w' r' Hp. simpl.
    pose proof (IH (length t) ltac:(simpl; lia) t w' r' eq_refl Hp).
    lia.
Qed.

Lemma fractionPart_length (s frac r : jsstring) :
  fractionPart s = Some (frac, r) -> (length r <= length s)%nat.
Proof.
  unfold fractionPart. destruct s as [|c t]; [by intros [= _ <-]|].
  destruct (c =? 46); [|by intros [= _ <-]].
  pose proof (dropWhile_length isDigit t).
  destruct (takeWhile isDigit t); [done|]. intros [= _ <-]. simpl. lia.
Qed.

Lemma exponentPart_length (s r : jsstring) ex :
  exponentPart s = Some (ex, r) -> (length r <= length s)%nat.
Proof.
  unfold exponentPart. destruct s as [|e t]; [by intros [= _ <-]|].
  destruct (isExpMark e); [|by intros [= _ <-]].
  set (t' := if startsWith isSign t then drop 1 t else t).
  assert (length t' <= length t)%nat.
  { subst t'. destruct (startsWith isSign t); [rewrite length_drop|]; lia. }
  pose proof (dropWhile_length isDigit t').
  destruct (takeWhile isDigit t'); [done|]. intros [= _ <-]. simpl. lia.
Qed.

Lemma integerPart_length (s : jsstring) :
  integerPart s <> [] ->
  (0 < length (integerPart s) <= length s)%nat.
Proof.
  unfold integerPart. intros Hne.
  assert (length (takeWhile isDigit s) <= length s)%nat as Htw.
  { rewrite <- (takeWhile_dropWhile isDigit s) at 2.
    rewrite length_app. lia. }
  destruct (startsWith (N.eqb 48) s) eqn:E.
  - destruct s; [done | simpl; lia].
  - destruct (takeWhile isDigit s); [done | simpl in *; lia].
Qed.

Lemma parseNumber_shorter (s r : jsstring) x :
  parseNumber s = Some (x, r) -> (length r < length s)%nat.
Proof.
  unfold parseNumber.
  set (s1 := if startsWith (N.eqb 45) s then drop 1 s else s).
  assert (length s1 <= length s)%nat as Hs1.
  { subst s1. destruct (startsWith _ s); [rewrite length_drop|]; lia. }
  pose proof (integerPart_length s1) as Hint.
  destruct (integerPart s1) as [|d int]; [done|].
  specialize (Hint ltac:(done)).
  destruct (fractionPart _) as [[frac s3]|] eqn:Hf; [|done].
  destruct (exponentPart s3) as [[ex rest]|] eqn:He; [|done].
  intros [= _ <-].
  apply fractionPart_length in Hf. apply exponentPart_length in He.
  rewrite length_drop in Hf. lia.
Qed.

Lemma isPrefix_length (w s : jsstring) :
  isPrefix w s = true -> (length w <= length s)%nat.
Proof.
  unfold isPrefix. intros H. apply bool_decide_eq_true in H.
  rewrite <- H at 1. rewrite length_take. lia.
Qed.

(** A successful parse consumes input. *)
Lemma parse_shorter (fuel : nat) :
  (forall s v r, parseValue fuel s = Parsed v r ->
     (length r < length s)%nat)
  /\ (forall acc s v r, parseElements fuel acc s = Parsed v r ->
        (length r < length s)%nat)
  /\ (forall acc s v r, parseMembers fuel acc s = Parsed v r ->
        (length r < length s)%nat).
Proof.
  induction fuel as [|f (IHv & IHe & IHm)]; [by split_and!|].
  split_and!.
  - intros s v r. simpl.
    pose proof (skipSpace_length s) as Hsp.
    destruct (skipSpace s) as [|c t]; [done|]. simpl in Hsp.
    pose proof (skipSpace_length t) as Hst.
    destruct (c =? 123).
    { destruct (startsWith (N.eqb 125) (skipSpace t)).
      - intros [= _ <-]. rewrite length_drop. lia.
      - intros H. apply IHm in H. lia. }
    destruct (c =? 91).
    { destruct (startsWith (N.eqb 93) (skipSpace t)).
      - intros [= _ <-]. rewrite length_drop. lia.
      - intros H. apply IHe in H. lia. }
    destruct (c =? 34).
    { destruct (parseChars t) as [[w r']|] eqn:E; [|done].
      intros [= _ <-]. apply parseChars_shorter in E. lia. }
    destruct (isDigit c || (c =? 45)).
    { destruct (parseNumber (c :: t)) as [[x r']|] eqn:E; [|done].
      intros [= _ <-]. apply parseNumber_shorter in E. simpl in E. lia. }
    destruct (isPrefix (str "true") (c :: t)) eqn:E1.
    { intros [= _ <-]. apply isPrefix_length in E1.
      rewrite length_drop. simpl in *. lia. }
    destruct (isPrefix (str "false") (c :: t)) eqn:E2.
    { intros [= _ <-]. apply isPrefix_length in E2.
      rewrite length_drop. simpl in *. lia. }
    destruct (isPrefix (str "null") (c :: t)) eqn:E3; [|done].
    intros [= _ <-]. apply isPrefix_length in E3.
    rewrite length_drop. simpl in *. lia.
  - intros acc s v r. simpl.
    destruct (parseValue f s) as [v' r'| |] eqn:E; [|done..].
    apply IHv in E. pose proof (skipSpace_length r') as Hsp.
    destruct (skipSpace r') as [|c r'']; [done|]. simpl in Hsp.
    destruct (c =? 44); [intros H; apply IHe in H; lia|].
    destruct (c =? 93); [|done]. intros [= _ <-]. lia.
  - intros acc s v r. simpl.
    pose proof (skipSpace_length s) as Hsp.
    destruct (skipSpace s) as [|c t]; [done|]. simpl in Hsp.
    destruct (c =? 34); [|done].
    destruct (parseChars t) as [[key r1]|] eqn:Ek; [|done].
    apply parseChars_shorter in Ek.
    pose proof (skipSpace_length r1) as Hsp1.
    destruct (skipSpace r1) as [|c1 r2]; [done|]. simpl in Hsp1.
    destruct (c1 =? 58); [|done].
    destruct (parseValue f r2) as [v' r3| |] eqn:E; [|done..].
    apply IHv in E. pose proof (skipSpace_length r3) as Hsp3.
    destruct (skipSpace r3) as [|c3 r4]; [done|]. simpl in Hsp3.
    destruct (c3 =? 44); [intros H; apply IHm in H; lia|].
    destruct (c3 =? 125); [|done]. intros [= _ <-]. lia.
Qed.

(** Fuel proportional to the length of the input is never used up. *)
Lemma parse_fuel (fuel : nat) :
  (forall s, (2 * length s + 1 <= fuel)%nat ->
     parseValue fuel s <> OutOfFuel)
  /\ (forall acc s, (2 * length s + 2 <= fuel)%nat ->
        parseElements fuel acc s <> OutOfFuel)
  /\ (forall acc s, (2 * length s + 2 <= fuel)%nat ->
        parseMembers fuel acc s <> OutOfFuel).
Proof.
  induction fuel as [|f (IHv & IHe & IHm)]; [split_and!; intros; lia|].
  destruct (parse_shorter f) as (Sv & Se & Sm).
  split_and!.
  - intros s Hf. simpl.
    pose proof (skipSpace_length s) as Hsp.
    destruct (skipSpace s) as [|c t]; [done|]. simpl in Hsp.
    pose proof (skipSpace_length t) as Hst.
    destruct (c =? 123).
    { destruct (startsWith (N.eqb 125) (skipSpace t)); [done|].
      apply IHm. lia. }
    destruct (c =? 91).
    { destruct (startsWith (N.eqb 93) (skipSpace t)); [done|].
      apply IHe. lia. }
    destruct (c =? 34); [by destruct (parseChars t) as [[??]|]|].
    destruct (isDigit c || (c =? 45));
      [by destruct (parseNumber (c :: t)) as [[??]|]|].
    by repeat destruct (isPrefix _ _).
  - intros acc s Hf. simpl.
    pose proof (IHv s ltac:(lia)) as Hv.
    destruct (parseValue f s) as [v' r'| |] eqn:E; [|done..].
    apply Sv in E. pose proof (skipSpace_length r') as Hsp.
    destruct (skipSpace r') as [|c r'']; [done|]. simpl in Hsp.
    destruct (c =? 44); [apply IHe; lia|].
    by destruct (c =? 93).
  - intros acc s Hf. simpl.
    pose proof (skipSpace_length s) as Hsp.
    destruct (skipSpace s) as [|c t]; [done|]. simpl in Hsp.
    destruct (c =? 34); [|done].
    destruct (parseChars t) as [[key r1]|] eqn:Ek; [|done].
    apply parseChars_shorter in Ek.
    pose proof (skipSpace_length r1) as Hsp1.
    destruct (skipSpace r1) as [|c1 r2]; [done|]. simpl in Hsp1.
    destruct (c1 =? 58); [|done].
    pose proof (IHv r2 ltac:(lia)) as Hv.
    destruct (parseValue f r2) as [v' r3| |] eqn:E; [|done..].
    apply Sv in E. pose proof (skipSpace_length r3) as Hsp3.
    destruct (skipSpace r3) as [|c3 r4]; [done|]. simpl in Hsp3.
    destruct (c3 =? 44); [apply IHm; lia|].
    by destruct (c3 =? 125).
Qed.

(** [JSON_parse] fails only where the text is not JSON. *)
Lemma JSON_parse_fuel (text : jsstring) :
  parseValue (2 * length text + 2) text <> OutOfFuel.
Proof. apply parse_fuel. lia. Qed.

(** ** The model on sample inputs *)

Example reLongDecimal_sample :
  reLongDecimal (str "12.3456789x") = Some (str "12.345678", str "x")
  /\ reLongDecimal (str "12.345678x") = None
  /\ reLongDecimal (str ".3456789") = None.
Proof. split_and!; reflexivity. Qed.

Example reScientific_sample :
  reScientific (str "5.0018e+00,") = Some (str "5.00", str ",")
  /\ reScientific (str "5.1E7") = Some (str "5.1", [])
  /\ reScientific (str "5e7") = None
  /\ reScientific (str "5.1e+") = None.
Proof. split_and!; reflexivity. Qed.

Example stripFences_sample :
  stripFences (str "a```json{}```b``") = str "a{}b``".
Proof. reflexivity. Qed.

Example trim_sample :
  trim ([32; 10; 65279] ++ str "a b" ++ [9; 160; 8232]) = str "a b".
Proof. reflexivity. Qed.

(** The literals of the kernel are read by correct rounding, as those of
    [JSON.parse] are. *)
Example numberOfDecimal_sample :
  numberOfDecimal false 1005 (-3) = 1.005%float
  /\ numberOfDecimal true 125 (-3) = (-0.125)%float
  /\ numberOfDecimal false 1 (-1) = 0.1%float
  /\ numberOfDecimal false 5 (-324) = 5e-324%float
  /\ numberOfDecimal false 17976931348623157 292 = 1.7976931348623157e308%float
  /\ numberOfDecimal false 9007199254740993 0 = 9007199254740992%float
  /\ numberOfDecimal false 1 400 = infinity
  /\ numberOfDecimal true 0 0 = neg_zero.
Proof. split_and!; vm_compute; reflexivity. Qed.

Example Math_round_sample :
  Math_round 2.5 = 3%float /\ Math_round (-2.5) = (-2)%float
  /\ Math_round 0.49999999999999994 = 0%float
  /\ Math_round (-0.5) = neg_zero /\ Math_round (-0.2) = neg_zero
  /\ Math_round 4503599627370497 = 4503599627370497%float
  /\ Math_round infinity = infinity.
Proof. split_and!; vm_compute; reflexivity. Qed.

Example JSON_parse_sample :
  JSON_parse (str "[1, true, null, {" ++ quoted "a" ++ str ": [] , "
                ++ quoted "a" ++ str ":" ++ quoted "A\n" ++ str "}] ")
    (fun _ v => v)
  = Some (VArray [VNumber 1; VBool true; VNull;
                  VObject [(str "a", VString [65; 10])]])
  /\ JSON_parse (str "[1,]") (fun _ v => v) = None
  /\ JSON_parse (str "01") (fun _ v => v) = None
  /\ JSON_parse (str "{} x") (fun _ v => v) = None
  /\ JSON_parse (str "no json here") (fun _ v => v) = None.
Proof. split_and!; vm_compute; reflexivity. Qed.

(** The first scenario of the specification. *)
Example scoreSample_decodes :
  cleanJson scoreSample
  = str "{" ++ quoted "final_score" ++ str ": 8.500000, "
      ++ quoted "overall_feedback" ++ str ": " ++ quoted "Good" ++ str "}"
  /\ JSON_parse (cleanJson scoreSample) jsonReviver
     = Some (VObject [(str "final_score", VNumber 8.5);
                      (str "overall_feedback", VString (str "Good"))]).
Proof. split; vm_compute; reflexivity. Qed.

(** ** Occurrences of a word *)

Lemma isPrefix_true (w s : jsstring) :
  isPrefix w s = true <-> exists rest, s = w ++ rest.
Proof.
  unfold isPrefix. rewrite bool_decide_eq_true. split.
  - intros H. exists (drop (length w) s).
    rewrite <- H at 1. by rewrite take_drop.
  - intros [rest ->]. by rewrite take_app_length.
Qed.

Lemma isPrefix_app (w rest : jsstring) : isPrefix w (w ++ rest) = true.
Proof. apply isPrefix_true. by exists rest. Qed.

Lemma includes_true (w s : jsstring) :
  includes w s = true <-> exists a b, s = a ++ w ++ b.
Proof.
  split.
  - induction s as [|c t IH]; simpl; rewrite orb_true_iff.
    + intros [H|H]; [|done]. apply isPrefix_true in H as [rest ->].
      by exists [], rest.
    + intros [H|H].
      * apply isPrefix_true in H as [rest ->]. by exists [], rest.
      * destruct (IH H) as (a & b & ->). by exists (c :: a), b.
  - intros (a & b & ->). induction a as [|c a IH].
    + simpl. destruct (w ++ b) eqn:E; simpl; rewrite <- E, isPrefix_app; done.
    + simpl. by rewrite IH, orb_true_r.
Qed.

Lemma includes_false (w s : jsstring) :
  includes w s = false <-> forall a b, s <> a ++ w ++ b.
Proof.
  rewrite <- not_true_iff_false, includes_true. split.
  - intros H a b E. apply H. by exists a, b.
  - intros H (a & b & E). by apply (H a b).
Qed.

(** A word absent from a text is absent from every part of it. *)
Lemma includes_part (w a x b : jsstring) :
  includes w (a ++ x ++ b) = false -> includes w x = false.
Proof.
  rewrite !includes_false. intros H a' b' ->. apply (H (a ++ a') (b' ++ b)).
  by rewrite <- !app_assoc.
Qed.

Lemma includes_longer (w v s : jsstring) :
  includes w s = false -> includes (w ++ v) s = false.
Proof.
  rewrite !includes_false. intros H a b ->. apply (H a (v ++ b)).
  by rewrite <- !app_assoc.
Qed.

(** ** Literal patterns *)

Lemma rlit_spec {R} (w s : jsstring) (k : jsstring -> option R) :
  rlit w s k = if isPrefix w s then k (drop (length w) s) else None.
Proof.
  revert s. induction w as [|c w IH]; intros s.
  - done.
  - simpl. unfold rseq. destruct s as [|x t].
    + done.
    + rewrite rclass_cons, IH. unfold isPrefix. simpl.
      destruct (N.eqb_spec c x) as [->|Hne].
      * destruct (decide (take (length w) t = w)) as [E|E].
        -- by rewrite !bool_decide_eq_true_2 by (by rewrite ?E).
        -- rewrite !bool_decide_eq_false_2; [done| |done]. by intros [=].
      * rewrite bool_decide_eq_false_2; [done|]. by intros [= ->].
Qed.

Lemma rlit_sep (w u s : jsstring) c :
  c ∉ w ->
  rlit w (u ++ c :: s) (fun rest => Some ([] : jsstring, rest))
  = (fun '(repl, rest) => (repl, rest ++ c :: s))
      <$> rlit w u (fun rest => Some ([] : jsstring, rest)).
Proof.
  revert u. induction w as [|x w IH]; intros u Hc.
  - done.
  - apply not_elem_of_cons in Hc as [Hx Hw]. simpl. unfold rseq.
    destruct u as [|y u]; simpl.
    + destruct (N.eqb_spec x c) as [->|]; done.
    + destruct (x =? y); [by apply IH | done].
Qed.

Lemma rlit_absent (w s : jsstring) :
  w <> [] -> includes w s = false ->
  replaceAll (fun s => rlit w s (fun rest => Some ([] : jsstring, rest))) s = s.
Proof.
  intros Hw. induction s as [|c t IH]; intros H.
  - unfold replaceAll. simpl. rewrite rlit_spec.
    destruct w; [done|]. done.
  - simpl in H. apply orb_false_iff in H as [H1 H2].
    unfold replaceAll in *. simpl. rewrite rlit_spec, H1. by rewrite IH.
Qed.

(** ** No fence marker is left *)

Lemma ticks_cons c s :
  ticks (c :: s) = if backtick =? c then S (ticks s) else O.
Proof. unfold ticks. cbn [takeWhile]. by destruct (backtick =? c). Qed.

Lemma isPrefix_fence (s : jsstring) : isPrefix fence s = (3 <=? ticks s)%nat.
Proof.
  apply eq_true_iff_eq. rewrite isPrefix_true, Nat.leb_le. split.
  - intros [rest ->]. unfold ticks. simpl. lia.
  - destruct s as [|a [|b [|c r]]]; rewrite ?ticks_cons;
      repeat (match goal with
              | |- context [N.eqb backtick ?x] =>
                  destruct (N.eqb_spec backtick x) as [<-|]
              end);
      try (unfold ticks; simpl; lia).
    intros _. by exists r.
Qed.

Lemma reFence_spec s :
  reFence s = if isPrefix fence s then Some ([], drop 3 s) else None.
Proof. unfold reFence. by rewrite rlit_spec. Qed.

Lemma replaceAll_reFence_ticks (s : jsstring) :
  includes fence (replaceAll reFence s) = false
  /\ (ticks (replaceAll reFence s) <= ticks s)%nat.
Proof.
  apply (replaceAll_ind reFence reFence_consumes (fun s out =>
    includes fence out = false /\ (ticks out <= ticks s)%nat)).
  - done.
  - intros c t E [IH1 IH2].
    rewrite reFence_spec in E.
    destruct (isPrefix fence (c :: t)) eqn:Hp; [done|].
    rewrite isPrefix_fence in Hp. apply Nat.leb_gt in Hp.
    assert (ticks (c :: replaceAll reFence t) <= ticks (c :: t))%nat as Hle.
    { rewrite !ticks_cons. destruct (backtick =? c); lia. }
    split; [|done]. simpl. rewrite IH1, orb_false_r, isPrefix_fence.
    apply Nat.leb_gt. lia.
  - intros m repl rest E _ [IH1 IH2].
    apply reFence_inv in E as [-> E]. apply app_inv_tail in E as ->.
    split; [done|]. simpl. unfold ticks in *. simpl. lia.
Qed.

Lemma stripFences_no_fence (text : jsstring) :
  includes fence (stripFences text) = false.
Proof. apply replaceAll_reFence_ticks. Qed.

Lemma stripFences_absent (s : jsstring) :
  includes fence s = false -> stripFences s = s.
Proof.
  intros H. unfold stripFences.
  assert (replaceAll reFenceJson s = s) as ->.
  { apply (rlit_absent fenceJson); [done|].
    by apply (includes_longer fence (str "json")). }
  by apply (rlit_absent fence).
Qed.

Lemma stripFences_sep (u s : jsstring) c :
  c ∉ fenceJson ->
  stripFences (u ++ c :: s) = stripFences u ++ c :: stripFences s.
Proof.
  intros Hc. unfold stripFences.
  rewrite (replaceAll_sep reFenceJson reFenceJson_consumes
             (fun c => bool_decide (c ∉ fenceJson))).
  - apply (replaceAll_sep reFence reFence_consumes
             (fun c => bool_decide (c ∉ fenceJson))).
    + intros u' c' s' H. apply bool_decide_eq_true in H.
      apply rlit_sep.
      change fenceJson with (fence ++ str "json") in H.
      by apply not_elem_of_app in H as [H _].
    + by apply bool_decide_eq_true_2.
  - intros u' c' s' H. apply bool_decide_eq_true in H. by apply rlit_sep.
  - by apply bool_decide_eq_true_2.
Qed.

Lemma stripFences_nil : stripFences [] = [].
Proof. done. Qed.

Lemma stripFences_object (body : jsstring) :
  stripFences (lbrace :: body ++ [rbrace])
  = lbrace :: stripFences body ++ [rbrace].
Proof.
  assert (lbrace ∉ fenceJson) as Hl
    by (apply (bool_decide_unpack _); vm_compute; exact I).
  assert (rbrace ∉ fenceJson) as Hr
    by (apply (bool_decide_unpack _); vm_compute; exact I).
  pose proof (stripFences_sep [] (body ++ [rbrace]) lbrace Hl) as H1.
  pose proof (stripFences_sep body [] rbrace Hr) as H2.
  simpl in H1. by rewrite H1, H2.
Qed.

(** ** What [trim] leaves *)

Lemma trimStart_startsWith (s : jsstring) :
  startsWith isTrimSpace (trimStart s) = false.
Proof.
  induction s as [|c t IH]; [done|]. simpl.
  destruct (isTrimSpace c) eqn:E; [done|]. simpl. done.
Qed.

Lemma trimStart_spaces (s : jsstring) :
  exists w, s = w ++ trimStart s /\ allOf isTrimSpace w.
Proof.
  induction s as [|c t (w & IH & Hw)].
  - exists []. split; [done | constructor].
  - simpl. destruct (isTrimSpace c) eqn:E.
    + exists (c :: w). split; [simpl; by rewrite <- IH | by constructor].
    + exists []. split; [done | constructor].
Qed.

Lemma trimEnd_spaces (s : jsstring) :
  exists w, s = trimEnd s ++ w /\ allOf isTrimSpace w.
Proof.
  unfold trimEnd. destruct (trimStart_spaces (rev s)) as (w & E & Hw).
  exists (rev w). split.
  - rewrite <- rev_app_distr, <- E. by rewrite rev_involutive.
  - unfold allOf in *. by apply Forall_rev.
Qed.

(** [trim] removes white space only: the text is the result between two
    runs of white space. *)
Lemma trim_spaces (s : jsstring) :
  exists w1 w2, s = w1 ++ trim s ++ w2
                /\ allOf isTrimSpace w1 /\ allOf isTrimSpace w2.
Proof.
  destruct (trimStart_spaces s) as (w1 & E1 & H1).
  destruct (trimEnd_spaces (trimStart s)) as (w2 & E2 & H2).
  exists w1, w2. unfold trim. by rewrite <- E2, <- E1.
Qed.

Lemma trim_trimmed (s : jsstring) :
  startsWith isTrimSpace (trim s) = false
  /\ startsWith isTrimSpace (rev (trim s)) = false.
Proof.
  split.
  - pose proof (trimStart_startsWith s) as H.
    destruct (trimEnd_spaces (trimStart s)) as (w & E & _).
    fold (trim s) in E. destruct (trim s) as [|c t]; [done|].
    rewrite E in H. done.
  - unfold trim, trimEnd. rewrite rev_involutive. apply trimStart_startsWith.
Qed.

Lemma trim_idempotent (s : jsstring) : trim (trim s) = trim s.
Proof. apply trim_id; apply trim_trimmed. Qed.

(** ** Parts of a text *)

Lemma substring_part a b (s : jsstring) :
  exists u v, s = u ++ substring a b s ++ v.
Proof.
  unfold substring.
  set (m := Nat.min (clampIndex s a) (clampIndex s b)).
  set (n := (Nat.max (clampIndex s a) (clampIndex s b) - m)%nat).
  exists (take m s), (drop n (drop m s)).
  by rewrite take_drop, take_drop.
Qed.

Lemma braceSpan_part (s : jsstring) : exists u v, s = u ++ braceSpan s ++ v.
Proof.
  unfold braceSpan. destruct (_ && _).
  - apply substring_part.
  - exists [], []. by rewrite app_nil_r.
Qed.

(** Whether a text has an opening brace followed, somewhere, by a closing
    one can be decided. *)
Lemma braceBounded_dec (s : jsstring) :
  (exists span, braceBounded s span) \/ (forall span, ~ braceBounded s span).
Proof.
  destruct (decide (lbrace ∈ s)) as [Hin|Hout].
  - destruct (indexOf_split _ _ Hin) as (pre & r & -> & Hpre).
    destruct (decide (rbrace ∈ r)) as [Hr|Hr].
    + left. destruct (lastIndexOf_split _ _ Hr) as (body & post & -> & Hpost).
      exists (lbrace :: body ++ [rbrace]), pre, body, post. done.
    + right. intros span (pre' & body & post & E & Hpre' & _ & _).
      assert (length pre = length pre') as Hlen.
      { apply Nat2Z.inj.
        rewrite <- (indexOf_app lbrace pre r Hpre), E.
        by apply indexOf_app. }
      apply app_inj_1 in E as [_ E]; [|done]. injection E as ->.
      apply Hr. apply elem_of_app. right. apply elem_of_cons. by left.
  - right. intros span (pre & body & post & -> & _).
    apply Hout. apply elem_of_app. right. apply elem_of_cons. by left.
Qed.

Lemma allOf_not_elem (p : char -> bool) (w : jsstring) c :
  allOf p w -> p c = false -> c ∉ w.
Proof.
  intros Hw Hc Hin. unfold allOf in Hw. rewrite Forall_forall in Hw.
  specialize (Hw c Hin). congruence.
Qed.

(** Trimming neither creates nor removes a brace span. *)
Lemma trim_unbounded (s : jsstring) :
  (forall span, ~ braceBounded s span) ->
  forall span, ~ braceBounded (trim s) span.
Proof.
  intros Hno span (pre & body & post & E & Hpre & Hpost & ->).
  destruct (trim_spaces s) as (w1 & w2 & Es & H1 & H2).
  apply (Hno (lbrace :: body ++ [rbrace])).
  exists (w1 ++ pre), body, (post ++ w2). split_and!; [| | |done].
  - rewrite Es, E. rewrite <- !app_assoc. simpl. by rewrite <- !app_assoc.
  - apply not_elem_of_app. split; [|done]. by eapply allOf_not_elem.
  - apply not_elem_of_app. split; [done|]. by eapply allOf_not_elem.
Qed.

(** ** Fence stripping reaches a fixed point *)

(** Property X1. After the two fence replacements of [cleanJson] no fence
    marker is left, although deleting a marker can bring backticks
    together: the result contains neither three backticks in a row nor the
    opening marker, stripping it again changes nothing, and the text the
    first revision returns is free of markers as well. *)
Theorem fence_stripping_leaves_no_marker (text : jsstring) :
  includes fence (stripFences text) = false
  /\ includes fenceJson (stripFences text) = false
  /\ stripFences (stripFences text) = stripFences text
  /\ includes fence (cleanJson_v1 text) = false.
Proof.
  pose proof (stripFences_no_fence text) as H. split_and!.
  - done.
  - by apply (includes_longer fence (str "json")).
  - by apply stripFences_absent.
  - unfold cleanJson_v1.
    destruct (trim_spaces (braceSpan (stripFences text)))
      as (w1 & w2 & E & _ & _).
    apply (includes_part _ w1 _ w2). rewrite <- E.
    destruct (braceSpan_part (stripFences text)) as (u & v & E').
    apply (includes_part _ u _ v). by rewrite <- E'.
Qed.

(** ** Text around the object *)

Lemma braceSpan_around (before body after : jsstring) :
  (lbrace ∉ before) -> (rbrace ∉ after) ->
  braceSpan (stripFences (before ++ lbrace :: body ++ rbrace :: after))
  = lbrace :: stripFences body ++ [rbrace].
Proof.
  intros Hbefore Hafter.
  assert (lbrace ∉ fenceJson) as Hl by solve_notin.
  assert (rbrace ∉ fenceJson) as Hr by solve_notin.
  rewrite (stripFences_sep before _ lbrace Hl).
  rewrite (stripFences_sep body after rbrace Hr).
  apply braceSpan_bounded.
  exists (stripFences before), (stripFences body), (stripFences after).
  split_and!; [done| | |done].
  - intros Hin. apply Hbefore.
    by apply (elem_of_sublist _ _ _ Hin), stripFences_sublist.
  - intros Hin. apply Hafter.
    by apply (elem_of_sublist _ _ _ Hin), stripFences_sublist.
Qed.

Lemma normalizeNumbers_object (body : jsstring) :
  normalizeNumbers (lbrace :: body ++ [rbrace])
  = lbrace :: normalizeNumbers body ++ [rbrace].
Proof.
  rewrite normalizeNumbers_nondigit by done.
  by rewrite normalizeNumbers_sep, normalizeNumbers_nil.
Qed.

(** Property X2. Text before the first opening brace and after the last
    closing brace has no influence on what [cleanJson] returns, in either
    revision: with no opening brace before the object and no closing brace
    after it, the result is the one for the object alone, namely the
    object with its fence markers removed and (in the later revision) its
    numbers normalized. Fence markers, prose and stray braces of the other
    kind around the object are all ignored. *)
Theorem text_around_the_object_is_ignored (before body after : jsstring) :
  (lbrace ∉ before) -> (rbrace ∉ after) ->
  cleanJson (before ++ lbrace :: body ++ rbrace :: after)
    = cleanJson (lbrace :: body ++ [rbrace])
  /\ cleanJson_v1 (before ++ lbrace :: body ++ rbrace :: after)
    = cleanJson_v1 (lbrace :: body ++ [rbrace])
  /\ cleanJson_v1 (lbrace :: body ++ [rbrace])
    = lbrace :: stripFences body ++ [rbrace]
  /\ cleanJson (lbrace :: body ++ [rbrace])
    = lbrace :: normalizeNumbers (stripFences body) ++ [rbrace].
Proof.
  intros Hbefore Hafter.
  pose proof (braceSpan_around before body after Hbefore Hafter) as E1.
  pose proof (braceSpan_around [] body [] (not_elem_of_nil _)
                (not_elem_of_nil _)) as E2.
  simpl in E2. unfold cleanJson, cleanJson_v1.
  rewrite E1, E2, normalizeNumbers_object, !trim_braces. done.
Qed.

Lemma text_around_the_object_is_ignored_witness :
  cleanJson (str "Sure :} ```json" ++ 10 ::
             lbrace :: (quoted "final_score" ++ str ": 8.5") ++ rbrace ::
             10 :: str "``` Hope this helps.")
  = cleanJson (lbrace :: (quoted "final_score" ++ str ": 8.5") ++ [rbrace]).
Proof.
  refine (proj1 (text_around_the_object_is_ignored
            (str "Sure :} ```json" ++ [10])
            (quoted "final_score" ++ str ": 8.5")
            (10 :: str "``` Hope this helps.") _ _)); solve_notin.
Defined.

(** ** The result is trimmed *)

(** Property X3. What [cleanJson] hands to [JSON.parse] neither begins nor
    ends with white space or a line terminator, in both revisions, and
    trimming it again changes nothing. *)
Theorem sanitized_text_is_trimmed (text : jsstring) :
  startsWith isTrimSpace (cleanJson text) = false
  /\ startsWith isTrimSpace (rev (cleanJson text)) = false
  /\ trim (cleanJson text) = cleanJson text
  /\ startsWith isTrimSpace (cleanJson_v1 text) = false
  /\ startsWith isTrimSpace (rev (cleanJson_v1 text)) = false
  /\ trim (cleanJson_v1 text) = cleanJson_v1 text.
Proof.
  unfold cleanJson, cleanJson_v1.
  split_and!; try apply trim_trimmed; apply trim_idempotent.
Qed.

(** ** The first revision is idempotent *)

(** Property X4. The first revision of [cleanJson] (fence stripping, brace
    span, trimming) is idempotent on every text: sanitizing its result
    again returns it unchanged. *)
Theorem cleanJson_v1_idempotent (text : jsstring) :
  cleanJson_v1 (cleanJson_v1 text) = cleanJson_v1 text.
Proof.
  assert (includes fence (cleanJson_v1 text) = false) as Hfree.
  { unfold cleanJson_v1.
    destruct (trim_spaces (braceSpan (stripFences text)))
      as (w1 & w2 & E & _ & _).
    apply (includes_part _ w1 _ w2). rewrite <- E.
    destruct (braceSpan_part (stripFences text)) as (u & v & E').
    apply (includes_part _ u _ v). rewrite <- E'.
    apply stripFences_no_fence. }
  unfold cleanJson_v1 at 1. rewrite (stripFences_absent _ Hfree).
  unfold cleanJson_v1.
  destruct (braceBounded_dec (stripFences text)) as [[span Hb]|Hno].
  - rewrite (braceSpan_bounded _ _ Hb).
    destruct Hb as (pre & body & post & _ & _ & _ & ->).
    rewrite trim_braces.
    rewrite (braceSpan_bounded _ (lbrace :: body ++ [rbrace])).
    + apply trim_braces.
    + exists [], body, [].
      split_and!; [done | apply not_elem_of_nil | apply not_elem_of_nil | done].
  - rewrite (braceSpan_unbounded _ Hno).
    rewrite (braceSpan_unbounded _ (trim_unbounded _ Hno)).
    apply trim_idempotent.
Qed.

(** ** Numbers that are short already *)

Lemma normalizeNumbers_short (s : jsstring) :
  literalsShort s -> normalizeNumbers s = s.
Proof.
  induction 1 as [|c s Hc _ IH|l post Hl Hpost _ IH].
  - apply normalizeNumbers_nil.
  - rewrite normalizeNumbers_nondigit by done. by rewrite IH.
  - destruct Hl as [int Hint Hne|int frac Hint Hne Hfrac Hlen|int x Hint Hne Hx].
    + rewrite normalizeNumbers_integer by done. by rewrite IH.
    + rewrite <- !app_assoc. simpl.
      rewrite normalizeNumbers_decimal by done.
      rewrite take_ge by done. by rewrite IH.
    + rewrite <- !app_assoc.
      rewrite normalizeNumbers_exponent by done. by rewrite IH.
Qed.

(** Property X5. The numeric rewrites of the later revision leave short
    numbers alone: when every numeric literal of the selected span is an
    integer, a decimal with at most six fraction digits or an integer with
    an exponent part, each delimited from what follows, the rewrites are
    the identity on the span and the later revision of [cleanJson] returns
    exactly what the first revision returns. *)
Theorem short_numbers_are_left_alone (text : jsstring) :
  literalsShort (braceSpan (stripFences text)) ->
  normalizeNumbers (braceSpan (stripFences text))
    = braceSpan (stripFences text)
  /\ cleanJson text = cleanJson_v1 text.
Proof.
  intros H. unfold cleanJson, cleanJson_v1.
  by rewrite (normalizeNumbers_short _ H).
Qed.

Lemma short_numbers_are_left_alone_witness :
  cleanJson (str "{" ++ quoted "score" ++ str ": 8.25, " ++ quoted "max"
             ++ str ": 10, " ++ quoted "weight" ++ str ": 2e-1}")
  = cleanJson_v1 (str "{" ++ quoted "score" ++ str ": 8.25, " ++ quoted "max"
             ++ str ": 10, " ++ quoted "weight" ++ str ": 2e-1}").
Proof.
  apply short_numbers_are_left_alone.
  assert (braceSpan (stripFences
            (str "{" ++ quoted "score" ++ str ": 8.25, " ++ quoted "max"
             ++ str ": 10, " ++ quoted "weight" ++ str ": 2e-1}"))
          = str "{" ++ quoted "score" ++ str ": "
            ++ (str "8" ++ 46 :: str "25")
            ++ str ", " ++ quoted "max" ++ str ": "
            ++ str "10" ++ str ", " ++ quoted "weight" ++ str ": "
            ++ (str "2" ++ str "e-1") ++ str "}") as ->
    by (vm_compute; reflexivity).
  do 10 (apply literalsShort_char; [reflexivity|]).
  apply (literalsShort_literal (str "8" ++ 46 :: str "25")).
  { apply short_decimal; solve_allOf || discriminate. }
  { reflexivity. }
  do 9 (apply literalsShort_char; [reflexivity|]).
  apply (literalsShort_literal (str "10")).
  { apply short_integer; solve_allOf || discriminate. }
  { reflexivity. }
  do 12 (apply literalsShort_char; [reflexivity|]).
  apply (literalsShort_literal (str "2" ++ str "e-1")).
  { apply short_exponent; try (solve_allOf || discriminate).
    exists 101, (str "-"), (str "1"). split_and!;
      [reflexivity | reflexivity | | solve_allOf | discriminate].
    right. by exists 45. }
  { reflexivity. }
  apply literalsShort_char; [reflexivity|]. apply literalsShort_nil.
Defined.

(** ** The patterns anchored at the two ends *)

Lemma rstar_strict {R} p s (k : jsstring -> option R) :
  (forall t, startsWith p t = true -> k t = None) ->
  rstar p s k = k (dropWhile p s).
Proof.
  intros Hk. induction s as [|c t IH]; [done|]. simpl.
  destruct (p c) eqn:Hc; [|done]. rewrite IH.
  destruct (k (dropWhile p t)); [done|]. apply Hk. simpl. done.
Qed.

Lemma rstar_total {R} p s (f : jsstring -> R) :
  rstar p s (fun r => Some (f r)) = Some (f (dropWhile p s)).
Proof.
  induction s as [|c t IH]; [done|]. simpl.
  destruct (p c); [|done]. by rewrite IH.
Qed.

Lemma reFenceJsonStart_spec s :
  reFenceJsonStart s =
    if isPrefix fenceJson s
    then Some ([], dropWhile isTrimSpace (drop (length fenceJson) s))
    else None.
Proof. unfold reFenceJsonStart. by rewrite rlit_spec, rstar_total. Qed.

Lemma reFenceStart_spec s :
  reFenceStart s =
    if isPrefix fence s
    then Some ([], dropWhile isTrimSpace (drop (length fence) s))
    else None.
Proof. unfold reFenceStart. by rewrite rlit_spec, rstar_total. Qed.

Lemma reFenceEnd_spec s :
  reFenceEnd s =
    if bool_decide (dropWhile isTrimSpace s = fence) then Some ([], [])
    else None.
Proof.
  unfold reFenceEnd. rewrite rstar_strict.
  - rewrite rlit_spec. case_bool_decide as E.
    + rewrite E. done.
    + destruct (isPrefix fence (dropWhile isTrimSpace s)) eqn:Hp; [|done].
      apply isPrefix_true in Hp as [rest Hp]. rewrite Hp.
      rewrite drop_app_length. destruct rest; [|done].
      by rewrite app_nil_r in Hp.
  - intros t Ht. rewrite rlit_spec.
    destruct (isPrefix fence t) eqn:Hp; [|done].
    apply isPrefix_true in Hp as [rest ->]. done.
Qed.

Lemma isPrefix_fenceJson s : isPrefix fenceJson s = true -> isPrefix fence s = true.
Proof.
  rewrite !isPrefix_true. intros [rest ->]. by exists (str "json" ++ rest).
Qed.

Lemma replaceFirstMatch_match (re : rule) (s repl rest : jsstring) :
  re s = Some (repl, rest) -> replaceFirstMatch re s = repl ++ rest.
Proof. intros E. destruct s; simpl; by rewrite E. Qed.

Lemma replaceFirstMatch_copy (re : rule) (m r : jsstring) :
  (forall u v, m = u ++ v -> v <> [] -> re (v ++ r) = None) ->
  replaceFirstMatch re (m ++ r) = m ++ replaceFirstMatch re r.
Proof.
  induction m as [|c m IH]; intros H; [done|].
  pose proof (H [] (c :: m) eq_refl ltac:(done)) as E.
  cbn [app replaceFirstMatch] in *. rewrite E. f_equal. apply IH.
  intros u v -> Hv. by apply (H (c :: u) v).
Qed.

Lemma rev_suffix_startsWith p (u v : jsstring) :
  v <> [] -> startsWith p (rev (u ++ v)) = startsWith p (rev v).
Proof.
  intros Hv. rewrite rev_app_distr.
  destruct (rev v) eqn:E; [|done].
  apply (f_equal (@rev N)) in E. rewrite rev_involutive in E. done.
Qed.

(** What remains when white space is dropped from a text that ends with
    another character is not empty. *)
Lemma dropWhile_keeps_last p (v rest : jsstring) :
  v <> [] -> startsWith p (rev v) = false ->
  exists v', v' <> [] /\ dropWhile p (v ++ rest) = v' ++ rest.
Proof.
  induction v as [|c t IH]; intros Hne Hlast; [done|].
  simpl. destruct (p c) eqn:Hc.
  - destruct t as [|d t']; [simpl in Hlast; congruence|].
    apply IH; [done|].
    by rewrite <- (rev_suffix_startsWith p [c] (d :: t')).
  - by exists (c :: t).
Qed.

Lemma replaceFirstMatch_fenced (obj ws : jsstring) :
  startsWith isTrimSpace (rev obj) = false ->
  allOf isTrimSpace ws ->
  replaceFirstMatch reFenceEnd (obj ++ ws ++ fence) = obj.
Proof.
  intros Hlast Hws. rewrite replaceFirstMatch_copy.
  - assert (reFenceEnd (ws ++ fence) = Some ([], [])) as E.
    { rewrite reFenceEnd_spec, dropWhile_app by done. done. }
    rewrite (replaceFirstMatch_match _ _ _ _ E). by rewrite app_nil_r.
  - intros u v -> Hv. rewrite reFenceEnd_spec.
    rewrite (rev_suffix_startsWith _ u v Hv) in Hlast.
    destruct (dropWhile_keeps_last isTrimSpace v (ws ++ fence) Hv Hlast)
      as (v' & Hv' & ->).
    case_bool_decide as E; [|done]. exfalso.
    apply (f_equal length) in E. rewrite !length_app in E.
    destruct v'; [done|]. simpl in E. lia.
Qed.

(** The third revision on a payload between an opening and a closing
    fence. *)
Lemma cleanJson_v3_fenced (ws1 obj ws2 : jsstring) :
  allOf isTrimSpace ws1 -> allOf isTrimSpace ws2 ->
  startsWith isTrimSpace obj = false ->
  startsWith (N.eqb backtick) obj = false ->
  startsWith isTrimSpace (rev obj) = false ->
  obj <> [] ->
  cleanJson_v3 (fenceJson ++ ws1 ++ obj ++ ws2 ++ fence) = obj.
Proof.
  intros H1 H2 Hhead Htick Hlast Hne. unfold cleanJson_v3.
  assert (replaceAtStart reFenceJsonStart (fenceJson ++ ws1 ++ obj ++ ws2 ++ fence)
          = obj ++ ws2 ++ fence) as ->.
  { unfold replaceAtStart. rewrite reFenceJsonStart_spec, isPrefix_app.
    rewrite drop_app_length. simpl. apply dropWhile_app; [done|].
    by destruct obj. }
  assert (replaceAtStart reFenceStart (obj ++ ws2 ++ fence)
          = obj ++ ws2 ++ fence) as ->.
  { unfold replaceAtStart. rewrite reFenceStart_spec.
    destruct (isPrefix fence (obj ++ ws2 ++ fence)) eqn:Hp; [|done].
    apply isPrefix_true in Hp as [rest Hp].
    destruct obj as [|c o]; [done|]. injection Hp as -> _. done. }
  rewrite replaceFirstMatch_fenced by done.
  by apply trim_id.
Qed.

Lemma replaceFirstMatch_none (re : rule) (s : jsstring) :
  (forall u v, s = u ++ v -> re v = None) -> replaceFirstMatch re s = s.
Proof.
  induction s as [|c t IH]; intros H.
  - simpl. by rewrite (H [] []).
  - cbn [replaceFirstMatch]. rewrite (H [] (c :: t)) by done. f_equal.
    apply IH. intros u v ->. by apply (H (c :: u) v).
Qed.

Lemma fence_palindrome : rev fence = fence.
Proof. done. Qed.

(** ** The third revision *)

(** Property X6. The revision of lines 567-569 unwraps a fenced payload:
    for a text made of the opening marker, white space, a payload, white
    space and the closing marker it returns the payload, provided the
    payload is not empty, begins with a character that is neither white
    space nor a backtick and does not end with white space. Fence markers
    inside the payload are kept. *)
Theorem cleanJson_v3_unwraps_a_fenced_payload (ws1 payload ws2 : jsstring) :
  allOf isTrimSpace ws1 -> allOf isTrimSpace ws2 ->
  payload <> [] ->
  startsWith isTrimSpace payload = false ->
  startsWith (N.eqb backtick) payload = false ->
  startsWith isTrimSpace (rev payload) = false ->
  cleanJson_v3 (fenced ws1 payload ws2) = payload.
Proof. intros. by apply cleanJson_v3_fenced. Qed.

Lemma cleanJson_v3_unwraps_a_fenced_payload_witness :
  cleanJson_v3 (fenced [10] (str "[1, 2, ```, 3]") [32; 10]) = str "[1, 2, ```, 3]".
Proof.
  apply cleanJson_v3_unwraps_a_fenced_payload;
    solve [solve_allOf | discriminate | reflexivity].
Defined.

(** Property X7. The revision of lines 567-569 removes a fence at the two
    ends of the text and nowhere else: a text that neither begins nor ends
    with three backticks is only trimmed, so prose around the object and
    fence markers in the middle of the text reach [JSON.parse]. *)
Theorem cleanJson_v3_only_looks_at_the_ends (text : jsstring) :
  isPrefix fence text = false -> isPrefix fence (rev text) = false ->
  cleanJson_v3 text = trim text.
Proof.
  intros Hhead Hlast. unfold cleanJson_v3.
  assert (replaceAtStart reFenceJsonStart text = text) as ->.
  { unfold replaceAtStart. rewrite reFenceJsonStart_spec.
    destruct (isPrefix fenceJson text) eqn:Hp; [|done].
    apply isPrefix_fenceJson in Hp. congruence. }
  assert (replaceAtStart reFenceStart text = text) as ->.
  { unfold replaceAtStart. by rewrite reFenceStart_spec, Hhead. }
  rewrite replaceFirstMatch_none; [done|].
  intros u v ->. rewrite reFenceEnd_spec.
  case_bool_decide as E; [|done]. exfalso.
  apply not_true_iff_false in Hlast. apply Hlast.
  apply isPrefix_true.
  rewrite <- (takeWhile_dropWhile isTrimSpace v), E.
  exists (rev (u ++ takeWhile isTrimSpace v)).
  rewrite app_assoc, rev_app_distr. by rewrite fence_palindrome.
Qed.

Lemma cleanJson_v3_only_looks_at_the_ends_witness :
  cleanJson_v3 (str "Sure! ```json {} ``` Bye. ")
  = str "Sure! ```json {} ``` Bye.".
Proof.
  rewrite cleanJson_v3_only_looks_at_the_ends; reflexivity.
Defined.

(** Property X8. On a response that is a fenced object and nothing else,
    the three revisions of [cleanJson] agree: when the text between the
    braces holds no fence marker, the revision of lines 15-28 and the
    revision of lines 567-569 both return the object, and so does the
    revision of lines 221-249 when the numbers between the braces are
    short. *)
Theorem revisions_agree_on_a_fenced_object (ws1 body ws2 : jsstring) :
  allOf isTrimSpace ws1 -> allOf isTrimSpace ws2 ->
  includes fence body = false ->
  cleanJson_v3 (fenced ws1 (lbrace :: body ++ [rbrace]) ws2)
    = lbrace :: body ++ [rbrace]
  /\ cleanJson_v1 (fenced ws1 (lbrace :: body ++ [rbrace]) ws2)
    = lbrace :: body ++ [rbrace]
  /\ (literalsShort body ->
      cleanJson (fenced ws1 (lbrace :: body ++ [rbrace]) ws2)
      = lbrace :: body ++ [rbrace]).
Proof.
  intros H1 H2 Hfree.
  assert (braceSpan (stripFences (fenced ws1 (lbrace :: body ++ [rbrace]) ws2))
          = lbrace :: body ++ [rbrace]) as E.
  { unfold fenced.
    replace (fenceJson ++ ws1 ++ (lbrace :: body ++ [rbrace]) ++ ws2 ++ fence)
      with ((fenceJson ++ ws1) ++ lbrace :: body ++ rbrace :: ws2 ++ fence)
      by (rewrite <- !app_assoc; simpl; by rewrite <- !app_assoc).
    rewrite braceSpan_around.
    - by rewrite (stripFences_absent body).
    - apply not_elem_of_app. split; [solve_notin|].
      by eapply allOf_not_elem.
    - apply not_elem_of_app. split; [|solve_notin].
      by eapply allOf_not_elem. }
  split_and!.
  - apply cleanJson_v3_fenced; try done.
    + change (lbrace :: body ++ [rbrace]) with ((lbrace :: body) ++ [rbrace]).
      by rewrite rev_app_distr.
  - unfold cleanJson_v1. rewrite E. apply trim_braces.
  - intros Hshort. unfold cleanJson.
    rewrite E, normalizeNumbers_object, (normalizeNumbers_short _ Hshort).
    apply trim_braces.
Qed.

Lemma revisions_agree_on_a_fenced_object_witness :
  cleanJson_v3 (fenced [10] (lbrace :: (quoted "score" ++ str ": 8") ++ [rbrace]) [10])
  = lbrace :: (quoted "score" ++ str ": 8") ++ [rbrace].
Proof.
  refine (proj1 (revisions_agree_on_a_fenced_object [10]
                   (quoted "score" ++ str ": 8") [10] _ _ _));
    solve [solve_allOf | reflexivity].
Defined.

(** ** Replacing the first occurrence *)

Lemma isPrefix_short (w s t : jsstring) :
  (length w <= length s)%nat -> isPrefix w (s ++ t) = isPrefix w s.
Proof. intros H. unfold isPrefix. by rewrite take_app_le. Qed.

Lemma replaceFirst_first (w r pre post : jsstring) :
  w <> [] -> firstAfter w pre ->
  replaceFirst w r (pre ++ w ++ post) = pre ++ r ++ post.
Proof.
  intros Hw. unfold firstAfter. induction pre as [|c p IH]; intros H.
  - destruct (w ++ post) eqn:E; simpl; rewrite <- E, isPrefix_app;
      by rewrite drop_app_length.
  - simpl in H. apply orb_false_iff in H as [H1 H2].
    cbn [app replaceFirst].
    assert (isPrefix w (c :: p ++ w ++ post) = false) as ->.
    { rewrite <- H1.
      rewrite (app_removelast_last 0 Hw) at 2.
      rewrite <- app_assoc, (app_assoc p), app_comm_cons.
      apply isPrefix_short. simpl. rewrite length_app.
      rewrite (app_removelast_last 0 Hw) at 1.
      rewrite length_app. simpl. lia. }
    f_equal. by apply IH.
Qed.

Lemma replaceFirst_absent (w r s : jsstring) :
  includes w s = false -> replaceFirst w r s = s.
Proof.
  induction s as [|c t IH]; simpl; intros H;
    apply orb_false_iff in H as [-> H]; [done|]. by rewrite IH.
Qed.

Lemma includes_app_r (w a b : jsstring) : includes w b = true -> includes w (a ++ b) = true.
Proof.
  rewrite !includes_true. intros (x & y & ->). exists (a ++ x), y.
  by rewrite <- app_assoc.
Qed.

Lemma includes_mid (w a b : jsstring) : includes w (a ++ w ++ b) = true.
Proof. apply includes_true. by exists a, b. Qed.

(** ** The decoding operations on the same response *)

Lemma decodesTo_spec (up : upstream) (v : value) :
  decodesTo up v <->
  exists r, up = Responded r /\ hasText (response_text r) = true
            /\ JSON_parse (cleanJson (orElse (response_text r) []))
                 jsonReviver = Some v.
Proof.
  split.
  - intros (r & text & -> & Ht & Hne & Hp). exists r. rewrite Ht.
    rewrite hasText_text, orElse_text by done. done.
  - intros (r & -> & Ht & Hp). destruct (response_text r) as [[|c s]|] eqn:E;
      try done. exists r, (c :: s). done.
Qed.

Lemma generateRubricFromText_returns msg (up : upstream) (v : value) :
  snd (generateRubricFromText msg up) = Returned v <-> decodesTo up v.
Proof.
  rewrite decodesTo_spec. unfold generateRubricFromText, parseReviving.
  destruct up as [e|r]; simpl.
  - split; [done|]. by intros (r & H & _).
  - destruct (hasText (response_text r)) eqn:Ht; simpl.
    + destruct (JSON_parse _ _) as [w|] eqn:Hp; simpl.
      * split; [intros [= ->]; by exists r|].
        intros (r' & [= <-] & _ & Hp'). congruence.
      * split; [done|]. intros (r' & [= <-] & _ & Hp'). congruence.
    + split; [done|]. intros (r' & [= <-] & Ht' & _). congruence.
Qed.

Lemma evaluateSubmission_returns msg (up : upstream) (v : value) :
  snd (evaluateSubmission msg up) = Returned v <-> decodesTo up v.
Proof.
  rewrite decodesTo_spec. unfold evaluateSubmission, parseReviving.
  destruct up as [e|r]; simpl.
  - split; [done|]. by intros (r & H & _).
  - destruct (hasText (response_text r)) eqn:Ht; simpl.
    + destruct (JSON_parse _ _) as [w|] eqn:Hp; simpl.
      * split; [intros [= ->]; by exists r|].
        intros (r' & [= <-] & _ & Hp'). congruence.
      * split; [done|]. intros (r' & [= <-] & _ & Hp'). congruence.
    + split; [done|]. intros (r' & [= <-] & Ht' & _). congruence.
Qed.

Lemma analyzeAttempt_returns msg (up : upstream) (v : value) :
  analyzeAttempt msg up = Returned v <-> decodesTo up v.
Proof.
  rewrite decodesTo_spec. unfold analyzeAttempt, parseReviving.
  destruct up as [e|r]; simpl.
  - split; [done|]. by intros (r & H & _).
  - destruct (hasText (response_text r)) eqn:Ht; simpl.
    + destruct (JSON_parse _ _) as [w|] eqn:Hp; simpl.
      * split; [intros [= ->]; by exists r|].
        intros (r' & [= <-] & _ & Hp'). congruence.
      * split; [done|]. intros (r' & [= <-] & _ & Hp'). congruence.
    + split; [done|]. intros (r' & [= <-] & Ht' & _). congruence.
Qed.

Lemma generateRubricFromText_quiet msg (up : upstream) (v : value) :
  snd (generateRubricFromText msg up) = Returned v ->
  fst (generateRubricFromText msg up) = [].
Proof.
  unfold generateRubricFromText. destruct up as [e|r]; [done|].
  destruct (negb _); [done|]. by destruct (parseReviving _ _).
Qed.

Lemma evaluateSubmission_quiet msg (up : upstream) (v : value) :
  snd (evaluateSubmission msg up) = Returned v ->
  fst (evaluateSubmission msg up) = [].
Proof.
  unfold evaluateSubmission. destruct up as [e|r]; [done|].
  destruct (negb _); [done|]. by destruct (parseReviving _ _).
Qed.

(** Property X11. The three decoding operations decode alike: on the same
    response, rubric generation and submission evaluation return a value
    exactly when the response has a text whose sanitized form parses, the
    value being the parse with the reviver applied, and they write nothing
    to the console then; code analysis returns that same value, and
    returns its failure record exactly when the other two throw. *)
Theorem decoding_operations_agree
    (syntaxErrorMessage : jsstring -> jsstring) (up : upstream) (v : value) :
  (snd (generateRubricFromText syntaxErrorMessage up) = Returned v
     <-> decodesTo up v)
  /\ (snd (evaluateSubmission syntaxErrorMessage up) = Returned v
     <-> decodesTo up v)
  /\ (decodesTo up v <->
      generateRubricFromText syntaxErrorMessage up = ([], Returned v))
  /\ (decodesTo up v <->
      evaluateSubmission syntaxErrorMessage up = ([], Returned v))
  /\ (forall repoUrl f,
        decodesTo up v ->
        snd (analyzeCodeRepository syntaxErrorMessage repoUrl f up)
        = Returned v)
  /\ (forall repoUrl f,
        (exists e, snd (generateRubricFromText syntaxErrorMessage up) = Threw e)
        <-> exists e,
              snd (analyzeCodeRepository syntaxErrorMessage repoUrl f up)
              = Returned (failedAnalysis repoUrl e)
              /\ analyzeAttempt syntaxErrorMessage up = Threw e).
Proof.
  split_and!.
  - apply generateRubricFromText_returns.
  - apply evaluateSubmission_returns.
  - rewrite <- (generateRubricFromText_returns syntaxErrorMessage). split.
    + intros H. pose proof (generateRubricFromText_quiet _ _ _ H) as Hq.
      destruct (generateRubricFromText _ up). simpl in *. congruence.
    + by intros ->.
  - rewrite <- (evaluateSubmission_returns syntaxErrorMessage). split.
    + intros H. pose proof (evaluateSubmission_quiet _ _ _ H) as Hq.
      destruct (evaluateSubmission _ up). simpl in *. congruence.
    + by intros ->.
  - intros repoUrl f H.
    apply (analyzeAttempt_returns syntaxErrorMessage) in H.
    unfold analyzeCodeRepository. destruct (fetchGithubContent f).
    by rewrite H.
  - intros repoUrl f. unfold analyzeCodeRepository.
    destruct (fetchGithubContent f) as [fetchLog content]. split.
    + intros [e He].
      destruct (analyzeAttempt syntaxErrorMessage up) as [w|e'] eqn:Ha.
      * apply analyzeAttempt_returns in Ha.
        apply (generateRubricFromText_returns syntaxErrorMessage) in Ha.
        rewrite Ha in He. done.
      * by exists e'.
    + intros (e & _ & Ha).
      destruct (snd (generateRubricFromText syntaxErrorMessage up))
        as [w|e'] eqn:Hg; [|by exists e'].
      apply generateRubricFromText_returns in Hg.
      apply (analyzeAttempt_returns syntaxErrorMessage) in Hg. congruence.
Qed.

(** ** The sources of a fact check *)




(** ** From the first revision to the second *)

Lemma parseReviving_plain msg (cleaned : jsstring) :
  parseReviving msg cleaned
  = match parsePlain msg cleaned with
    | Returned v => Returned (mapNumbers roundTwoPlaces v)
    | Threw e => Threw e
    end.
Proof.
  unfold parseReviving, parsePlain. rewrite JSON_parse_reviving.
  by destruct (JSON_parse cleaned _).
Qed.

(** Property X13. On a response whose numbers are short, the second
    revision of rubric generation and of submission evaluation behaves as
    the first one followed by the rounding of every number: the console
    output is the same, a thrown error is the same, and a returned value
    is the value the first revision returns with every numeric leaf
    rounded to two decimals. *)
Theorem second_revision_rounds_the_first
    (syntaxErrorMessage : jsstring -> jsstring) (up : upstream) :
  (forall text, textOf up = Some text ->
     literalsShort (braceSpan (stripFences text))) ->
  generateRubricFromText syntaxErrorMessage up
    = mapReturned (mapNumbers roundTwoPlaces)
        (generateRubricFromText_v1 syntaxErrorMessage up)
  /\ evaluateSubmission syntaxErrorMessage up
    = mapReturned (mapNumbers roundTwoPlaces)
        (evaluateSubmission_v1 syntaxErrorMessage up).
Proof.
  intros Hshort.
  unfold generateRubricFromText, generateRubricFromText_v1,
    evaluateSubmission, evaluateSubmission_v1, mapReturned.
  destruct up as [e|r]; [done|]. simpl in Hshort.
  destruct (hasText (response_text r)) eqn:Ht; [|done]. simpl.
  destruct (response_text r) as [[|c s]|] eqn:Er; try done. simpl.
  specialize (Hshort (c :: s) eq_refl).
  assert (cleanJson (c :: s) = cleanJson_v1 (c :: s)) as ->.
  { unfold cleanJson, cleanJson_v1.
    by rewrite (normalizeNumbers_short _ Hshort). }
  rewrite parseReviving_plain.
  by destruct (parsePlain syntaxErrorMessage (cleanJson_v1 (c :: s))).
Qed.

Lemma second_revision_rounds_the_first_witness :
  generateRubricFromText (fun _ => [])
    (Responded {| response_text := Some (str "{" ++ quoted "w" ++ str ":7}");
                  response_candidates := None |})
  = mapReturned (mapNumbers roundTwoPlaces)
      (generateRubricFromText_v1 (fun _ => [])
         (Responded
            {| response_text := Some (str "{" ++ quoted "w" ++ str ":7}");
               response_candidates := None |})).
Proof.
  refine (proj1 (second_revision_rounds_the_first (fun _ => [])
                   (Responded
                      {| response_text :=
                           Some (str "{" ++ quoted "w" ++ str ":7}");
                         response_candidates := None |}) _)).
  intros text [= <-].
  change (braceSpan (stripFences (str "{" ++ quoted "w" ++ str ":7}")))
    with (str "{" ++ quoted "w" ++ str ":" ++ str "7" ++ str "}").
  do 5 (apply literalsShort_char; [reflexivity|]).
  apply (literalsShort_literal (str "7") (str "}")).
  { apply short_integer; solve_allOf || discriminate. }
  { reflexivity. }
  apply literalsShort_char; [reflexivity|]. apply literalsShort_nil.
Defined.

(** An occurrence of a word that begins and ends with [c] cannot overlap
    a longer word without [c]: it lies before it or after it. *)
Lemma includes_around (w x a b : jsstring) c w' :
  w = c :: w' ++ [c] -> (c ∉ x) -> (length w <= S (length x))%nat ->
  includes w (a ++ x ++ b) = includes w a || includes w b.
Proof.
  intros Hw Hc Hlen. apply eq_true_iff_eq. rewrite orb_true_iff. split.
  - induction a as [|d a IH].
    + simpl. clear Hlen. induction x as [|y x IHx]; [by right|].
      apply not_elem_of_cons in Hc as [Hy Hx]. simpl.
      rewrite orb_true_iff. intros [H|H]; [|by apply IHx].
      apply isPrefix_true in H as [rest H]. rewrite Hw in H.
      by injection H as <-.
    + cbn [app includes]. rewrite !orb_true_iff. intros [H|H].
      * left. left.
        destruct (decide (length w <= length (d :: a))%nat) as [Hle|Hgt].
        { change (d :: a ++ x ++ b) with ((d :: a) ++ x ++ b) in H.
          by rewrite isPrefix_short in H. }
        exfalso. apply Hc.
        unfold isPrefix in H. apply bool_decide_eq_true in H.
        assert (take (length w) (d :: a ++ x ++ b) !! (length w - 1)%nat
                = Some c) as Hlast.
        { rewrite H, Hw. change (c :: w' ++ [c]) with ((c :: w') ++ [c]).
          replace (length ((c :: w') ++ [c]) - 1)%nat with (length (c :: w'))
            by (rewrite length_app; simpl; lia).
          by apply list_lookup_middle. }
        rewrite lookup_take_lt in Hlast by (rewrite Hw; simpl; lia).
        change (d :: a ++ x ++ b) with ((d :: a) ++ x ++ b) in Hlast.
        rewrite lookup_app_r in Hlast by lia.
        rewrite lookup_app_l in Hlast by (simpl in *; lia).
        by apply list_elem_of_lookup_2 in Hlast.
      * destruct (IH H) as [Ha|Hb]; [left; by right | by right].
  - intros [H|H].
    + apply includes_true in H as (u & v & ->).
      apply includes_true. exists u, (v ++ x ++ b). by rewrite <- !app_assoc.
    + rewrite app_assoc. by apply includes_app_r.
Qed.

(** ** The address that is fetched *)

Lemma rawUrl_blob (pre mid rest : jsstring) :
  firstAfter (str "github.com") pre ->
  firstAfter (str "/blob/") (pre ++ str "github.com" ++ mid) ->
  rawUrl (pre ++ str "github.com" ++ mid ++ str "/blob/" ++ rest)
  = pre ++ str "raw.githubusercontent.com" ++ mid ++ str "/" ++ rest.
Proof.
  intros Hhost Hblob. unfold rawUrl.
  rewrite includes_mid.
  assert (includes (str "/blob/")
            (pre ++ str "github.com" ++ mid ++ str "/blob/" ++ rest) = true)
    as ->.
  { rewrite !app_assoc, <- (app_assoc _ (str "/blob/")).
    apply includes_mid. }
  cbn [andb]. rewrite replaceFirst_first by done.
  replace (pre ++ str "raw.githubusercontent.com" ++ mid ++ str "/blob/" ++ rest)
    with ((pre ++ str "raw.githubusercontent.com" ++ mid) ++ str "/blob/" ++ rest)
    by (by rewrite <- !app_assoc).
  rewrite replaceFirst_first; [by rewrite <- !app_assoc | done |].
  unfold firstAfter in *. rewrite <- !app_assoc in *.
  rewrite (includes_around (str "/blob/") (str "raw.githubusercontent.com")
             pre _ 47 (str "blob")); [|done|solve_notin|simpl; lia].
  rewrite (includes_around (str "/blob/") (str "github.com")
             pre _ 47 (str "blob")) in Hblob; [|done|solve_notin|simpl; lia].
  done.
Qed.

(** Property X9. [fetchGithubContent] turns the address of a file on
    GitHub into the address of its raw content, as its comment says: when
    the host is the first occurrence of [github.com] in the address and
    the segment [/blob/] after it is the first occurrence of [/blob/],
    the host becomes [raw.githubusercontent.com] and [/blob/] becomes [/],
    everything else staying in place; this is the address handed to
    [fetch]. *)
Theorem blob_address_becomes_the_raw_address
    (typeErrorMessage : string -> jsstring) (fetch : value -> fetched)
    (pre mid rest : jsstring) :
  firstAfter (str "github.com") pre ->
  firstAfter (str "/blob/") (pre ++ str "github.com" ++ mid) ->
  rawUrl (pre ++ str "github.com" ++ mid ++ str "/blob/" ++ rest)
    = pre ++ str "raw.githubusercontent.com" ++ mid ++ str "/" ++ rest
  /\ fetchGithubContentOf typeErrorMessage fetch
       (VString (pre ++ str "github.com" ++ mid ++ str "/blob/" ++ rest))
    = fetchGithubContent
        (fetch (VString (pre ++ str "raw.githubusercontent.com" ++ mid
                           ++ str "/" ++ rest))).
Proof.
  intros Hhost Hblob. unfold fetchGithubContentOf.
  by rewrite rawUrl_blob.
Qed.

Lemma blob_address_becomes_the_raw_address_witness :
  rawUrl (str "https://" ++ str "github.com" ++ str "/user/repo"
          ++ str "/blob/" ++ str "branch/path")
  = str "https://" ++ str "raw.githubusercontent.com" ++ str "/user/repo"
    ++ str "/" ++ str "branch/path".
Proof.
  refine (proj1 (blob_address_becomes_the_raw_address
                   (fun _ => []) (fun _ => FetchStatus false (inr []))
                   (str "https://") (str "/user/repo") (str "branch/path")
                   _ _)); reflexivity.
Defined.

(** Property X10. For an address on GitHub that names neither a file nor a
    directory (no [/blob/] and no [/tree/]), [fetchGithubContent] guesses
    the README of the branch [main]: the first occurrence of [github.com]
    becomes [raw.githubusercontent.com] and [/main/README.md] is appended
    to the whole address, whatever it ends with. *)
Theorem root_address_becomes_the_readme_address (pre post : jsstring) :
  firstAfter (str "github.com") pre ->
  includes (str "/blob/") (pre ++ str "github.com" ++ post) = false ->
  includes (str "/tree/") (pre ++ str "github.com" ++ post) = false ->
  rawUrl (pre ++ str "github.com" ++ post)
  = pre ++ str "raw.githubusercontent.com" ++ post ++ str "/main/README.md".
Proof.
  intros Hhost Hblob Htree. unfold rawUrl.
  rewrite includes_mid, Hblob, Htree. cbn [andb negb].
  rewrite replaceFirst_first by done. by rewrite <- !app_assoc.
Qed.

Lemma root_address_becomes_the_readme_address_witness :
  rawUrl (str "https://" ++ str "github.com" ++ str "/user/repo/")
  = str "https://" ++ str "raw.githubusercontent.com" ++ str "/user/repo/"
    ++ str "/main/README.md".
Proof.
  apply root_address_becomes_the_readme_address; reflexivity.
Defined.

(** ** Code analysis never throws, whatever it is given *)

Lemma analyzeCodeRepositoryOf_returns msg tmsg fetch (repo : value)
    (up : upstream) :
  exists log v,
    analyzeCodeRepositoryOf msg tmsg fetch repo up = (log, Returned v)
    /\ Forall (fun entry => log_label entry <> analysisFailureLabel) log.
Proof.
  unfold analyzeCodeRepositoryOf.
  assert (Forall (fun entry => log_label entry <> analysisFailureLabel)
            (fst (fetchGithubContentOf tmsg fetch repo))) as Hfetch.
  { unfold fetchGithubContentOf, fetchGithubContent.
    destruct repo as [| b | x | s | a | p]; simpl;
      repeat (match goal with
              | |- context [if ?c then _ else _] => destruct c
              | |- context [match fetch ?v with _ => _ end] =>
                  destruct (fetch v) as [e|[|] [e|body]]
              end; simpl);
      repeat constructor; done. }
  destruct (fetchGithubContentOf tmsg fetch repo) as [fetchLog content].
  simpl in Hfetch.
  destruct (analyzeAttempt msg up) as [v|e].
  - by exists fetchLog, v.
  - eexists _, _. split; [reflexivity|].
    apply Forall_app. split; [done|]. repeat constructor. done.
Qed.

Lemma analyzeCodeRepositoryOf_string msg tmsg fetch (url : jsstring)
    (up : upstream) :
  analyzeCodeRepositoryOf msg tmsg fetch (VString url) up
  = analyzeCodeRepository msg url (fetch (VString (rawUrl url))) up.
Proof. done. Qed.


Lemma filterLinks_strings tmsg (ls : list jsstring) :
  filterLinks tmsg (map VString ls)
  = Returned (map VString (List.filter isCodeUrl ls)).
Proof.
  induction ls as [|u ls IH]; [done|]. simpl. rewrite IH.
  fold (isCodeUrl u). by destruct (isCodeUrl u).
Qed.

Lemma filterLinks_throws tmsg (links : list value) :
  (exists l, l ∈ links /\ hasIncludes l = false) ->
  exists e, filterLinks tmsg links = Threw e.
Proof.
  intros (l & Hin & Hl). induction links as [|x links IH].
  - by apply elem_of_nil in Hin.
  - simpl. destruct (isCodeLink tmsg x) as [keep|e] eqn:Hx; [|by exists e].
    apply elem_of_cons in Hin as [->|Hin].
    + destruct x; done.
    + destruct (IH Hin) as [e ->]. by exists e.
Qed.

(** ** One update *)

Lemma applyUpdate_lookup target u (prev : list StudentSubmission) i :
  applyUpdate target u prev !! i
  = (fun sub =>
       if bool_decide (sub_id sub = target)
       then {| sub_id := sub_id sub;
               sub_filename := sub_filename sub;
               sub_fileData := sub_fileData sub;
               sub_mimeType := sub_mimeType sub;
               sub_status := set_status u;
               sub_evaluation :=
                 match set_evaluation u with
                 | Some v => Some v
                 | None => sub_evaluation sub
                 end |}
       else sub) <$> prev !! i.
Proof. unfold applyUpdate. apply list_lookup_fmap. Qed.

Lemma applyUpdate_ids target u (prev : list StudentSubmission) :
  map sub_id (applyUpdate target u prev) = map sub_id prev.
Proof.
  unfold applyUpdate. rewrite map_map. apply map_ext.
  intros sub. by destruct (bool_decide _).
Qed.

Lemma applyUpdate_commute (target other : jsstring) u1 u2
    (prev : list StudentSubmission) :
  target <> other ->
  applyUpdate target u1 (applyUpdate other u2 prev)
  = applyUpdate other u2 (applyUpdate target u1 prev).
Proof.
  intros Hne. unfold applyUpdate. rewrite !map_map. apply map_ext.
  intros sub. destruct (decide (sub_id sub = target)) as [H1|H1];
    destruct (decide (sub_id sub = other)) as [H2|H2]; [congruence|..].
  - rewrite (bool_decide_eq_false_2 _ H2). simpl.
    rewrite !(bool_decide_eq_true_2 _ H1). simpl.
    by rewrite (bool_decide_eq_false_2 _ H2).
  - rewrite (bool_decide_eq_true_2 _ H2). simpl.
    rewrite !(bool_decide_eq_false_2 _ H1). simpl.
    by rewrite (bool_decide_eq_true_2 _ H2).
  - rewrite (bool_decide_eq_false_2 _ H2).
    rewrite !(bool_decide_eq_false_2 _ H1).
    by rewrite (bool_decide_eq_false_2 _ H2).
Qed.

(** Property X14. Updates of the submission list touch the submission
    they are aimed at and nothing else: the list keeps its length, its
    order and every identifier, a submission with another identifier is
    left as it is, the targeted one takes the new status and keeps its
    file, and updates aimed at different submissions commute, so that
    evaluations running at the same time cannot undo each other's
    progress. *)
Theorem updates_touch_only_their_submission
    (target : jsstring) (u : update) (prev : list StudentSubmission) :
  length (applyUpdate target u prev) = length prev
  /\ map sub_id (applyUpdate target u prev) = map sub_id prev
  /\ (forall i sub, prev !! i = Some sub -> sub_id sub <> target ->
        applyUpdate target u prev !! i = Some sub)
  /\ (forall i sub, prev !! i = Some sub -> sub_id sub = target ->
        exists sub', applyUpdate target u prev !! i = Some sub'
                     /\ sub_status sub' = set_status u
                     /\ sub_id sub' = target
                     /\ sub_filename sub' = sub_filename sub
                     /\ sub_fileData sub' = sub_fileData sub
                     /\ sub_mimeType sub' = sub_mimeType sub)
  /\ (forall other u', other <> target ->
        applyUpdate target u (applyUpdate other u' prev)
        = applyUpdate other u' (applyUpdate target u prev)).
Proof.
  split_and!.
  - unfold applyUpdate. apply length_map.
  - apply applyUpdate_ids.
  - intros i sub Hi Hs. rewrite applyUpdate_lookup, Hi. simpl.
    by rewrite bool_decide_eq_false_2.
  - intros i sub Hi Hs. rewrite applyUpdate_lookup, Hi. simpl.
    rewrite bool_decide_eq_true_2 by done. eexists. split; [reflexivity|].
    done.
  - intros other u' Hne. by apply applyUpdate_commute.
Qed.

(** ** The run of one evaluation *)


Lemma applyUpdates_ids target us (prev : list StudentSubmission) :
  map sub_id (applyUpdates target us prev) = map sub_id prev.
Proof.
  unfold applyUpdates. revert prev.
  induction us as [|u us IH]; intros prev; [done|]. simpl.
  by rewrite IH, applyUpdate_ids.
Qed.




(** ** Properties of objects *)

Lemma getProp_setProp key (v : value) (props : list (jsstring * value)) :
  getProp key (setProp key v props) = Some v.
Proof.
  induction props as [|[k w] ps IH]; simpl.
  - by rewrite bool_decide_eq_true_2.
  - destruct (decide (k = key)) as [H|H].
    + rewrite (bool_decide_eq_true_2 _ H). simpl.
      by rewrite (bool_decide_eq_true_2 _ H).
    + rewrite (bool_decide_eq_false_2 _ H). simpl.
      by rewrite (bool_decide_eq_false_2 _ H).
Qed.

Lemma getProp_setProp_other key key' (v : value)
    (props : list (jsstring * value)) :
  key <> key' -> getProp key (setProp key' v props) = getProp key props.
Proof.
  intros Hne. induction props as [|[k w] ps IH]; simpl.
  - rewrite bool_decide_eq_false_2; [done|]. congruence.
  - destruct (decide (k = key')) as [H|H].
    + rewrite (bool_decide_eq_true_2 _ H). simpl. subst k.
      rewrite !bool_decide_eq_false_2; [done|congruence..].
    + rewrite (bool_decide_eq_false_2 _ H). simpl. by rewrite IH.
Qed.

(** Property X16. When the evaluation decodes to an object whose
    [external_links] are strings (or are missing), [runEvaluation] never
    ends in error: with no link that names github.com, gitlab.com or
    colab.research.google.com the submission is graded at once with the
    decoded object; otherwise the first such link, in the order of the
    list, is the one analysed, the address fetched for it is [rawUrl] of
    the link, and the submission is graded with the decoded object to
    which the analysis has been added as [code_analysis], its other
    properties unchanged. *)
Theorem the_first_code_link_is_analysed
    (syntaxErrorMessage : jsstring -> jsstring)
    (typeErrorMessage : string -> jsstring) (fetch : value -> fetched)
    (rb : value) (evalUp codeUp : upstream)
    (props : list (jsstring * value)) (links : option (list jsstring)) :
  truthy rb = true ->
  snd (evaluateSubmission syntaxErrorMessage evalUp)
    = Returned (VObject props) ->
  getProp (str "external_links") props
    = (fun ls => VArray (map VString ls)) <$> links ->
  match List.filter isCodeUrl (default [] links) with
  | [] =>
      runEvaluation syntaxErrorMessage typeErrorMessage fetch
        (Some rb) evalUp codeUp
      = ([ {| set_status := Evaluating; set_evaluation := None |};
           {| set_status := Graded;
              set_evaluation := Some (VObject props) |} ], [])
  | url :: _ =>
      exists codeLog codeAnalysis final,
        analyzeCodeRepository syntaxErrorMessage url
          (fetch (VString (rawUrl url))) codeUp
        = (codeLog, Returned codeAnalysis)
        /\ runEvaluation syntaxErrorMessage typeErrorMessage fetch
             (Some rb) evalUp codeUp
           = ([ {| set_status := Evaluating; set_evaluation := None |};
                {| set_status := AnalyzingCode;
                   set_evaluation := Some (VObject props) |};
                {| set_status := Graded;
                   set_evaluation := Some (VObject final) |} ], codeLog)
        /\ getProp (str "code_analysis") final = Some codeAnalysis
        /\ forall key, key <> str "code_analysis" ->
             getProp key final = getProp key props
  end.
Proof.
  intros Hrb Heval Hlinks.
  pose proof (evaluateSubmission_quiet _ _ _ Heval) as Hquiet.
  unfold runEvaluation. rewrite Hrb. simpl.
  destruct (evaluateSubmission syntaxErrorMessage evalUp) as [evalLog out].
  simpl in Heval, Hquiet. subst evalLog out. cbn [app].
  rewrite Hlinks. destruct links as [ls|]; simpl; [|done].
  rewrite filterLinks_strings.
  destruct (List.filter isCodeUrl ls) as [|url rest]; simpl; [done|].
  rewrite analyzeCodeRepositoryOf_string.
  destruct (analyzeCodeRepositoryOf_returns syntaxErrorMessage
              typeErrorMessage fetch (VString url) codeUp)
    as (codeLog & v & E & _).
  rewrite analyzeCodeRepositoryOf_string in E. rewrite E.
  exists codeLog, v, (setProp (str "code_analysis") v props).
  split_and!; [done | done | apply getProp_setProp |].
  intros key Hkey. by apply getProp_setProp_other.
Qed.

Lemma the_first_code_link_is_analysed_witness :
  exists codeLog codeAnalysis final,
    analyzeCodeRepository (fun _ => []) (str "https://gitlab.com/u/r")
      (FetchRejected OtherThrown) (Rejected OtherThrown)
    = (codeLog, Returned codeAnalysis)
    /\ runEvaluation (fun _ => []) (fun _ => [])
         (fun _ => FetchRejected OtherThrown) (Some (VObject []))
         (Responded
            {| response_text :=
                 Some (str "{" ++ quoted "external_links" ++ str ":["
                       ++ quoted "https://example.org" ++ str ","
                       ++ quoted "https://gitlab.com/u/r" ++ str "]}");
               response_candidates := None |})
         (Rejected OtherThrown)
       = ([ {| set_status := Evaluating; set_evaluation := None |};
            {| set_status := AnalyzingCode;
               set_evaluation :=
                 Some (VObject
                         [(str "external_links",
                           VArray [VString (str "https://example.org");
                                   VString (str "https://gitlab.com/u/r")])]) |};
            {| set_status := Graded;
               set_evaluation := Some (VObject final) |} ], codeLog)
    /\ getProp (str "code_analysis") final = Some codeAnalysis
    /\ forall key, key <> str "code_analysis" ->
         getProp key final
         = getProp key
             [(str "external_links",
               VArray [VString (str "https://example.org");
                       VString (str "https://gitlab.com/u/r")])].
Proof.
  apply (the_first_code_link_is_analysed (fun _ => []) (fun _ => [])
           (fun _ => FetchRejected OtherThrown) (VObject [])
           (Responded
              {| response_text :=
                   Some (str "{" ++ quoted "external_links" ++ str ":["
                         ++ quoted "https://example.org" ++ str ","
                         ++ quoted "https://gitlab.com/u/r" ++ str "]}");
                 response_candidates := None |})
           (Rejected OtherThrown)
           [(str "external_links",
             VArray [VString (str "https://example.org");
                     VString (str "https://gitlab.com/u/r")])]
           (Some [str "https://example.org"; str "https://gitlab.com/u/r"]));
    vm_compute; reflexivity.
Defined.

(** Property X17. A decoded evaluation that is not shaped as the list
    expects ends the run in error although the document was evaluated:
    when [evaluateSubmission] returns [null], or an object whose
    [external_links] is neither null nor an array (a single address given
    as a string, for instance), or an array holding an element that is
    neither a string nor an array, reading the links throws a [TypeError]
    and the statuses are evaluating, then error. *)
Theorem ill_shaped_links_end_in_error
    (syntaxErrorMessage : jsstring -> jsstring)
    (typeErrorMessage : string -> jsstring) (fetch : value -> fetched)
    (rb : value) (evalUp codeUp : upstream) (result : value) :
  truthy rb = true ->
  snd (evaluateSubmission syntaxErrorMessage evalUp) = Returned result ->
  (result = VNull
   \/ exists props x,
        result = VObject props
        /\ getProp (str "external_links") props = Some x
        /\ match x with
           | VNull => False
           | VArray links => exists l, l ∈ links /\ hasIncludes l = false
           | _ => True
           end) ->
  exists e,
    runEvaluation syntaxErrorMessage typeErrorMessage fetch
      (Some rb) evalUp codeUp
    = ([ {| set_status := Evaluating; set_evaluation := None |};
         {| set_status := Errored; set_evaluation := None |} ],
       [ {| log_level := LogError;
            log_label := EmptyString;
            log_arg := LoggedThrown e |} ])
    /\ exists operation, e = typeError typeErrorMessage operation.
Proof.
  intros Hrb Heval Hill.
  pose proof (evaluateSubmission_quiet _ _ _ Heval) as Hquiet.
  unfold runEvaluation. rewrite Hrb. simpl.
  destruct (evaluateSubmission syntaxErrorMessage evalUp) as [evalLog out].
  simpl in Heval, Hquiet. subst evalLog out. cbn [app].
  destruct Hill as [->|(props & x & -> & Hx & Hshape)].
  - eexists. split; [reflexivity|]. by eexists.
  - rewrite Hx.
    destruct x as [| b | n | s | links | p]; try done;
      try (eexists; split; [reflexivity|]; by eexists).
    destruct Hshape as (l & Hin & Hl).
    assert (exists operation,
              filterLinks typeErrorMessage links
              = Threw (typeError typeErrorMessage operation))
      as [operation ->].
    { clear -Hin Hl. induction links as [|y links IH].
      - by apply elem_of_nil in Hin.
      - simpl. destruct y as [| b | n | s | a | p];
          try (eexists; reflexivity); simpl.
        + apply elem_of_cons in Hin as [->|Hin]; [done|].
          destruct (IH Hin) as [operation ->]. by exists operation.
        + apply elem_of_cons in Hin as [->|Hin]; [done|].
          destruct (IH Hin) as [operation ->]. by exists operation. }
    eexists. split; [reflexivity|]. by eexists.
Qed.

Lemma ill_shaped_links_end_in_error_witness :
  exists e,
    runEvaluation (fun _ => []) (fun _ => [])
      (fun _ => FetchRejected OtherThrown) (Some (VObject []))
      (Responded
         {| response_text :=
              Some (str "{" ++ quoted "external_links" ++ str ":"
                    ++ quoted "https://github.com/u/r" ++ str "}");
            response_candidates := None |})
      (Rejected OtherThrown)
    = ([ {| set_status := Evaluating; set_evaluation := None |};
         {| set_status := Errored; set_evaluation := None |} ],
       [ {| log_level := LogError;
            log_label := EmptyString;
            log_arg := LoggedThrown e |} ])
    /\ exists operation, e = typeError (fun _ => []) operation.
Proof.
  apply (ill_shaped_links_end_in_error (fun _ => []) (fun _ => [])
           (fun _ => FetchRejected OtherThrown) (VObject [])
           (Responded
              {| response_text :=
                   Some (str "{" ++ quoted "external_links" ++ str ":"
                         ++ quoted "https://github.com/u/r" ++ str "}");
                 response_candidates := None |})
           (Rejected OtherThrown)
           (VObject [(str "external_links",
                      VString (str "https://github.com/u/r"))])).
  - reflexivity.
  - vm_compute. reflexivity.
  - right. eexists _, _. split; [reflexivity|]. split; [reflexivity|]. exact I.
Defined.

(** ** The callback of the second rewrite *)

(** Property X18. Whenever the scientific-notation pattern matches, the
    group handed to the callback holds a dot, so the callback always cuts
    the group after the dot and at most two digits and its last line,
    which would return the group as it is, never runs; the replacement is
    a prefix of the group and never longer than it. *)
Theorem the_callback_always_finds_the_dot (s repl rest : jsstring) :
  reScientific s = Some (repl, rest) ->
  exists numberPart exponent,
    s = numberPart ++ exponent ++ rest
    /\ isExponent exponent
    /\ indexOf 46 numberPart <> (-1)%Z
    /\ repl = keepTwoDecimals numberPart
    /\ repl = substring 0 (indexOf 46 numberPart + 3) numberPart
    /\ repl `prefix_of` numberPart.
Proof.
  rewrite reScientific_spec. intros H.
  apply scientificAt_inv in H
    as (int & frac & x & -> & Hint & Hne & Hfrac & Hnf & Hx & _ & ->).
  exists (int ++ 46 :: frac), x.
  assert (indexOf 46 (int ++ 46 :: frac) = Z.of_nat (length int)) as Hdot
    by (apply indexOf_app; by apply digits_no_dot).
  assert (keepTwoDecimals (int ++ 46 :: frac) = int ++ 46 :: take 2 frac)
    as Hkeep by (by apply keepTwoDecimals_literal).
  split_and!.
  - by rewrite <- app_assoc.
  - done.
  - rewrite Hdot. lia.
  - done.
  - rewrite <- Hkeep. unfold keepTwoDecimals. rewrite Hdot.
    destruct (Z.eqb_spec (Z.of_nat (length int)) (-1)); [lia | done].
  - exists (drop 2 frac).
    change ((int ++ 46 :: take 2 frac) ++ drop 2 frac)
      with ((int ++ [46] ++ take 2 frac) ++ drop 2 frac).
    rewrite <- !app_assoc. by rewrite take_drop.
Qed.

Lemma the_callback_always_finds_the_dot_witness :
  exists numberPart exponent,
    str "5.0018e+00}" = numberPart ++ exponent ++ str "}"
    /\ isExponent exponent
    /\ indexOf 46 numberPart <> (-1)%Z
    /\ str "5.00" = keepTwoDecimals numberPart
    /\ str "5.00" = substring 0 (indexOf 46 numberPart + 3) numberPart
    /\ str "5.00" `prefix_of` numberPart.
Proof.
  apply (the_callback_always_finds_the_dot (str "5.0018e+00}")).
  reflexivity.
Defined.

(** ** Fetching the content of a repository *)

(** Property X19. [fetchGithubContent] never throws, whatever it is
    given, a string or not: it returns a text; the text is not empty only
    when [fetch] resolved to a response with status ok whose body was
    read, in which case it is that body and nothing is written to the
    console; for a string the address fetched is [rawUrl] of it; and a
    warning is written only together with the empty text. *)
Theorem fetching_content_never_throws
    (typeErrorMessage : string -> jsstring) (fetch : value -> fetched)
    (url : value) :
  exists log content,
    fetchGithubContentOf typeErrorMessage fetch url = (log, Returned content)
    /\ (content <> [] ->
        log = []
        /\ exists address,
             fetch address = FetchStatus true (inr content)
             /\ forall u, url = VString u -> address = VString (rawUrl u))
    /\ (log <> [] -> content = [])
    /\ Forall (fun entry => log_level entry = LogWarn) log.
Proof.
  assert (forall address,
    exists log content,
      fetchGithubContent (fetch address) = (log, Returned content)
      /\ (content <> [] ->
          log = [] /\ fetch address = FetchStatus true (inr content))
      /\ (log <> [] -> content = [])
      /\ Forall (fun entry => log_level entry = LogWarn) log) as Hfetch.
  { intros address. unfold fetchGithubContent.
    destruct (fetch address) as [e|[|] [e|body]]; eexists _, _;
      (split; [reflexivity|]); split_and!; try done;
      repeat constructor. }
  assert (forall e : thrown,
    exists log content,
      ([ {| log_level := LogWarn;
            log_label :=
              "Could not fetch raw GitHub content (CORS or Private):";
            log_arg := LoggedThrown e |} ], Returned [])
      = (log, @Returned jsstring content)
      /\ (content <> [] ->
          log = []
          /\ exists address,
               fetch address = FetchStatus true (inr content)
               /\ forall u, url = VString u -> address = VString (rawUrl u))
      /\ (log <> [] -> content = [])
      /\ Forall (fun entry => log_level entry = LogWarn) log) as Hcaught.
  { intros e. eexists _, _. split; [reflexivity|].
    split_and!; [done | done | repeat constructor]. }
  assert (forall address,
    (forall u, url = VString u -> address = VString (rawUrl u)) ->
    exists log content,
      fetchGithubContent (fetch address) = (log, Returned content)
      /\ (content <> [] ->
          log = []
          /\ exists address,
               fetch address = FetchStatus true (inr content)
               /\ forall u, url = VString u -> address = VString (rawUrl u))
      /\ (log <> [] -> content = [])
      /\ Forall (fun entry => log_level entry = LogWarn) log) as Hok.
  { intros address Haddr.
    destruct (Hfetch address) as (log & content & E & H1 & H2 & H3).
    exists log, content. split_and!; try done.
    intros Hne. destruct (H1 Hne) as [-> Hf]. split; [done|].
    by exists address. }
  unfold fetchGithubContentOf.
  destruct url as [| b | x | s | a | p]; try apply Hcaught.
  - apply Hok. by intros u [= ->].
  - repeat (match goal with
            | |- context [if ?c then _ else _] => destruct c
            end); try apply Hcaught.
    apply Hok. by intros u [=].
Qed.

(** ** The numeric rewrites create no fence marker *)

Lemma includes_fence_skip (u v : jsstring) :
  (backtick ∉ u) -> includes fence (u ++ v) = includes fence v.
Proof.
  induction u as [|a u IH]; intros Hu; [done|].
  apply not_elem_of_cons in Hu as [Ha Hu]. cbn [app includes].
  rewrite (IH Hu), isPrefix_fence, ticks_cons.
  destruct (N.eqb_spec backtick a) as [E|_]; [done|]. done.
Qed.

Lemma digits_no_backtick (ds : jsstring) : allOf isDigit ds -> backtick ∉ ds.
Proof. intros H. by eapply allOf_not_elem. Qed.

Section FenceFree.
Variable re : rule.
Hypothesis re_consumes : forall s repl rest,
  re s = Some (repl, rest) -> exists m, s = m ++ rest /\ m <> [].
(** Every match and every replacement begins with a digit and the
    replacement holds no backtick. *)
Hypothesis re_digits : forall m repl rest,
  re (m ++ rest) = Some (repl, rest) ->
  startsWith isDigit m = true /\ startsWith isDigit repl = true
  /\ (backtick ∉ repl).

Lemma ticks_digit (m rest : jsstring) :
  startsWith isDigit m = true -> ticks (m ++ rest) = O.
Proof.
  destruct m as [|a m]; [done|]. simpl. intros Ha.
  rewrite ticks_cons. destruct (N.eqb_spec backtick a) as [<-|]; done.
Qed.

Lemma replaceAll_fence_free (s : jsstring) :
  ticks (replaceAll re s) = ticks s
  /\ (includes fence s = false -> includes fence (replaceAll re s) = false).
Proof.
  apply (replaceAll_ind re re_consumes (fun s out =>
    ticks out = ticks s
    /\ (includes fence s = false -> includes fence out = false))).
  - done.
  - intros a u _ [IH1 IH2].
    assert (ticks (a :: replaceAll re u) = ticks (a :: u)) as Ht
      by (by rewrite !ticks_cons, IH1).
    split; [done|]. cbn [includes]. rewrite !isPrefix_fence, Ht.
    intros H. apply orb_false_iff in H as [-> H]. by rewrite (IH2 H).
  - intros m repl rest' E _ [IH1 IH2].
    destruct (re_digits _ _ _ E) as (Hm & Hrepl & Hno).
    split; [by rewrite !ticks_digit|].
    intros H. rewrite includes_fence_skip by done. apply IH2.
    apply (includes_part _ m _ []). by rewrite app_nil_r.
Qed.
End FenceFree.

Lemma startsWith_app_digit (int u : jsstring) :
  int <> [] -> allOf isDigit int -> startsWith isDigit (int ++ u) = true.
Proof.
  intros Hne Hint. destruct int as [|a int]; [done|]. simpl.
  by inversion Hint.
Qed.

Lemma truncDecimals_fence_free (s : jsstring) :
  includes fence s = false -> includes fence (truncDecimals s) = false.
Proof.
  apply (replaceAll_fence_free reLongDecimal reLongDecimal_consumes).
  intros m repl rest' H. rewrite reLongDecimal_spec in H.
  apply longDecimalAt_inv in H
    as (int & frac & Hs & Hint & Hne & Hfrac & _ & _ & ->).
  assert (m = int ++ 46 :: frac) as ->.
  { apply (app_inv_tail rest'). rewrite Hs. by rewrite <- app_assoc. }
  split_and!; try by apply startsWith_app_digit.
  apply not_elem_of_app. split; [by apply digits_no_backtick|].
  apply not_elem_of_cons. split; [done|].
  apply digits_no_backtick. by apply Forall_take.
Qed.

Lemma reduceScientific_fence_free (s : jsstring) :
  includes fence s = false -> includes fence (reduceScientific s) = false.
Proof.
  apply (replaceAll_fence_free reScientific reScientific_consumes).
  intros m repl rest' H. rewrite reScientific_spec in H.
  apply scientificAt_inv in H
    as (int & frac & x & Hs & Hint & Hne & Hfrac & _ & _ & _ & ->).
  assert (m = int ++ 46 :: frac ++ x) as ->.
  { apply (app_inv_tail rest'). rewrite Hs, <- app_assoc. simpl.
    by rewrite <- app_assoc. }
  split_and!; try by apply startsWith_app_digit.
  apply not_elem_of_app. split; [by apply digits_no_backtick|].
  apply not_elem_of_cons. split; [done|].
  apply digits_no_backtick. by apply Forall_take.
Qed.

Lemma normalizeNumbers_fence_free (s : jsstring) :
  includes fence s = false -> includes fence (normalizeNumbers s) = false.
Proof.
  intros H. unfold normalizeNumbers.
  by apply reduceScientific_fence_free, truncDecimals_fence_free.
Qed.

(** ** The numeric rewrites keep the order of the braces *)

Lemma sublist_braces (x s : jsstring) (x1 x2 x3 : jsstring) :
  x `sublist_of` s -> x = x1 ++ lbrace :: x2 ++ rbrace :: x3 ->
  exists s1 s2 s3, s = s1 ++ lbrace :: s2 ++ rbrace :: s3.
Proof.
  intros Hsub ->.
  apply sublist_app_l in Hsub as (k1 & k2 & -> & _ & Hsub).
  apply sublist_cons_l in Hsub as (k3 & k4 & -> & Hsub).
  apply sublist_app_l in Hsub as (k5 & k6 & -> & _ & Hsub).
  apply sublist_cons_l in Hsub as (k7 & k8 & -> & _).
  exists (k1 ++ k3), (k5 ++ k7), k8.
  rewrite <- !app_assoc. by simpl.
Qed.

Lemma braces_bounded (s s1 s2 s3 : jsstring) :
  s = s1 ++ lbrace :: s2 ++ rbrace :: s3 -> exists span, braceBounded s span.
Proof.
  intros Hs. destruct (braceBounded_dec s) as [H|Hno]; [done|]. exfalso.
  assert (lbrace ∈ s) as Hl
    by (rewrite Hs; apply elem_of_app; right; by left).
  destruct (indexOf_split _ _ Hl) as (pre & r & E & Hpre).
  assert (rbrace ∈ s2 ++ rbrace :: s3) as Hin
    by (apply elem_of_app; right; by left).
  assert (rbrace ∈ r) as Hr.
  { rewrite E in Hs.
    destruct (app_eq_inv _ _ _ _ Hs) as [(k & ? & Hk)|(k & ? & Hk)];
      destruct k as [|a k]; simplify_eq/=; try done.
    - exfalso. apply Hpre. apply elem_of_app. right. by left.
    - apply elem_of_app. right. by right. }
  destruct (lastIndexOf_split _ _ Hr) as (body & post & -> & Hpost).
  apply (Hno (lbrace :: body ++ [rbrace])).
  by exists pre, body, post.
Qed.

Lemma normalizeNumbers_unbounded (s : jsstring) :
  (forall span, ~ braceBounded s span) ->
  forall span, ~ braceBounded (normalizeNumbers s) span.
Proof.
  intros Hno span (pre & body & post & E & _).
  destruct (sublist_braces _ s _ _ _ (normalizeNumbers_sublist s) E)
    as (s1 & s2 & s3 & Hs).
  destruct (braces_bounded _ _ _ _ Hs) as [span' Hb]. by apply (Hno span').
Qed.

(** ** White space around the text *)

Lemma space_not_numChar c : isTrimSpace c = true -> isNumChar c = false.
Proof.
  intros H. destruct (isNumChar c) eqn:E; [|done]. exfalso.
  unfold isTrimSpace, isNumChar, isDigit, isDot, isExpMark, isSign in *.
  rewrite !orb_true_iff, !andb_true_iff, !N.eqb_eq, !N.leb_le in *. lia.
Qed.

Lemma normalizeNumbers_spaces (w : jsstring) :
  allOf isTrimSpace w -> normalizeNumbers w = w.
Proof.
  induction 1 as [|a w Ha _ IH]; [apply normalizeNumbers_nil|].
  rewrite normalizeNumbers_nondigit, IH; [done|].
  apply space_not_numChar in Ha. unfold isNumChar in Ha.
  by destruct (isDigit a).
Qed.

Lemma normalizeNumbers_between_spaces (w1 y w2 : jsstring) :
  allOf isTrimSpace w1 -> allOf isTrimSpace w2 ->
  normalizeNumbers (w1 ++ y ++ w2) = w1 ++ normalizeNumbers y ++ w2.
Proof.
  intros H1 H2. induction H1 as [|a w1 Ha _ IH].
  - simpl. destruct H2 as [|b w2 Hb Hw2].
    + by rewrite !app_nil_r.
    + rewrite normalizeNumbers_sep by by apply space_not_numChar.
      by rewrite (normalizeNumbers_spaces w2).
  - simpl. rewrite normalizeNumbers_nondigit, IH; [done|].
    apply space_not_numChar in Ha. unfold isNumChar in Ha.
    by destruct (isDigit a).
Qed.

(** The two rewrites applied twice, on delimited literals. *)
Lemma normalizeNumbers_twice (s : jsstring) :
  literalsDelimited s ->
  normalizeNumbers (normalizeNumbers s) = normalizeNumbers s.
Proof.
  induction 1 as [|a u Ha _ IH|l post Hl Hpost _ IH].
  - by rewrite !normalizeNumbers_nil.
  - rewrite !normalizeNumbers_nondigit by done. by rewrite IH.
  - destruct (normalizeNumbers_literal _ _ Hl Hpost) as (l' & -> & Hl').
    rewrite Hl' by by apply normalizeNumbers_literalEnd.
    by rewrite IH.
Qed.

(** ** Fixed points of the second revision *)

(** Property X20. On a response whose numeric literals are delimited, the
    [cleanJson] of lines 221-249 is idempotent as a whole: its result
    holds no fence marker, its brace span is the result itself, its
    numbers are normalized already and it is trimmed, so sanitizing it
    again returns it unchanged. *)
Theorem cleanJson_idempotent_on_delimited (text : jsstring) :
  literalsDelimited (braceSpan (stripFences text)) ->
  cleanJson (cleanJson text) = cleanJson text.
Proof.
  intros Hlit.
  assert (includes fence (braceSpan (stripFences text)) = false) as Hspan.
  { destruct (braceSpan_part (stripFences text)) as (u & v & E).
    apply (includes_part _ u _ v). rewrite <- E.
    apply stripFences_no_fence. }
  apply normalizeNumbers_fence_free in Hspan as Hfree.
  pose proof (normalizeNumbers_twice _ Hlit) as Htwice.
  assert (includes fence (cleanJson text) = false) as Hclean.
  { unfold cleanJson.
    destruct (trim_spaces (normalizeNumbers (braceSpan (stripFences text))))
      as (w1 & w2 & E & _ & _).
    apply (includes_part _ w1 _ w2). by rewrite <- E. }
  unfold cleanJson at 1. rewrite (stripFences_absent _ Hclean).
  unfold cleanJson.
  destruct (braceBounded_dec (stripFences text)) as [[span Hb]|Hno].
  - rewrite (braceSpan_bounded _ _ Hb) in *.
    destruct Hb as (pre & body & post & _ & _ & _ & ->).
    rewrite normalizeNumbers_object in *. rewrite trim_braces.
    rewrite (braceSpan_bounded _
               (lbrace :: normalizeNumbers body ++ [rbrace])).
    + rewrite Htwice. apply trim_braces.
    + exists [], (normalizeNumbers body), [].
      split_and!; [done | apply not_elem_of_nil | apply not_elem_of_nil | done].
  - rewrite (braceSpan_unbounded _ Hno) in *.
    rewrite (braceSpan_unbounded (trim (normalizeNumbers (stripFences text))))
      by (by apply trim_unbounded, normalizeNumbers_unbounded).
    destruct (trim_spaces (normalizeNumbers (stripFences text)))
      as (w1 & w2 & E & H1 & H2).
    remember (normalizeNumbers (stripFences text)) as n eqn:Hn.
    remember (trim n) as r eqn:Hr.
    rewrite E in Htwice.
    rewrite normalizeNumbers_between_spaces in Htwice by done.
    apply app_inv_head, app_inv_tail in Htwice.
    rewrite Htwice, Hr. apply trim_idempotent.
Qed.

Lemma cleanJson_idempotent_on_delimited_witness :
  cleanJson (cleanJson (str "```json {" ++ quoted "w" ++ str ": 5.0000018e+00} ```"))
  = cleanJson (str "```json {" ++ quoted "w" ++ str ": 5.0000018e+00} ```").
Proof.
  apply cleanJson_idempotent_on_delimited.
  change (braceSpan (stripFences
            (str "```json {" ++ quoted "w" ++ str ": 5.0000018e+00} ```")))
    with (str "{" ++ quoted "w" ++ str ": "
          ++ (str "5" ++ 46 :: str "0000018" ++ str "e+00") ++ str "}").
  do 6 (apply delimited_char; [reflexivity|]).
  apply (delimited_literal (str "5" ++ 46 :: str "0000018" ++ str "e+00")
           (str "}")).
  { apply lit_scientific; try (solve_allOf || discriminate).
    exists 101, (str "+"), (str "00"). split_and!;
      [reflexivity | reflexivity | | solve_allOf | discriminate].
    right. by exists 43. }
  { reflexivity. }
  apply delimited_char; [reflexivity|]. apply delimited_nil.
Defined.

(** ** Scores that the reviver leaves alone *)

Lemma allFrom_spec (count : nat) (a : Z) (p : Z -> bool) :
  allFrom count a p = true ->
  forall m, (a <= m < a + Z.of_nat count)%Z -> p m = true.
Proof.
  revert a. induction count as [|n IH]; intros a H m Hm; [lia|].
  simpl in H. apply andb_true_iff in H as [Ha H].
  destruct (decide (m = a)) as [->|Hne]; [done|].
  apply (IH (a + 1)%Z H). lia.
Qed.

Lemma two_decimals_checked (negative : bool) :
  allFrom (Z.to_nat 10001) 0 (unchangedByReviver negative (-2)) = true
  /\ allFrom (Z.to_nat 1001) 0 (unchangedByReviver negative (-1)) = true
  /\ allFrom (Z.to_nat 101) 0 (unchangedByReviver negative 0) = true.
Proof. destruct negative; vm_compute; done. Qed.

Lemma twoDecimalScore_unchanged (x : number) :
  twoDecimalScore x -> roundTwoPlaces x = x.
Proof.
  intros (negative & m & e & He & Hm & Hbound & ->).
  apply FloatAxioms.Leibniz.eqb_spec.
  fold (unchangedByReviver negative e m).
  destruct (two_decimals_checked negative) as (H2 & H1 & H0).
  assert (e = -2 \/ e = -1 \/ e = 0)%Z as [-> | [-> | ->]] by lia.
  - apply (allFrom_spec _ _ _ H2). simpl in Hbound. lia.
  - apply (allFrom_spec _ _ _ H1). simpl in Hbound. lia.
  - apply (allFrom_spec _ _ _ H0). simpl in Hbound. lia.
Qed.

Lemma mapNumbers_fixed (f : number -> number) (v : value) :
  everyNumber (fun x => f x = x) v -> mapNumbers f v = v.
Proof.
  induction v as [| b | x | u | elems IH | props IH] using value_induction;
    simpl; try done.
  - by intros ->.
  - intros H. f_equal. induction IH as [|e l He _ IHl]; [done|].
    destruct H as [H1 H2]. simpl. by rewrite (He H1), (IHl H2).
  - intros H. f_equal. induction IH as [|[k e] l He _ IHl]; [done|].
    destruct H as [H1 H2]. simpl in *. by rewrite (He H1), (IHl H2).
Qed.

Lemma everyNumber_impl (P Q : number -> Prop) (v : value) :
  (forall x, P x -> Q x) -> everyNumber P v -> everyNumber Q v.
Proof.
  intros HPQ.
  induction v as [| b | x | u | elems IH | props IH] using value_induction;
    simpl; try done.
  - apply HPQ.
  - induction IH as [|e l He _ IHl]; [done|].
    intros [H1 H2]. split; [by apply He | by apply IHl].
  - induction IH as [|[k e] l He _ IHl]; [done|].
    intros [H1 H2]. split; [by apply He | by apply IHl].
Qed.

(** Property X21. Scores written as asked for pass the reviver unchanged:
    when every number of the parsed response is read from a literal with
    at most two fraction digits and a magnitude of at most 100, parsing
    with [jsonReviver] gives exactly the value that parsing without a
    reviver gives; [Math.round(x * 100) / 100] returns each such number
    as it is. *)
Theorem two_decimal_scores_pass_the_reviver (text : jsstring) (v : value) :
  JSON_parse text (fun _ w => w) = Some v ->
  everyNumber twoDecimalScore v ->
  JSON_parse text jsonReviver = Some v.
Proof.
  intros Hparse Hscores. rewrite JSON_parse_reviving, Hparse. simpl.
  f_equal. apply mapNumbers_fixed.
  revert Hscores. apply everyNumber_impl, twoDecimalScore_unchanged.
Qed.

Lemma two_decimal_scores_pass_the_reviver_witness :
  JSON_parse (str "{" ++ quoted "score" ++ str ": 8.25, " ++ quoted "max"
              ++ str ": -10}") jsonReviver
  = Some (VObject [(str "score", VNumber 8.25%float);
                   (str "max", VNumber (-10)%float)]).
Proof.
  apply two_decimal_scores_pass_the_reviver.
  - vm_compute. reflexivity.
  - simpl. split_and!; [| |exact I].
    + exists false, 825%Z, (-2)%Z. split_and!; [lia..|reflexivity].
    + exists true, 10%Z, 0%Z. split_and!; [lia..|reflexivity].
Defined.

(** ** What the parser leaves is the end of its input *)

Lemma dropWhile_suffix p (s : jsstring) : dropWhile p s `suffix_of` s.
Proof.
  induction s as [|c t IH]; simpl; [done|].
  destruct (p c); [by apply suffix_cons_r | done].
Qed.

Lemma skipSpace_suffix (s : jsstring) : skipSpace s `suffix_of` s.
Proof. apply dropWhile_suffix. Qed.

Lemma consChar_suffix c o (n w r : jsstring) :
  (forall w' r', o = Some (w', r') -> r' `suffix_of` n) ->
  consChar c o = Some (w, r) -> r `suffix_of` n.
Proof.
  intros H. destruct o as [[w' r']|]; [|done].
  intros [= <- <-]. by eapply H.
Qed.

Lemma parseChars_suffix (s w r : jsstring) :
  parseChars s = Some (w, r) -> r `suffix_of` s.
Proof.
  remember (length s) as n eqn:Hn. revert s w r Hn.
  induction n as [n IH] using lt_wf_ind. intros s w r -> H.
  destruct s as [|c t]; [done|]. simpl in H.
  destruct (c =? 34); [injection H as <- <-; by apply suffix_cons_r|].
  destruct (c =? 92).
  - destruct t as [|e t']; [done|].
    destruct (e =? 117).
    + destruct t' as [|h1 [|h2 [|h3 [|h4 t'']]]]; try done.
      destruct (hex4 h1 h2 h3 h4); [|done].
      eapply consChar_suffix in H; [exact H|].
      intros w' r' Hp.
      pose proof (IH (length t'') ltac:(simpl; lia) t'' w' r' eq_refl Hp).
      by do 6 apply suffix_cons_r.
    + destruct (simpleEscape e); [|done].
      eapply consChar_suffix in H; [exact H|].
      intros w' r' Hp.
      pose proof (IH (length t') ltac:(simpl; lia) t' w' r' eq_refl Hp).
      by do 2 apply suffix_cons_r.
  - destruct (c <? 32); [done|].
    eapply consChar_suffix in H; [exact H|].
    intros w' r' Hp.
    pose proof (IH (length t) ltac:(simpl; lia) t w' r' eq_refl Hp).
    by apply suffix_cons_r.
Qed.

Lemma fractionPart_suffix (s frac r : jsstring) :
  fractionPart s = Some (frac, r) -> r `suffix_of` s.
Proof.
  unfold fractionPart. destruct s as [|c t]; [by intros [= _ <-]|].
  destruct (c =? 46); [|by intros [= _ <-]].
  pose proof (dropWhile_suffix isDigit t).
  destruct (takeWhile isDigit t); [done|]. intros [= _ <-].
  by apply suffix_cons_r.
Qed.

Lemma exponentPart_suffix (s r : jsstring) ex :
  exponentPart s = Some (ex, r) -> r `suffix_of` s.
Proof.
  unfold exponentPart. destruct s as [|e t]; [by intros [= _ <-]|].
  destruct (isExpMark e); [|by intros [= _ <-]].
  set (t' := if startsWith isSign t then drop 1 t else t).
  assert (t' `suffix_of` t) as Ht.
  { subst t'. destruct (startsWith isSign t); [apply suffix_drop | done]. }
  pose proof (dropWhile_suffix isDigit t') as Hd.
  destruct (takeWhile isDigit t'); [done|]. intros [= _ <-].
  apply suffix_cons_r. by etrans.
Qed.

Lemma parseNumber_suffix (s r : jsstring) x :
  parseNumber s = Some (x, r) -> r `suffix_of` s.
Proof.
  unfold parseNumber.
  set (s1 := if startsWith (N.eqb 45) s then drop 1 s else s).
  assert (s1 `suffix_of` s) as Hs1.
  { subst s1. destruct (startsWith _ s); [apply suffix_drop | done]. }
  destruct (integerPart s1) as [|d int]; [done|].
  destruct (fractionPart _) as [[frac s3]|] eqn:Hf; [|done].
  destruct (exponentPart s3) as [[ex rest']|] eqn:He; [|done].
  intros [= _ <-].
  apply fractionPart_suffix in Hf. apply exponentPart_suffix in He.
  etrans; [exact He|]. etrans; [exact Hf|]. etrans; [|exact Hs1].
  apply suffix_drop.
Qed.

Lemma parse_suffix (fuel : nat) :
  (forall s v r, parseValue fuel s = Parsed v r -> r `suffix_of` s)
  /\ (forall acc s v r, parseElements fuel acc s = Parsed v r ->
        r `suffix_of` s)
  /\ (forall acc s v r, parseMembers fuel acc s = Parsed v r ->
        r `suffix_of` s).
Proof.
  induction fuel as [|f (IHv & IHe & IHm)]; [by split_and!|].
  split_and!.
  - intros s v r. simpl.
    pose proof (skipSpace_suffix s) as Hsp.
    destruct (skipSpace s) as [|c t]; [done|].
    apply suffix_cons_l in Hsp as Ht.
    pose proof (skipSpace_suffix t) as Hst.
    destruct (c =? 123).
    { destruct (startsWith (N.eqb 125) (skipSpace t)).
      - intros [= _ <-]. etrans; [apply suffix_drop|]. by etrans.
      - intros H. apply IHm in H. etrans; [exact H|]. by etrans. }
    destruct (c =? 91).
    { destruct (startsWith (N.eqb 93) (skipSpace t)).
      - intros [= _ <-]. etrans; [apply suffix_drop|]. by etrans.
      - intros H. apply IHe in H. etrans; [exact H|]. by etrans. }
    destruct (c =? 34).
    { destruct (parseChars t) as [[w r']|] eqn:E; [|done].
      intros [= _ <-]. apply parseChars_suffix in E. by etrans. }
    destruct (isDigit c || (c =? 45)).
    { destruct (parseNumber (c :: t)) as [[x r']|] eqn:E; [|done].
      intros [= _ <-]. apply parseNumber_suffix in E. by etrans. }
    destruct (isPrefix (str "true") (c :: t)).
    { intros [= _ <-]. etrans; [apply suffix_drop | done]. }
    destruct (isPrefix (str "false") (c :: t)).
    { intros [= _ <-]. etrans; [apply suffix_drop | done]. }
    destruct (isPrefix (str "null") (c :: t)); [|done].
    intros [= _ <-]. etrans; [apply suffix_drop | done].
  - intros acc s v r. simpl.
    destruct (parseValue f s) as [v' r'| |] eqn:E; [|done..].
    apply IHv in E. pose proof (skipSpace_suffix r') as Hsp.
    destruct (skipSpace r') as [|c r'']; [done|].
    apply suffix_cons_l in Hsp.
    destruct (c =? 44).
    { intros H. apply IHe in H. etrans; [exact H|]. by etrans. }
    destruct (c =? 93); [|done]. intros [= _ <-]. by etrans.
  - intros acc s v r. simpl.
    pose proof (skipSpace_suffix s) as Hsp.
    destruct (skipSpace s) as [|c t]; [done|].
    apply suffix_cons_l in Hsp.
    destruct (c =? 34); [|done].
    destruct (parseChars t) as [[key r1]|] eqn:Ek; [|done].
    apply parseChars_suffix in Ek.
    pose proof (skipSpace_suffix r1) as Hsp1.
    destruct (skipSpace r1) as [|c1 r2]; [done|].
    apply suffix_cons_l in Hsp1.
    destruct (c1 =? 58); [|done].
    destruct (parseValue f r2) as [v' r3| |] eqn:E; [|done..].
    apply IHv in E. pose proof (skipSpace_suffix r3) as Hsp3.
    destruct (skipSpace r3) as [|c3 r4]; [done|].
    apply suffix_cons_l in Hsp3.
    assert (r4 `suffix_of` s) as H4.
    { etrans; [exact Hsp3|]. etrans; [exact E|]. etrans; [exact Hsp1|].
      by etrans. }
    destruct (c3 =? 44).
    { intros H. apply IHm in H. by etrans. }
    destruct (c3 =? 125); [|done]. by intros [= _ <-].
Qed.

(** ** The kind of value is decided by the first character *)

Lemma parseMembers_object (fuel : nat) acc (s : jsstring) v r :
  parseMembers fuel acc s = Parsed v r ->
  (exists props, v = VObject props) /\ (rbrace ∈ s).
Proof.
  revert acc s. induction fuel as [|f IH]; intros acc s; [done|]. simpl.
  pose proof (skipSpace_suffix s) as Hsp.
  destruct (skipSpace s) as [|c t]; [done|].
  apply suffix_cons_l in Hsp.
  destruct (c =? 34); [|done].
  destruct (parseChars t) as [[key r1]|] eqn:Ek; [|done].
  apply parseChars_suffix in Ek.
  pose proof (skipSpace_suffix r1) as Hsp1.
  destruct (skipSpace r1) as [|c1 r2]; [done|].
  apply suffix_cons_l in Hsp1.
  destruct (c1 =? 58); [|done].
  destruct (parseValue f r2) as [v' r3| |] eqn:E; [|done..].
  apply (proj1 (parse_suffix f)) in E.
  pose proof (skipSpace_suffix r3) as Hsp3.
  destruct (skipSpace r3) as [|c3 r4] eqn:E3; [done|].
  assert (c3 :: r4 `suffix_of` s) as H4.
  { etrans; [exact Hsp3|]. etrans; [exact E|]. etrans; [exact Hsp1|].
    by etrans. }
  destruct (c3 =? 44).
  { intros H. apply IH in H as [Hv Hin]. split; [done|].
    apply (elem_of_suffix (c3 :: r4)); [by right | done]. }
  destruct (N.eqb_spec c3 125) as [->|]; [|done]. intros [= <- _].
  split; [by eexists|].
  apply (elem_of_suffix (125 :: r4)); [by left | done].
Qed.

Lemma parseElements_array (fuel : nat) acc (s : jsstring) v r :
  parseElements fuel acc s = Parsed v r -> exists elems, v = VArray elems.
Proof.
  revert acc s. induction fuel as [|f IH]; intros acc s; [done|]. simpl.
  destruct (parseValue f s) as [v' r'| |]; [|done..].
  destruct (skipSpace r') as [|c r'']; [done|].
  destruct (c =? 44); [apply IH|].
  destruct (c =? 93); [|done]. intros [= <- _]. by eexists.
Qed.

(** A parse yields an object exactly when the text begins, after white
    space, with an opening brace; a closing brace then follows it. *)
Lemma parseValue_object (fuel : nat) (s : jsstring) v r :
  parseValue fuel s = Parsed v r ->
  ((exists props, v = VObject props)
   <-> startsWith (N.eqb lbrace) (skipSpace s) = true)
  /\ ((exists props, v = VObject props) ->
      exists t, skipSpace s = lbrace :: t /\ (rbrace ∈ t)).
Proof.
  destruct fuel as [|f]; [done|]. cbn [parseValue].
  destruct (skipSpace s) as [|c t]; [done|].
  pose proof (skipSpace_suffix t) as Hst.
  cbn [startsWith]. rewrite (N.eqb_sym lbrace c). unfold lbrace.
  destruct (N.eqb_spec c 123) as [->|Hc].
  { destruct (startsWith (N.eqb 125) (skipSpace t)) eqn:E.
    - intros [= <- _]. split; [split; [done | by eexists]|].
      intros _. exists t. split; [done|].
      destruct (skipSpace t) as [|d u] eqn:Eu; [done|].
      cbn [startsWith] in E. apply N.eqb_eq in E as <-.
      apply (elem_of_suffix (125 :: u)); [by left | done].
    - intros H. apply parseMembers_object in H as [Hv Hin].
      split; [done|]. intros _. exists t. split; [done|].
      by apply (elem_of_suffix (skipSpace t)). }
  assert (forall P : Prop,
            (forall props, v <> VObject props) ->
            ((exists props, v = VObject props) <-> false = true)
            /\ ((exists props, v = VObject props) -> P)) as Hnot.
  { intros P Hv. split; [split; [|done]|]; intros [props ->]; by destruct (Hv props). }
  destruct (c =? 91).
  { destruct (startsWith (N.eqb 93) (skipSpace t)).
    - intros [= <- _]. by apply Hnot.
    - intros H. apply parseElements_array in H as [elems ->]. by apply Hnot. }
  destruct (c =? 34).
  { destruct (parseChars t) as [[w r']|]; [|done].
    intros [= <- _]. by apply Hnot. }
  destruct (isDigit c || (c =? 45)).
  { destruct (parseNumber (c :: t)) as [[x r']|]; [|done].
    intros [= <- _]. by apply Hnot. }
  destruct (isPrefix (str "true") (c :: t)).
  { intros [= <- _]. by apply Hnot. }
  destruct (isPrefix (str "false") (c :: t)).
  { intros [= <- _]. by apply Hnot. }
  destruct (isPrefix (str "null") (c :: t)); [|done].
  intros [= <- _]. by apply Hnot.
Qed.

Lemma mapNumbers_object (f : number -> number) (v : value) :
  (exists props, mapNumbers f v = VObject props)
  <-> exists props, v = VObject props.
Proof.
  destruct v as [| b | x | u | elems | ps]; simpl; split; intros [qs H];
    try done; by eexists.
Qed.

(** A parsed text yields an object exactly when it had a brace span,
    provided sanitizing keeps the braces as [cleanJson] does. *)
Lemma parsed_object_iff_span (stripped cleaned : jsstring)
    (reviver : jsstring -> value -> value) (v : value) :
  (forall span, braceBounded stripped span ->
     startsWith (N.eqb lbrace) cleaned = true) ->
  ((forall span, ~ braceBounded stripped span) ->
   forall span, ~ braceBounded cleaned span) ->
  (forall key w, (exists props, reviver key w = VObject props)
                 <-> exists props, w = VObject props) ->
  JSON_parse cleaned reviver = Some v ->
  ((exists props, v = VObject props)
   <-> exists span, braceBounded stripped span).
Proof.
  intros Hb Hu Hrev. unfold JSON_parse.
  destruct (parseValue _ cleaned) as [v0 r| |] eqn:Hp; [|done..].
  destruct (skipSpace r); [|done]. intros [= <-].
  destruct (parseValue_object _ _ _ _ Hp) as [Hiff Hbrace].
  assert ((exists props, internalize reviver [] v0 = VObject props)
          <-> exists props, v0 = VObject props) as ->.
  { destruct v0 as [| b | x | u | elems | ps]; simpl; rewrite Hrev;
      split; intros [qs H]; try done; by eexists. }
  split.
  - intros Hv. destruct (braceBounded_dec stripped) as [H|Hno]; [done|].
    exfalso. destruct (Hbrace Hv) as (u & Hs & Hin).
    destruct (skipSpace_suffix cleaned) as [k Hk]. rewrite Hs in Hk.
    apply list_elem_of_split in Hin as (u1 & u2 & ->).
    destruct (braces_bounded cleaned k u1 u2 Hk) as [span Hspan].
    by apply (Hu Hno span).
  - intros [span Hspan]. apply Hiff.
    pose proof (Hb span Hspan) as Hstart.
    destruct cleaned as [|a cl]; [done|]. cbn [startsWith] in Hstart.
    apply N.eqb_eq in Hstart as <-. done.
Qed.

(** ** Objects and brace spans *)

(** Property X22. What the decoding operations return is an object
    exactly when [cleanJson] found a brace span: if the sanitized text
    parses, the parsed value is an object if and only if the fence-stripped
    response has an opening brace followed somewhere by a closing brace;
    without such a span the text is parsed whole and an array, a string, a
    number, [true], [false] or [null] comes back, which nothing checks.
    This holds for the revision of lines 221-249 with its reviver and for
    the revision of lines 15-28 without one. *)
Theorem a_decoded_object_needs_a_brace_span (text : jsstring) (v : value) :
  (JSON_parse (cleanJson text) jsonReviver = Some v ->
   ((exists props, v = VObject props)
    <-> exists span, braceBounded (stripFences text) span))
  /\ (JSON_parse (cleanJson_v1 text) (fun _ w => w) = Some v ->
      ((exists props, v = VObject props)
       <-> exists span, braceBounded (stripFences text) span)).
Proof.
  split.
  - apply parsed_object_iff_span.
    + intros span Hb. unfold cleanJson.
      rewrite (braceSpan_bounded _ _ Hb).
      destruct Hb as (pre & body & post & _ & _ & _ & ->).
      by rewrite normalizeNumbers_object, trim_braces.
    + intros Hno. unfold cleanJson. rewrite (braceSpan_unbounded _ Hno).
      by apply trim_unbounded, normalizeNumbers_unbounded.
    + intros key w. destruct w as [| b | x | u | elems | ps]; simpl;
        split; intros [qs H]; try done; by eexists.
  - apply parsed_object_iff_span.
    + intros span Hb. unfold cleanJson_v1.
      rewrite (braceSpan_bounded _ _ Hb).
      destruct Hb as (pre & body & post & _ & _ & _ & ->).
      by rewrite trim_braces.
    + intros Hno. unfold cleanJson_v1. rewrite (braceSpan_unbounded _ Hno).
      by apply trim_unbounded.
    + done.
Qed.

Lemma a_decoded_object_needs_a_brace_span_witness :
  (exists props, VArray [VNumber 1; VNumber 2.5] = VObject props)
  <-> exists span, braceBounded (stripFences (str "```json [1, 2.5] ```")) span.
Proof.
  apply (proj1 (a_decoded_object_needs_a_brace_span
                  (str "```json [1, 2.5] ```")
                  (VArray [VNumber 1; VNumber 2.5]))).
  vm_compute. reflexivity.
Defined.

(** ** More sample inputs *)

Example includes_sample :
  includes (str "github.com") (str "https://github.com/u/r") = true
  /\ includes (str "github.com") (str "https://raw.githubusercontent.com/u")
     = false
  /\ includes [] [] = true.
Proof. split_and!; reflexivity. Qed.

Example cleanJson_v3_sample :
  cleanJson_v3 (str "```json" ++ [10] ++ str "{}" ++ [10] ++ str "```")
    = str "{}"
  /\ cleanJson_v3 (str "```" ++ [10] ++ str "[1]" ++ str "  ```") = str "[1]"
  /\ cleanJson_v3 (str "x ``` ") = str "x ```"
  /\ cleanJson_v3 (str "``````") = [].
Proof. split_and!; reflexivity. Qed.

(** The first [/blob/] is the one replaced, also when it names the owner
    of the repository. *)
Example rawUrl_sample :
  rawUrl (str "https://github.com/blob/repo/blob/main/a.py")
    = str "https://raw.githubusercontent.com/repo/blob/main/a.py"
  /\ rawUrl (str "https://github.com/u/r/tree/main/src")
    = str "https://github.com/u/r/tree/main/src"
  /\ rawUrl (str "https://gitlab.com/u/r") = str "https://gitlab.com/u/r"
  /\ rawUrl (str "https://mygithub.com/u/r")
    = str "https://myraw.githubusercontent.com/u/r/main/README.md".
Proof. split_and!; reflexivity. Qed.

Example runEvaluation_sample :
  statusesOf
    (runEvaluation (fun _ => []) (fun _ => [])
       (fun _ => FetchStatus false (inr [])) (Some (VObject []))
       (Responded {| response_text := Some (str "null");
                     response_candidates := None |})
       (Rejected OtherThrown))
    = [Evaluating; Errored]
  /\ statusesOf
      (runEvaluation (fun _ => []) (fun _ => [])
         (fun _ => FetchStatus false (inr [])) (Some (VObject []))
         (Responded {| response_text := Some (str "7");
                       response_candidates := None |})
         (Rejected OtherThrown))
    = [Evaluating; Graded]
  /\ runEvaluation (fun _ => []) (fun _ => [])
       (fun _ => FetchStatus false (inr [])) (Some (VNumber 0))
       (Responded {| response_text := Some (str "7");
                     response_candidates := None |})
       (Rejected OtherThrown)
    = ([], []).
Proof. split_and!; vm_compute; reflexivity. Qed.
